(** * dungeongame: the action reducer, the combat engine and the character model

    A shallow embedding of [src/lib/types.ts], [src/lib/game/character.ts],
    [src/lib/game/combat.ts], the helpers of [src/lib/world/locations.ts] and
    [src/lib/world/npcs.ts], and [src/lib/engine/game-engine.ts].

    Conventions of the embedding.
    - JavaScript numbers that only ever hold integers (hit points, gold,
      experience, levels, armor class, dice) are [Z].  Item weights, shop
      multipliers and the value of [Math.random()] are doubles: they are the
      rationals [Q] that doubles are, and every sum, difference and product
      that the code takes of them is rounded as IEEE 754 binary64 rounds, to
      the nearest double, ties to even ([fl], [fadd], [fsub], [fmul]).  A
      decimal of the world data such as 0.1 is the double nearest to it,
      [fl (1 # 10)].  NaN, negative zero and the infinities are not modelled:
      a result beyond the largest double is kept as it is.
    - [Record<string, T>] objects are [gmap string T]; arrays are lists.
      Where the code indexes an object with a string that the player or the
      character sheet supplies (the class tables, the exits of a location,
      the NPC that an action names) the properties that every object
      inherits from [Object.prototype] are looked up as well
      ([objectPrototypeText], [objectPrototypeName]); the ids that the state
      itself holds (of the current location, of the NPCs listed in a
      location or engaged in a dialogue or a fight, of the targets of
      exits) are taken not to be such names.
    - Randomness and exceptions are threaded through the monad [M]: every
      call of [Math.random()] consumes one cell of a tape.
    - A log entry keeps its message and its type; the [id] ([nanoid()]) and
      the timestamps ([Date.now()]) are stamps of the host that no rule of
      the engine reads, and are left out, together with [GameState.timestamp].
    - Loops with no structural bound take fuel; running out of it is the
      outcome [OutOfFuel], distinct from every result of the code. *)

From Stdlib Require Import ZArith QArith Qround String Ascii DecimalString Lia.
From stdpp Require Import gmap strings list.

Open Scope string_scope.
Open Scope Z_scope.
Open Scope list_scope.

(* ================================================================== *)
(** ** types.ts *)
(* ================================================================== *)

Record Abilities := mkAbilities {
  strength : Z;
  dexterity : Z;
  constitution : Z;
  intelligence : Z;
  wisdom : Z;
  charisma : Z;
}.

Abbreviation AbilityScores := Abilities (only parsing).
Abbreviation AbilityModifiers := Abilities (only parsing).

(** [keyof AbilityScores] *)
Inductive Ability :=
  | Strength | Dexterity | Constitution | Intelligence | Wisdom | Charisma.

Definition abilityName (a : Ability) : string :=
  match a with
  | Strength => "strength" | Dexterity => "dexterity"
  | Constitution => "constitution" | Intelligence => "intelligence"
  | Wisdom => "wisdom" | Charisma => "charisma"
  end.

Definition getAbility (a : Ability) (m : Abilities) : Z :=
  match a with
  | Strength => strength m | Dexterity => dexterity m
  | Constitution => constitution m | Intelligence => intelligence m
  | Wisdom => wisdom m | Charisma => charisma m
  end.

Inductive ItemType := Weapon | Armor | Potion | Treasure | QuestItem | Misc.

#[global] Instance ItemType_eq_dec : EqDecision ItemType.
Proof. solve_decision. Defined.

Definition itemTypeName (t : ItemType) : string :=
  match t with
  | Weapon => "weapon" | Armor => "armor" | Potion => "potion"
  | Treasure => "treasure" | QuestItem => "quest" | Misc => "misc"
  end.

Record Item := mkItem {
  item_id : string;
  item_name : string;
  item_description : string;
  item_weight : Q;
  item_value : Z;
  item_type : ItemType;
  item_usable : bool;
}.

Record Inventory := mkInventory {
  inv_items : list Item;
  maxWeight : Q;
  currentWeight : Q;
}.

Record HitPoints := mkHitPoints {
  hp_current : Z;
  hp_max : Z;
}.

Record Character := mkCharacter {
  char_id : string;
  char_name : string;
  char_race : string;
  char_class : string;
  level : Z;
  experience : Z;
  hitPoints : HitPoints;
  abilityScores : AbilityScores;
  abilityModifiers : AbilityModifiers;
  inventory : Inventory;
  gold : Z;
  armorClass : Z;
}.

Record Location := mkLocation {
  loc_id : string;
  loc_name : string;
  loc_description : string;
  (** the partial direction -> location id object, in key order *)
  connections : list (string * string);
  loc_npcs : list string;
  loc_items : list Item;
  visited : bool;
}.

Record RequiresCheck := mkRequiresCheck {
  rc_ability : Ability;
  rc_dc : Z;
}.

(** [action] is a closure [GameState => GameState] stored in the world
    content; it is kept as a handle that the host resolves ([Host] below).
    The optional [condition] closure of a node is read nowhere in the engine
    and is left out. *)
Record DialogueOption := mkDialogueOption {
  opt_text : string;
  nextNodeId : option string;
  opt_action : option nat;
  requiresCheck : option RequiresCheck;
}.

Record DialogueNode := mkDialogueNode {
  node_id : string;
  node_text : string;
  node_options : list DialogueOption;
}.

Record ShopInventory := mkShopInventory {
  shop_items : list Item;
  buyMultiplier : Q;
  sellMultiplier : Q;
}.

Record Stats := mkStats {
  stat_hitPoints : Z;
  stat_armorClass : Z;
  attackBonus : Z;
  stat_damage : string;
}.

Record NPC := mkNPC {
  npc_id : string;
  npc_name : string;
  npc_description : string;
  dialogue : list DialogueNode;
  hostile : bool;
  stats : option Stats;
  questGiver : option bool;
  shop : option ShopInventory;
}.

Record QuestObjective := mkQuestObjective {
  qo_id : string;
  qo_description : string;
  qo_completed : bool;
  qo_type : string;
  qo_target : option string;
  qo_count : option Z;
  qo_currentCount : option Z;
}.

Record Quest := mkQuest {
  quest_id : string;
  quest_title : string;
  quest_description : string;
  quest_objectives : list QuestObjective;
  quest_reward_experience : Z;
  quest_reward_gold : option Z;
  quest_reward_items : option (list Item);
  quest_status : string;
}.

Record CombatState := mkCombatState {
  active : bool;
  enemies : list NPC;
  enemyMaxHPs : gmap string Z;
  totalEnemyCount : Z;
  turnOrder : list string;
  currentTurnIndex : Z;
  round : Z;
}.

Record ActiveDialogue := mkActiveDialogue {
  ad_npcId : string;
  currentNodeId : string;
}.

Inductive LogType := Info | Success | Warning | Error | Combat | Dialogue.

Record LogEntry := mkLogEntry {
  log_message : string;
  log_type : LogType;
}.

Record GameState := mkGameState {
  character : Character;
  currentLocationId : string;
  locations : gmap string Location;
  npcs : gmap string NPC;
  quests : list Quest;
  combat : CombatState;
  activeDialogue : option ActiveDialogue;
  gameLog : list LogEntry;
}.

Inductive GameAction :=
  | MOVE (direction : string)
  | TALK (npcId : string)
  | DIALOGUE_SELECT (optionIndex : Z)
  | TAKE (itemId : string)
  | USE (itemId : string)
  | DROP (itemId : string)
  | ATTACK (targetId : string)
  | DEFEND
  | FLEE
  | BUY (itemId npcId : string)
  | SELL (itemId npcId : string)
  | REST
  | LOOK
  | INVENTORY
  | STATS
  | SAVE_GAME
  | LOAD_GAME (saveId : string).

(** *** Object spread with one field replaced *)

Definition setHitPoints (c : Character) (hp : HitPoints) : Character :=
  mkCharacter (char_id c) (char_name c) (char_race c) (char_class c) (level c)
    (experience c) hp (abilityScores c) (abilityModifiers c) (inventory c)
    (gold c) (armorClass c).

Definition setInventory (c : Character) (i : Inventory) : Character :=
  mkCharacter (char_id c) (char_name c) (char_race c) (char_class c) (level c)
    (experience c) (hitPoints c) (abilityScores c) (abilityModifiers c) i
    (gold c) (armorClass c).

Definition setGold (c : Character) (g : Z) : Character :=
  mkCharacter (char_id c) (char_name c) (char_race c) (char_class c) (level c)
    (experience c) (hitPoints c) (abilityScores c) (abilityModifiers c)
    (inventory c) g (armorClass c).

Definition setArmorClass (c : Character) (ac : Z) : Character :=
  mkCharacter (char_id c) (char_name c) (char_race c) (char_class c) (level c)
    (experience c) (hitPoints c) (abilityScores c) (abilityModifiers c)
    (inventory c) (gold c) ac.

Definition setExperience (c : Character) (xp : Z) : Character :=
  mkCharacter (char_id c) (char_name c) (char_race c) (char_class c) (level c)
    xp (hitPoints c) (abilityScores c) (abilityModifiers c) (inventory c)
    (gold c) (armorClass c).

Definition setLevelAndHitPoints (c : Character) (l : Z) (hp : HitPoints)
  : Character :=
  mkCharacter (char_id c) (char_name c) (char_race c) (char_class c) l
    (experience c) hp (abilityScores c) (abilityModifiers c) (inventory c)
    (gold c) (armorClass c).

Definition setCharacter (s : GameState) (c : Character) : GameState :=
  mkGameState c (currentLocationId s) (locations s) (npcs s) (quests s)
    (combat s) (activeDialogue s) (gameLog s).

Definition setLocations (s : GameState) (l : gmap string Location)
  : GameState :=
  mkGameState (character s) (currentLocationId s) l (npcs s) (quests s)
    (combat s) (activeDialogue s) (gameLog s).

Definition setNpcs (s : GameState) (n : gmap string NPC) : GameState :=
  mkGameState (character s) (currentLocationId s) (locations s) n (quests s)
    (combat s) (activeDialogue s) (gameLog s).

Definition setCombat (s : GameState) (c : CombatState) : GameState :=
  mkGameState (character s) (currentLocationId s) (locations s) (npcs s)
    (quests s) c (activeDialogue s) (gameLog s).

Definition setActiveDialogue (s : GameState) (d : option ActiveDialogue)
  : GameState :=
  mkGameState (character s) (currentLocationId s) (locations s) (npcs s)
    (quests s) (combat s) d (gameLog s).

Definition setGameLog (s : GameState) (l : list LogEntry) : GameState :=
  mkGameState (character s) (currentLocationId s) (locations s) (npcs s)
    (quests s) (combat s) (activeDialogue s) l.

(* ================================================================== *)
(** ** The host: random tape, exceptions, fuel *)
(* ================================================================== *)

Inductive Outcome (A : Type) :=
  | Ok (a : A)
  | Throw (e : string)
  | OutOfFuel.

Arguments Ok {A} a.
Arguments Throw {A} e.
Arguments OutOfFuel {A}.

(** One call of [makeAttackRoll], as observed from outside: the attack bonus
    and the target armor class it was given.  The list of them in [World] is
    a ghost trace: nothing in the engine reads it. *)
Record AttackCall := mkAttackCall {
  call_bonus : Z;
  call_targetAC : Z;
}.

Record World := mkWorld {
  tape : nat -> N;
  attackCalls : list AttackCall;
}.

Definition M (A : Type) : Type := World -> Outcome (A * World).

Definition ret {A} (a : A) : M A := fun w => Ok (a, w).

Definition bind {A B} (m : M A) (k : A -> M B) : M B :=
  fun w =>
    match m w with
    | Ok (a, w') => k a w'
    | Throw e => Throw e
    | OutOfFuel => OutOfFuel
    end.

Definition throw {A} (e : string) : M A := fun _ => Throw e.

Definition outOfFuel {A} : M A := fun _ => OutOfFuel.

Notation "x <- m ;; k" := (bind m (fun x => k))
  (at level 100, m at next level, right associativity).

(** [Math.random()]: a double in [0, 1), that is a multiple of [2^-53]. *)
Definition randomUnit : Z := 2 ^ 53.

Definition Math_random : M Q :=
  fun w =>
    Ok (Z.of_N (tape w 0%nat) mod randomUnit # Z.to_pos randomUnit,
        mkWorld (fun n => tape w (S n)) (attackCalls w)).

Definition recordAttackCall (bonus targetAC : Z) : M unit :=
  fun w =>
    Ok (tt, mkWorld (tape w) (attackCalls w ++ [mkAttackCall bonus targetAC])).

(** Number formatting of template literals.  An integer below [1e21] prints
    as its decimal digits. *)
Definition showZ (z : Z) : string := NilZero.string_of_int (Z.to_int z).

(** What the engine takes from its host besides randomness: the printing of
    non-integer numbers ([`${n}`] and [n.toFixed(1)]), and the closures that
    the world content attaches to dialogue options. *)
Record Host := mkHost {
  showQ : Q -> string;
  toFixed1 : Q -> string;
  callbacks : nat -> GameState -> GameState;
}.

(** *** JavaScript helpers *)

Definition Qgtb (a b : Q) : bool := negb (Qle_bool a b).

(** **** Doubles

    [n / d] divided by [2^e], as a fraction. *)
Definition scale2 (n d e : Z) : Z * Z :=
  if 0 <=? e then (n, d * 2 ^ e) else (n * 2 ^ (- e), d).

(** The integer nearest to [n / d], the even one of the two when [n / d] lies
    half-way. *)
Definition roundHalfEven (n d : Z) : Z :=
  let q := n / d in
  match 2 * (n mod d) ?= d with
  | Lt => q
  | Gt => q + 1
  | Eq => if Z.even q then q else q + 1
  end.

(** [floor (log2 (n / d))] for positive [n] and [d]. *)
Definition ilog2 (n d : Z) : Z :=
  let k := Z.log2 n - Z.log2 d in
  let '(sn, sd) := scale2 n d k in
  if sd <=? sn then k else k - 1.

(** The double nearest to [q], ties to even: 53 bits of mantissa at the
    exponent of [q], or the subnormal grid of [2^-1074] below [2^-1022].  The
    result is in lowest terms. *)
Definition fl (q : Q) : Q :=
  let n := Z.abs (Qnum q) in
  let d := Z.pos (Qden q) in
  if n =? 0 then 0%Q
  else
    let e := Z.max (ilog2 n d - 52) (-1074) in
    let '(sn, sd) := scale2 n d e in
    let m := Z.sgn (Qnum q) * roundHalfEven sn sd in
    Qred (if 0 <=? e then inject_Z (m * 2 ^ e) else m # Z.to_pos (2 ^ (- e))).

(** [a + b], [a - b] and [a * b] on doubles. *)
Definition fadd (a b : Q) : Q := fl (a + b).
Definition fsub (a b : Q) : Q := fl (a - b).
Definition fmul (a b : Q) : Q := fl (a * b).

Definition join (sep : string) (l : list string) : string :=
  String.concat sep l.

(** [a || b] on numbers: [0] is falsy. *)
Definition orElseZ (a b : Z) : Z := if a =? 0 then b else a.

Definition includesKey (key : string) (keys : list string) : bool :=
  existsb (String.eqb key) keys.

(** [!s] on an optional string: [undefined] and the empty string are falsy. *)
Definition truthyString (o : option string) : option string :=
  match o with
  | Some EmptyString => None
  | other => other
  end.

(** [obj[key]] on an object literal that has no own property [key]: the
    properties that [Object.prototype] hands down are found, all of them
    truthy.  The result is the text that the value becomes in a template
    literal or as a property key: a built-in function prints as V8 prints it,
    [__proto__] is [Object.prototype] itself. *)
Definition objectPrototypeText (key : string) : option string :=
  let native name := Some ("function " +:+ name +:+ "() { [native code] }") in
  if String.eqb key "constructor" then native "Object"
  else if String.eqb key "__proto__" then Some "[object Object]"
  else if includesKey key
            ["__defineGetter__"; "__defineSetter__"; "hasOwnProperty";
             "__lookupGetter__"; "__lookupSetter__"; "isPrototypeOf";
             "propertyIsEnumerable"; "toString"; "valueOf"; "toLocaleString"]
       then native key
  else None.

(** The [name] of such an inherited value, as a template literal prints it:
    the name of the built-in function; [Object.prototype] has none. *)
Definition objectPrototypeName (key : string) : option string :=
  match objectPrototypeText key with
  | None => None
  | Some _ =>
      Some (if String.eqb key "constructor" then "Object"
            else if String.eqb key "__proto__" then "undefined"
            else key)
  end.

(* ================================================================== *)
(** ** game/dice.ts *)
(* ================================================================== *)

(** [rollDice] of [dice.ts] (in the sources the module follows
    [classes.test.ts]).  [sides] is an integer here, so of the guard
    [!Number.isInteger(sides) || sides < 1] only the second half can fire;
    [rollDiceUndefined] is the call on [undefined], which the first half
    stops.  The product [Math.random() * sides] is rounded before the floor
    is taken. *)
Definition dieError : string :=
  "Die must have at least 1 side and be an integer".

Definition rollDice (sides : Z) : M Z :=
  if sides <? 1 then throw dieError
  else
    u <- Math_random ;;
    ret (Qfloor (fmul u (inject_Z sides)) + 1).

Definition rollDiceUndefined : M Z := throw dieError.

(* ================================================================== *)
(** ** game/classes.ts *)
(* ================================================================== *)

Definition lowerAscii (c : ascii) : ascii :=
  let n := nat_of_ascii c in
  if (Nat.leb 65 n && Nat.leb n 90)%bool then ascii_of_nat (n + 32) else c.

Fixpoint toLowerCase (s : string) : string :=
  match s with
  | EmptyString => EmptyString
  | String c r => String (lowerAscii c) (toLowerCase r)
  end.

(** The part of [CLASSES] that [awardExperience] reads: the hit die of the
    six own keys. *)
Definition classHitDie (key : string) : option Z :=
  if String.eqb key "fighter" then Some 10
  else if String.eqb key "wizard" then Some 6
  else if String.eqb key "rogue" then Some 8
  else if String.eqb key "cleric" then Some 8
  else if String.eqb key "ranger" then Some 10
  else if String.eqb key "paladin" then Some 10
  else None.

Definition getClassHitDie (className : string) : option Z :=
  classHitDie (toLowerCase className).

(* ================================================================== *)
(** ** game/character.ts *)
(* ================================================================== *)

Definition levelUpFuel (c : Character) : nat :=
  Z.to_nat (experience c / 1000 - level c + 1).

(** The [while] loop of [awardExperience]; each turn raises [level] by one,
    so [levelUpFuel] turns are enough (lemma [levelUpLoop_exit]). *)
Fixpoint levelUpLoop (fuel : nat) (hitDie : Z) (c : Character)
    (leveledUp : bool) : M (Character * bool) :=
  match fuel with
  | O => ret (c, leveledUp)
  | S fuel' =>
      if experience c >=? level c * 1000 then
        r <- rollDice hitDie ;;
        let hitPointIncrease := r + constitution (abilityModifiers c) in
        let actualIncrease := Z.max 1 hitPointIncrease in
        levelUpLoop fuel' hitDie
          (setLevelAndHitPoints c (level c + 1)
             (mkHitPoints (hp_current (hitPoints c) + actualIncrease)
                          (hp_max (hitPoints c) + actualIncrease)))
          true
      else ret (c, leveledUp)
  end.

Definition awardExperience (c : Character) (xp : Z) : M (Character * bool) :=
  let newExperience := experience c + xp in
  let xpForNextLevel := level c * 1000 in
  if newExperience >=? xpForNextLevel then
    match getClassHitDie (char_class c) with
    | None =>
        match objectPrototypeText (toLowerCase (char_class c)) with
        | Some _ =>
            (* an inherited property passes for a class; it has no [hitDie] *)
            _ <- rollDiceUndefined ;; ret (c, false)
        | None => throw ("Invalid class: " +:+ char_class c)
        end
    | Some hitDie =>
        let updatedCharacter := setExperience c newExperience in
        levelUpLoop (levelUpFuel updatedCharacter) hitDie updatedCharacter
          false
    end
  else ret (setExperience c newExperience, false).

Definition healCharacter (c : Character) (amount : Z) : Character :=
  let newHP := Z.min (hp_max (hitPoints c)) (hp_current (hitPoints c) + amount) in
  setHitPoints c (mkHitPoints newHP (hp_max (hitPoints c))).

Definition damageCharacter (c : Character) (amount : Z) : Character :=
  let newHP := Z.max 0 (hp_current (hitPoints c) - amount) in
  setHitPoints c (mkHitPoints newHP (hp_max (hitPoints c))).

Definition isAlive (c : Character) : bool := 0 <? hp_current (hitPoints c).

(* ================================================================== *)
(** ** Arrays *)
(* ================================================================== *)

(** [Array.prototype.findIndex]; [None] stands for [-1]. *)
Fixpoint findIndex {A} (f : A -> bool) (l : list A) : option nat :=
  match l with
  | [] => None
  | x :: r => if f x then Some O else S <$> findIndex f r
  end.

(** [arr[i]] for a number [i]: [undefined] outside the array. *)
Definition nthZ {A} (l : list A) (i : Z) : option A :=
  if i <? 0 then None else l !! Z.to_nat i.

(** [arr.includes(id)] on strings *)
Definition includes (l : list string) (id : string) : bool :=
  existsb (String.eqb id) l.

Definition lengthZ {A} (l : list A) : Z := Z.of_nat (length l).

(* ================================================================== *)
(** ** game/combat.ts *)
(* ================================================================== *)

Definition rollInitiative (dexterityModifier : Z) : M Z :=
  r <- rollDice 20 ;;
  ret (r + dexterityModifier).

(** [initiatives[id] = v] on an object whose own keys are kept in insertion
    order: an existing key keeps its place.  (An id is taken not to be
    __proto__, which such an assignment does not add as a key.) *)
Fixpoint setKey (id : string) (v : Z) (o : list (string * Z))
  : list (string * Z) :=
  match o with
  | [] => [(id, v)]
  | (k, x) :: r => if String.eqb k id then (k, v) :: r else (k, x) :: setKey id v r
  end.

Fixpoint rollEnemyInitiatives (es : list NPC) (initiatives : list (string * Z))
  : M (list (string * Z)) :=
  match es with
  | [] => ret initiatives
  | enemy :: r =>
      let dexMod := match stats enemy with
                    | Some st => (stat_armorClass st - 10) / 2
                    | None => 0
                    end in
      i <- rollInitiative dexMod ;;
      rollEnemyInitiatives r (setKey (npc_id enemy) i initiatives)
  end.

(** Whether a key is an array index, the decimal writing of an integer from
    0 to 2^32 - 2, and which. *)
Definition arrayIndex (k : string) : option Z :=
  match NilEmpty.uint_of_string k with
  | Some d =>
      let n := Z.of_uint d in
      if (String.eqb (showZ n) k && (n <=? 4294967294))%bool then Some n
      else None
  | None => None
  end.

Fixpoint insertByIndex (x : Z * (string * Z)) (sorted : list (Z * (string * Z)))
  : list (Z * (string * Z)) :=
  match sorted with
  | [] => [x]
  | y :: r => if fst x <? fst y then x :: sorted else y :: insertByIndex x r
  end.

(** [Object.entries(o)]: the keys that are array indices first, in ascending
    order, then the other keys in insertion order. *)
Definition objectEntries (o : list (string * Z)) : list (string * Z) :=
  map snd
    (foldr insertByIndex []
       (omap (fun e => match arrayIndex (fst e) with
                       | Some n => Some (n, e)
                       | None => None
                       end) o))
  ++ List.filter (fun e => match arrayIndex (fst e) with
                           | Some _ => false
                           | None => true
                           end) o.

(** [.sort(([, a], [, b]) => b - a)]: stable, highest first *)
Fixpoint insertByInitiative (x : string * Z) (sorted : list (string * Z))
  : list (string * Z) :=
  match sorted with
  | [] => [x]
  | y :: r => if snd x <? snd y then y :: insertByInitiative x r
              else x :: sorted
  end.

Definition sortByInitiative (l : list (string * Z)) : list (string * Z) :=
  foldr insertByInitiative [] l.

Definition determineTurnOrder (c : Character) (es : list NPC)
  : M (list string * list (string * Z)) :=
  p <- rollInitiative (dexterity (abilityModifiers c)) ;;
  initiatives <- rollEnemyInitiatives es (setKey (char_id c) p []) ;;
  ret (map fst (sortByInitiative (objectEntries initiatives)), initiatives).

Record AttackRoll := mkAttackRoll {
  ar_roll : Z;
  ar_total : Z;
  hits : bool;
  critical : bool;
  criticalFail : bool;
}.

Definition makeAttackRoll (bonus targetAC : Z) : M AttackRoll :=
  _ <- recordAttackCall bonus targetAC ;;
  roll <- rollDice 20 ;;
  let total := roll + bonus in
  ret (mkAttackRoll roll total
         ((total >=? targetAC) || (roll =? 20))%bool
         (roll =? 20)
         (roll =? 1)).

(** *** [damageString.match(/(\d+)d(\d+)([+-]\d+)?/)] *)

Definition isDigit (c : ascii) : bool :=
  let n := nat_of_ascii c in (Nat.leb 48 n && Nat.leb n 57)%bool.

(** the longest run of digits at the head, and what follows it *)
Fixpoint spanDigits (s : string) : string * string :=
  match s with
  | String c r =>
      if isDigit c then let '(d, rest) := spanDigits r in (String c d, rest)
      else (EmptyString, s)
  | EmptyString => (EmptyString, EmptyString)
  end.

(** [parseInt(digits, 10)] on a run of digits *)
Fixpoint parseDigitsFrom (acc : Z) (s : string) : Z :=
  match s with
  | EmptyString => acc
  | String c r => parseDigitsFrom (acc * 10 + (Z.of_nat (nat_of_ascii c) - 48)) r
  end.

Definition parseDigits (s : string) : Z := parseDigitsFrom 0 s.

(** The optional group [([+-]\d+)?] at the head of [s], as a number. *)
Definition matchModifier (s : string) : Z :=
  match s with
  | String c r =>
      if Ascii.eqb c "+" then
        let '(d, _) := spanDigits r in
        if String.eqb d EmptyString then 0 else parseDigits d
      else if Ascii.eqb c "-" then
        let '(d, _) := spanDigits r in
        if String.eqb d EmptyString then 0 else - parseDigits d
      else 0
  | EmptyString => 0
  end.

(** A match of the pattern that starts at the head of [s]:
    (numDice, dieSize, modifier). *)
Definition matchHere (s : string) : option (Z * Z * Z) :=
  let '(d1, r1) := spanDigits s in
  if String.eqb d1 EmptyString then None
  else match r1 with
       | String c r2 =>
           if Ascii.eqb c "d" then
             let '(d2, r3) := spanDigits r2 in
             if String.eqb d2 EmptyString then None
             else Some (parseDigits d1, parseDigits d2, matchModifier r3)
           else None
       | EmptyString => None
       end.

(** the leftmost match *)
Fixpoint matchDamage (s : string) : option (Z * Z * Z) :=
  match matchHere s with
  | Some m => Some m
  | None => match s with
            | String _ r => matchDamage r
            | EmptyString => None
            end
  end.

Fixpoint rollDamageLoop (n : nat) (sides total : Z) : M Z :=
  match n with
  | O => ret total
  | S n' => r <- rollDice sides ;; rollDamageLoop n' sides (total + r)
  end.

Definition rollDamage (damageString : string) : M Z :=
  match matchDamage damageString with
  | None => throw ("Invalid damage string: " +:+ damageString)
  | Some (dice, sides, mod_) =>
      total <- rollDamageLoop (Z.to_nat dice) sides mod_ ;;
      ret (Z.max 0 total)
  end.

Definition getAttackBonus (c : Character) (ranged : bool) : Z :=
  let proficiencyBonus := (level c - 1) / 4 + 2 in
  let abilityModifier :=
    if ranged then dexterity (abilityModifiers c)
    else strength (abilityModifiers c) in
  abilityModifier + proficiencyBonus.

(** The own keys of the [baseDamage] table of [getWeaponDamage]. *)
Definition baseDamageTable (ranged : bool) (cls : string) : option string :=
  if String.eqb cls "Fighter" then Some "1d8"
  else if String.eqb cls "Paladin" then Some "1d8"
  else if String.eqb cls "Ranger" then Some (if ranged then "1d8" else "1d6")
  else if String.eqb cls "Cleric" then Some "1d6"
  else if String.eqb cls "Rogue" then Some "1d6"
  else if String.eqb cls "Wizard" then Some "1d4"
  else None.

(** [baseDamage[character.class]]: an own key, or else a property inherited
    from [Object.prototype], which is truthy and so keeps the ['1d6'] default
    out. *)
Definition baseDamage (ranged : bool) (cls : string) : option string :=
  match baseDamageTable ranged cls with
  | Some b => Some b
  | None => objectPrototypeText cls
  end.

Definition getWeaponDamage (c : Character) (ranged : bool) : string :=
  let abilityModifier :=
    if ranged then dexterity (abilityModifiers c)
    else strength (abilityModifiers c) in
  let base := default "1d6" (baseDamage ranged (char_class c)) in
  let modifier :=
    if abilityModifier >=? 0 then "+" +:+ showZ abilityModifier
    else showZ abilityModifier in
  base +:+ modifier.

Record AttackResult := mkAttackResult {
  attackRoll : AttackRoll;
  damage : Z;
  message : string;
}.

Definition characterAttack (c : Character) (enemy : NPC) : M AttackResult :=
  match stats enemy with
  | None => throw "Enemy has no combat stats"
  | Some st =>
      let bonus := getAttackBonus c false in
      roll <- makeAttackRoll bonus (stat_armorClass st) ;;
      if critical roll then
        let weaponDamage := getWeaponDamage c false in
        d <- rollDamage weaponDamage ;;
        let damage := d * 2 in
        ret (mkAttackResult roll damage
               ("CRITICAL HIT! " +:+ char_name c +:+ " strikes " +:+
                npc_name enemy +:+ " for " +:+ showZ damage +:+ " damage!"))
      else if hits roll then
        let weaponDamage := getWeaponDamage c false in
        damage <- rollDamage weaponDamage ;;
        ret (mkAttackResult roll damage
               (char_name c +:+ " hits " +:+ npc_name enemy +:+ " for " +:+
                showZ damage +:+ " damage!"))
      else if criticalFail roll then
        ret (mkAttackResult roll 0
               ("CRITICAL MISS! " +:+ char_name c +:+
                "'s attack goes completely astray!"))
      else
        ret (mkAttackResult roll 0
               (char_name c +:+ " misses " +:+ npc_name enemy +:+
                ". (Rolled " +:+ showZ (ar_total roll) +:+ " vs AC " +:+
                showZ (stat_armorClass st) +:+ ")"))
  end.

Definition enemyAttack (enemy : NPC) (c : Character) : M AttackResult :=
  match stats enemy with
  | None => throw "Enemy has no combat stats"
  | Some st =>
      roll <- makeAttackRoll (attackBonus st) (armorClass c) ;;
      if critical roll then
        d <- rollDamage (stat_damage st) ;;
        let damage := d * 2 in
        ret (mkAttackResult roll damage
               ("CRITICAL HIT! " +:+ npc_name enemy +:+ " strikes " +:+
                char_name c +:+ " for " +:+ showZ damage +:+ " damage!"))
      else if hits roll then
        damage <- rollDamage (stat_damage st) ;;
        ret (mkAttackResult roll damage
               (npc_name enemy +:+ " hits " +:+ char_name c +:+ " for " +:+
                showZ damage +:+ " damage!"))
      else if criticalFail roll then
        ret (mkAttackResult roll 0
               (npc_name enemy +:+ "'s attack fails miserably!"))
      else
        ret (mkAttackResult roll 0
               (npc_name enemy +:+ " misses " +:+ char_name c +:+
                ". (Rolled " +:+ showZ (ar_total roll) +:+ " vs AC " +:+
                showZ (armorClass c) +:+ ")"))
  end.

Record FleeResult := mkFleeResult {
  flee_success : bool;
  flee_roll : Z;
  flee_message : string;
}.

Definition attemptFlee (c : Character) : M FleeResult :=
  let dc := 12 in
  r <- rollDice 20 ;;
  let roll := r + dexterity (abilityModifiers c) in
  let success := roll >=? dc in
  let message :=
    if success then
      char_name c +:+ " successfully flees from combat! (Rolled " +:+
      showZ roll +:+ " vs DC " +:+ showZ dc +:+ ")"
    else
      char_name c +:+ " fails to escape! (Rolled " +:+ showZ roll +:+
      " vs DC " +:+ showZ dc +:+ ")" in
  ret (mkFleeResult success roll message).

Definition recordMaxHPs (es : list NPC) : gmap string Z :=
  foldl (fun (m : gmap string Z) e =>
           match stats e with
           | Some st => <[npc_id e := stat_hitPoints st]> m
           | None => m
           end) ∅ es.

Definition initiateCombat (c : Character) (es : list NPC) : M CombatState :=
  order <- determineTurnOrder c es ;;
  ret (mkCombatState true es (recordMaxHPs es) (lengthZ es) (fst order) 0 1).

Definition getCurrentCombatant (cb : CombatState) : option string :=
  nthZ (turnOrder cb) (currentTurnIndex cb).

Definition isPlayerTurn (cb : CombatState) (playerId : string) : bool :=
  match getCurrentCombatant cb with
  | Some id => String.eqb id playerId
  | None => false
  end.

Definition nextTurn (cb : CombatState) : CombatState :=
  let nextIndex := currentTurnIndex cb + 1 in
  if nextIndex >=? lengthZ (turnOrder cb) then
    mkCombatState (active cb) (enemies cb) (enemyMaxHPs cb)
      (totalEnemyCount cb) (turnOrder cb) 0 (round cb + 1)
  else
    mkCombatState (active cb) (enemies cb) (enemyMaxHPs cb)
      (totalEnemyCount cb) (turnOrder cb) nextIndex (round cb).

Definition setNpcHitPoints (e : NPC) (st : Stats) (hp : Z) : NPC :=
  mkNPC (npc_id e) (npc_name e) (npc_description e) (dialogue e) (hostile e)
    (Some (mkStats hp (stat_armorClass st) (attackBonus st) (stat_damage st)))
    (questGiver e) (shop e).

(** [!e.stats || e.stats.hitPoints > 0] *)
Definition stillStanding (e : NPC) : bool :=
  match stats e with
  | None => true
  | Some st => 0 <? stat_hitPoints st
  end.

(** [!e.stats || e.stats.hitPoints <= 0] *)
Definition outOfTheFight (e : NPC) : bool :=
  match stats e with
  | None => true
  | Some st => stat_hitPoints st <=? 0
  end.

Record EnemyUpdate := mkEnemyUpdate {
  upd_combat : CombatState;
  enemyDefeated : bool;
  defeatedEnemy : option NPC;
}.

Definition updateEnemyHP (cb : CombatState) (enemyId : string) (dmg : Z)
  : EnemyUpdate :=
  let updatedEnemies :=
    map (fun enemy =>
           match stats enemy with
           | Some st =>
               if String.eqb (npc_id enemy) enemyId then
                 let newHP := Z.max 0 (stat_hitPoints st - dmg) in
                 setNpcHitPoints enemy st newHP
               else enemy
           | None => enemy
           end) (enemies cb) in
  let defeated :=
    List.find (fun e =>
                 (String.eqb (npc_id e) enemyId &&
                  match stats e with
                  | Some st => stat_hitPoints st <=? 0
                  | None => false
                  end)%bool) updatedEnemies in
  let remainingEnemies := List.filter stillStanding updatedEnemies in
  let order :=
    match defeated with
    | Some _ => List.filter (fun id => negb (String.eqb id enemyId)) (turnOrder cb)
    | None => turnOrder cb
    end in
  mkEnemyUpdate
    (mkCombatState (active cb) remainingEnemies (enemyMaxHPs cb)
       (totalEnemyCount cb) order (currentTurnIndex cb) (round cb))
    (bool_decide (is_Some defeated))
    defeated.

(** Returns [(shouldEnd, victory)]. *)
Definition shouldEndCombat (cb : CombatState) : bool * bool :=
  let allEnemiesDefeated := forallb outOfTheFight (enemies cb) in
  (allEnemiesDefeated, allEnemiesDefeated).

Fixpoint goldLoop (n : nat) (goldGained : Z) : M Z :=
  match n with
  | O => ret goldGained
  | S n' =>
      u <- Math_random ;;
      goldLoop n' (goldGained + (Qfloor (fmul u (inject_Z 41)) + 10))
  end.

(** Returns [(experienceGained, goldGained)]. *)
Definition endCombat (cb : CombatState) : M (Z * Z) :=
  let count := orElseZ (totalEnemyCount cb) (lengthZ (enemies cb)) in
  let experienceGained := count * 100 in
  goldGained <- goldLoop (Z.to_nat count) 0 ;;
  ret (experienceGained, goldGained).

(* ================================================================== *)
(** ** world/locations.ts, world/npcs.ts *)
(* ================================================================== *)

Fixpoint lookupKey (o : list (string * string)) (k : string) : option string :=
  match o with
  | [] => None
  | (k', v) :: r => if String.eqb k' k then Some v else lookupKey r k
  end.

(** [location.connections[direction]]: an exit, or else a property that the
    object inherits (used afterwards as a key of [state.locations]). *)
Definition getConnectedLocation (l : Location) (direction : string)
  : option string :=
  match lookupKey (connections l) direction with
  | Some target => Some target
  | None => objectPrototypeText direction
  end.

Definition getAvailableDirections (l : Location) : list string :=
  map fst (connections l).

Definition getDialogueNode (npc : NPC) (nodeId : string) : option DialogueNode :=
  List.find (fun node => String.eqb (node_id node) nodeId) (dialogue npc).

Definition getStartingDialogue (npc : NPC) : option DialogueNode :=
  List.find (fun node =>
               (String.eqb (node_id node) "greeting" ||
                String.eqb (node_id node) "encounter" ||
                String.eqb (node_id node) "combat")%bool) (dialogue npc).

Definition isHostile (npc : NPC) : bool := hostile npc.

(* ================================================================== *)
(** ** engine/game-engine.ts *)
(* ================================================================== *)

Definition REST_LOCATIONS : list string := ["tavern-rooms"; "forest-clearing"].

Definition dquote : string := String (ascii_of_nat 34) EmptyString.
Definition newline : string := String (ascii_of_nat 10) EmptyString.

(** The combat value that every exit from a fight installs. *)
Definition noCombat : CombatState := mkCombatState false [] ∅ 0 [] 0 0.

(** Reading a property of [undefined]. *)
Definition typeError {A} : M A := throw "TypeError".

Definition addLog (s : GameState) (msg : string) (type : LogType) : GameState :=
  setGameLog s (gameLog s ++ [mkLogEntry msg type]).

(** [options.map((opt, i) => `  ${i + 1}. ${opt.text}`).join('\n')] *)
Definition optionTexts (opts : list DialogueOption) : string :=
  join newline
    (imap (fun i opt => "  " +:+ showZ (Z.of_nat i + 1) +:+ ". " +:+ opt_text opt)
       opts).

Definition itemNames (l : list Item) : string := join ", " (map item_name l).
Definition npcNames (l : list NPC) : string := join ", " (map npc_name l).

(** The [while] loop of [runEnemyTurns]; one unit of fuel per turn of the
    loop. *)
Fixpoint runEnemyTurns (fuel : nat) (s : GameState) : M GameState :=
  if (active (combat s) &&
      negb (isPlayerTurn (combat s) (char_id (character s))))%bool then
    match fuel with
    | O => outOfFuel
    | S fuel' =>
        let currentId := getCurrentCombatant (combat s) in
        let enemy :=
          List.find (fun e => match currentId with
                              | Some id => String.eqb (npc_id e) id
                              | None => false
                              end) (enemies (combat s)) in
        match enemy with
        | None => runEnemyTurns fuel' (setCombat s (nextTurn (combat s)))
        | Some e =>
            match stats e with
            | None => runEnemyTurns fuel' (setCombat s (nextTurn (combat s)))
            | Some st =>
                if stat_hitPoints st <=? 0 then
                  runEnemyTurns fuel' (setCombat s (nextTurn (combat s)))
                else
                  result <- enemyAttack e (character s) ;;
                  let s1 := addLog s (message result) Combat in
                  if 0 <? damage result then
                    let damagedCharacter :=
                      damageCharacter (character s1) (damage result) in
                    let s2 := setCharacter s1 damagedCharacter in
                    if negb (isAlive damagedCharacter) then
                      let s3 := addLog s2
                                  (char_name (character s2) +:+ " has fallen!")
                                  Error in
                      ret (setCombat s3 noCombat)
                    else
                      runEnemyTurns fuel' (setCombat s2 (nextTurn (combat s2)))
                  else
                    runEnemyTurns fuel' (setCombat s1 (nextTurn (combat s1)))
            end
        end
    end
  else ret s.

Definition pruneDefeated (defeatedIds : list string) (loc : Location)
  : Location :=
  let filteredNpcs :=
    List.filter (fun id => negb (includes defeatedIds id)) (loc_npcs loc) in
  if negb (Nat.eqb (length filteredNpcs) (length (loc_npcs loc))) then
    mkLocation (loc_id loc) (loc_name loc) (loc_description loc)
      (connections loc) filteredNpcs (loc_items loc) (visited loc)
  else loc.

Definition handleCombatVictory (s : GameState) : M GameState :=
  rewards <- endCombat (combat s) ;;
  let '(experienceGained, goldGained) := rewards in
  awarded <- awardExperience (character s) experienceGained ;;
  let '(xpCharacter, leveledUp) := awarded in
  let updatedCharacter := setGold xpCharacter (gold xpCharacter + goldGained) in
  let s1 := setCombat (setCharacter s updatedCharacter) noCombat in
  let s2 := addLog s1
              ("Victory! You gained " +:+ showZ experienceGained +:+
               " XP and " +:+ showZ goldGained +:+ " gold.") Success in
  let s3 :=
    if leveledUp then
      addLog s2
        ("LEVEL UP! You are now level " +:+ showZ (level updatedCharacter) +:+
         "! Max HP: " +:+ showZ (hp_max (hitPoints updatedCharacter)) +:+ ".")
        Success
    else s2 in
  (* Remove defeated NPCs from their locations *)
  let defeatedIds := map npc_id (enemies (combat s)) in
  let updatedLocations := pruneDefeated defeatedIds <$> locations s3 in
  ret (setLocations s3 updatedLocations).

Definition handleMove (fuel : nat) (s : GameState) (direction : string)
  : M GameState :=
  if active (combat s) then
    ret (addLog s "You cannot move while in combat! Try to flee instead." Warning)
  else
    (* End any active dialogue when moving *)
    let s := match activeDialogue s with
             | Some _ => setActiveDialogue s None
             | None => s
             end in
    match locations s !! currentLocationId s with
    | None => typeError
    | Some currentLocation =>
        match truthyString (getConnectedLocation currentLocation direction) with
        | None =>
            let available := getAvailableDirections currentLocation in
            ret (addLog s
                   ("You cannot go " +:+ direction +:+
                    ". Available directions: " +:+ join ", " available +:+ ".")
                   Warning)
        | Some targetLocationId =>
            match locations s !! targetLocationId with
            | None => ret (addLog s "That path leads nowhere." Error)
            | Some targetLocation =>
                let updatedLocations :=
                  <[targetLocationId :=
                      mkLocation (loc_id targetLocation) (loc_name targetLocation)
                        (loc_description targetLocation)
                        (connections targetLocation) (loc_npcs targetLocation)
                        (loc_items targetLocation) true]> (locations s) in
                let s1 :=
                  mkGameState (character s) targetLocationId updatedLocations
                    (npcs s) (quests s) (combat s) (activeDialogue s)
                    (gameLog s) in
                let s2 := addLog s1 (loc_description targetLocation) Info in
                let s3 :=
                  if (0 <? length (loc_items targetLocation))%nat then
                    addLog s2
                      ("You see on the ground: " +:+
                       itemNames (loc_items targetLocation) +:+ ".") Info
                  else s2 in
                let hostileNpcIds :=
                  List.filter
                    (fun npcId =>
                       match npcs s3 !! npcId with
                       | Some npc =>
                           (isHostile npc &&
                            match stats npc with
                            | Some st => 0 <? stat_hitPoints st
                            | None => false
                            end)%bool
                       | None => false
                       end) (loc_npcs targetLocation) in
                if (0 <? length hostileNpcIds)%nat then
                  let hostileNpcs := omap (fun id => npcs s3 !! id) hostileNpcIds in
                  let s4 := addLog s3 (npcNames hostileNpcs +:+ " attacks you!")
                              Combat in
                  combatState <- initiateCombat (character s4) hostileNpcs ;;
                  runEnemyTurns fuel (setCombat s4 combatState)
                else
                  let friendlyNpcs :=
                    List.filter (fun n => negb (hostile n))
                      (omap (fun id => npcs s3 !! id) (loc_npcs targetLocation)) in
                  if (0 <? length friendlyNpcs)%nat then
                    ret (addLog s3 ("You see: " +:+ npcNames friendlyNpcs +:+ ".")
                           Info)
                  else ret s3
            end
        end
    end.

Definition handleTalk (s : GameState) (npcId : string) : M GameState :=
  if active (combat s) then
    ret (addLog s "You cannot talk while in combat!" Warning)
  else
    match npcs s !! npcId with
    | None =>
        match objectPrototypeName npcId with
        | None => ret (addLog s "That person does not exist." Error)
        | Some name =>
            (* [state.npcs[npcId]] is an inherited property: it passes for an
               NPC, but has no dialogue to search *)
            match locations s !! currentLocationId s with
            | None => typeError
            | Some location =>
                if negb (includes (loc_npcs location) npcId) then
                  ret (addLog s (name +:+ " is not here.") Warning)
                else typeError
            end
        end
    | Some npc =>
        match locations s !! currentLocationId s with
        | None => typeError
        | Some location =>
            if negb (includes (loc_npcs location) npcId) then
              ret (addLog s (npc_name npc +:+ " is not here.") Warning)
            else if isHostile npc then
              ret (addLog s
                     (npc_name npc +:+ " is hostile and won't talk to you!")
                     Warning)
            else
              match getStartingDialogue npc with
              | None => ret (addLog s (npc_name npc +:+ " has nothing to say.") Info)
              | Some startDialogue =>
                  let s1 :=
                    addLog s
                      (npc_name npc +:+ ": " +:+ dquote +:+
                       node_text startDialogue +:+ dquote) Dialogue in
                  if (0 <? length (node_options startDialogue))%nat then
                    let s2 := addLog s1 (optionTexts (node_options startDialogue))
                                Dialogue in
                    (* Enter dialogue mode *)
                    ret (setActiveDialogue s2
                           (Some (mkActiveDialogue npcId (node_id startDialogue))))
                  else ret s1
              end
        end
    end.

(** [ability.slice(0, 3).toUpperCase()] *)
Definition abilityLabel (a : Ability) : string :=
  match a with
  | Strength => "STR" | Dexterity => "DEX" | Constitution => "CON"
  | Intelligence => "INT" | Wisdom => "WIS" | Charisma => "CHA"
  end.

(** The tail of [handleDialogueSelect], from "Run option's action callback". *)
Definition followOption (h : Host) (npcId : string) (npc : NPC)
    (option : DialogueOption) (s : GameState) : GameState :=
  let s1 := match opt_action option with
            | Some f => callbacks h f s
            | None => s
            end in
  let ended := setActiveDialogue s1 None in
  match truthyString (nextNodeId option) with
  | Some next =>
      match getDialogueNode npc next with
      | Some nextNode =>
          let s2 := addLog s1
                      (npc_name npc +:+ ": " +:+ dquote +:+ node_text nextNode +:+
                       dquote) Dialogue in
          if (0 <? length (node_options nextNode))%nat then
            let s3 := addLog s2 (optionTexts (node_options nextNode)) Dialogue in
            setActiveDialogue s3
              (Some (mkActiveDialogue npcId (node_id nextNode)))
          else setActiveDialogue s2 None
      | None => ended
      end
  | None => ended
  end.

Definition handleDialogueSelect (h : Host) (s : GameState) (optionIndex : Z)
  : M GameState :=
  match activeDialogue s with
  | None => ret (addLog s "You are not in a conversation." Warning)
  | Some ad =>
      let npcId := ad_npcId ad in
      match npcs s !! npcId with
      | None => ret (setActiveDialogue s None)
      | Some npc =>
          if optionIndex =? -1 then
            let s1 := addLog s
                        ("You end the conversation with " +:+ npc_name npc +:+ ".")
                        Info in
            ret (setActiveDialogue s1 None)
          else
            match getDialogueNode npc (currentNodeId ad) with
            | None =>
                ret (setActiveDialogue
                       (addLog s (npc_name npc +:+ " has nothing more to say.")
                          Info) None)
            | Some currentNode =>
                let n := lengthZ (node_options currentNode) in
                if ((optionIndex <? 0) || (optionIndex >=? n))%bool then
                  ret (addLog s
                         ("Choose a number between 1 and " +:+ showZ n +:+
                          ", or type " +:+ dquote +:+ "leave" +:+ dquote +:+
                          " to end the conversation.") Warning)
                else
                  match nthZ (node_options currentNode) optionIndex with
                  | None => typeError
                  | Some option =>
                      let s1 := addLog s
                                  ("You: " +:+ dquote +:+ opt_text option +:+
                                   dquote) Dialogue in
                      match requiresCheck option with
                      | Some rc =>
                          let ability := rc_ability rc in
                          let dc := rc_dc rc in
                          let modifier :=
                            getAbility ability (abilityModifiers (character s1)) in
                          roll <- rollDice 20 ;;
                          let total := roll + modifier in
                          let success := total >=? dc in
                          let s2 :=
                            addLog s1
                              ("[" +:+ abilityLabel ability +:+ " check: rolled " +:+
                               showZ roll +:+ " + " +:+ showZ modifier +:+ " = " +:+
                               showZ total +:+ " vs DC " +:+ showZ dc +:+ " — " +:+
                               (if success then "Success!" else "Failed.") +:+ "]")
                              (if success then Success else Warning) in
                          if negb success then
                            ret (addLog s2 (npc_name npc +:+ " is not convinced.")
                                   Dialogue)
                          else ret (followOption h npcId npc option s2)
                      | None => ret (followOption h npcId npc option s1)
                      end
                  end
            end
      end
  end.

Definition setLocationItems (loc : Location) (items : list Item) : Location :=
  mkLocation (loc_id loc) (loc_name loc) (loc_description loc) (connections loc)
    (loc_npcs loc) items (visited loc).

Definition setShopItems (npc : NPC) (sh : ShopInventory) (items : list Item)
  : NPC :=
  mkNPC (npc_id npc) (npc_name npc) (npc_description npc) (dialogue npc)
    (hostile npc) (stats npc) (questGiver npc)
    (Some (mkShopInventory items (buyMultiplier sh) (sellMultiplier sh))).

Definition hasId (itemId : string) (i : Item) : bool :=
  String.eqb (item_id i) itemId.

Definition handleTake (h : Host) (s : GameState) (itemId : string)
  : M GameState :=
  if active (combat s) then
    ret (addLog s "You cannot pick up items while in combat!" Warning)
  else
    match locations s !! currentLocationId s with
    | None => typeError
    | Some location =>
        match findIndex (hasId itemId) (loc_items location) with
        | None => ret (addLog s "That item is not here." Warning)
        | Some itemIndex =>
            match loc_items location !! itemIndex with
            | None => typeError
            | Some item =>
                let inv := inventory (character s) in
                let newWeight := fadd (currentWeight inv) (item_weight item) in
                if Qgtb newWeight (maxWeight inv) then
                  ret (addLog s
                         ("You cannot carry " +:+ dquote +:+ item_name item +:+
                          dquote +:+
                          ". It would exceed your carrying capacity (" +:+
                          showQ h (currentWeight inv) +:+ "/" +:+
                          showQ h (maxWeight inv) +:+ " lbs).") Warning)
                else
                  (* Remove item from location *)
                  let updatedLocationItems := delete itemIndex (loc_items location) in
                  let updatedLocations :=
                    <[currentLocationId s :=
                        setLocationItems location updatedLocationItems]>
                      (locations s) in
                  (* Add item to inventory *)
                  let updatedCharacter :=
                    setInventory (character s)
                      (mkInventory (inv_items inv ++ [item]) (maxWeight inv)
                         newWeight) in
                  ret (addLog
                         (setLocations (setCharacter s updatedCharacter)
                            updatedLocations)
                         ("You pick up " +:+ item_name item +:+ ".") Success)
            end
        end
    end.

Definition handleDrop (s : GameState) (itemId : string) : M GameState :=
  if active (combat s) then
    ret (addLog s "You cannot drop items while in combat!" Warning)
  else
    let inv := inventory (character s) in
    match findIndex (hasId itemId) (inv_items inv) with
    | None => ret (addLog s "You don't have that item." Warning)
    | Some itemIndex =>
        match inv_items inv !! itemIndex with
        | None => typeError
        | Some item =>
            (* Remove from inventory *)
            let updatedItems := delete itemIndex (inv_items inv) in
            let updatedCharacter :=
              setInventory (character s)
                (mkInventory updatedItems (maxWeight inv)
                   (fsub (currentWeight inv) (item_weight item))) in
            (* Add to location *)
            match locations s !! currentLocationId s with
            | None => typeError
            | Some location =>
                let updatedLocations :=
                  <[currentLocationId s :=
                      setLocationItems location (loc_items location ++ [item])]>
                    (locations s) in
                ret (addLog
                       (setLocations (setCharacter s updatedCharacter)
                          updatedLocations)
                       ("You drop " +:+ item_name item +:+ ".") Info)
            end
        end
    end.

Definition isPotion (t : ItemType) : bool :=
  match t with Potion => true | _ => false end.

Definition handleUse (s : GameState) (itemId : string) : M GameState :=
  match findIndex (hasId itemId) (inv_items (inventory (character s))) with
  | None => ret (addLog s "You don't have that item." Warning)
  | Some itemIndex =>
      match inv_items (inventory (character s)) !! itemIndex with
      | None => typeError
      | Some item =>
          if negb (item_usable item) then
            ret (addLog s ("You can't use " +:+ item_name item +:+ ".") Warning)
          else if isPotion (item_type item) then
            (* 2d4+2 *)
            r1 <- rollDice 4 ;;
            r2 <- rollDice 4 ;;
            let healAmount := r1 + r2 + 2 in
            let healedCharacter := healCharacter (character s) healAmount in
            (* Remove used potion from inventory *)
            let hinv := inventory healedCharacter in
            let updatedItems := delete itemIndex (inv_items hinv) in
            let updatedCharacter :=
              setInventory healedCharacter
                (mkInventory updatedItems (maxWeight hinv)
                   (fsub (currentWeight hinv) (item_weight item))) in
            ret (addLog (setCharacter s updatedCharacter)
                   ("You use " +:+ item_name item +:+ " and recover " +:+
                    showZ healAmount +:+ " hit points. (HP: " +:+
                    showZ (hp_current (hitPoints updatedCharacter)) +:+ "/" +:+
                    showZ (hp_max (hitPoints updatedCharacter)) +:+ ")") Success)
          else
            (* Generic usable item *)
            ret (addLog s
                   ("You use " +:+ item_name item +:+ ". Nothing special happens.")
                   Info)
      end
  end.

Definition processPlayerAttack (fuel : nat) (s : GameState) (targetId : string)
  : M GameState :=
  match List.find (fun e => String.eqb (npc_id e) targetId) (enemies (combat s)) with
  | None => ret (addLog s "That enemy is not in this fight." Warning)
  | Some enemy =>
      result <- characterAttack (character s) enemy ;;
      let s1 := addLog s (message result) Combat in
      let s2 :=
        if 0 <? damage result then
          let upd := updateEnemyHP (combat s1) targetId (damage result) in
          let s' := setCombat s1 (upd_combat upd) in
          match enemyDefeated upd, defeatedEnemy upd with
          | true, Some defeated =>
              addLog s' (npc_name defeated +:+ " has been defeated!") Success
          | _, _ => s'
          end
        else s1 in
      (* Check if combat should end *)
      let '(shouldEnd, victory) := shouldEndCombat (combat s2) in
      if (shouldEnd && victory)%bool then handleCombatVictory s2
      else
        (* Advance turn and run enemy turns *)
        runEnemyTurns fuel (setCombat s2 (nextTurn (combat s2)))
  end.

Definition handleAttack (fuel : nat) (s : GameState) (targetId : string)
  : M GameState :=
  if negb (active (combat s)) then
    (* If not in combat, initiate combat with the target NPC *)
    match npcs s !! targetId with
    | None =>
        match objectPrototypeName targetId with
        | None => ret (addLog s "That target does not exist." Error)
        | Some name =>
            (* an inherited property passes for an NPC without stats *)
            ret (addLog s ("You cannot attack " +:+ name +:+ ".") Warning)
        end
    | Some npc =>
        match stats npc with
        | None => ret (addLog s ("You cannot attack " +:+ npc_name npc +:+ ".")
                         Warning)
        | Some _ =>
            let s1 := addLog s ("You attack " +:+ npc_name npc +:+ "!") Combat in
            combatState <- initiateCombat (character s1) [npc] ;;
            (* Process the player's attack *)
            processPlayerAttack fuel (setCombat s1 combatState) targetId
        end
    end
  else if negb (isPlayerTurn (combat s) (char_id (character s))) then
    ret (addLog s "It's not your turn!" Warning)
  else processPlayerAttack fuel s targetId.

Definition handleDefend (fuel : nat) (s : GameState) : M GameState :=
  if negb (active (combat s)) then
    ret (addLog s "You are not in combat." Warning)
  else if negb (isPlayerTurn (combat s) (char_id (character s))) then
    ret (addLog s "It's not your turn!" Warning)
  else
    let s1 := addLog s
                (char_name (character s) +:+
                 " takes a defensive stance. (+2 AC until next turn)") Combat in
    let boostedCharacter :=
      setArmorClass (character s1) (armorClass (character s1) + 2) in
    let s2 := setCharacter s1 boostedCharacter in
    let s3 := setCombat s2 (nextTurn (combat s2)) in
    s4 <- runEnemyTurns fuel s3 ;;
    (* Remove the AC boost after enemy turns *)
    let restoredCharacter :=
      setArmorClass (character s4) (armorClass (character s4) - 2) in
    ret (setCharacter s4 restoredCharacter).

Definition handleFlee (fuel : nat) (s : GameState) : M GameState :=
  if negb (active (combat s)) then
    ret (addLog s "You are not in combat. There is nothing to flee from." Warning)
  else
    result <- attemptFlee (character s) ;;
    let s1 := addLog s (flee_message result) Combat in
    if flee_success result then
      ret (addLog (setCombat s1 noCombat) "You escaped from combat!" Success)
    else
      (* Failed to flee - enemies get their turns *)
      runEnemyTurns fuel (setCombat s1 (nextTurn (combat s1))).

(** [npc?.shop] *)
Definition shopOf (s : GameState) (npcId : string) : option (NPC * ShopInventory) :=
  match npcs s !! npcId with
  | Some npc => match shop npc with
                | Some sh => Some (npc, sh)
                | None => None
                end
  | None => None
  end.

Definition handleBuy (s : GameState) (itemId npcId : string) : M GameState :=
  if active (combat s) then
    ret (addLog s "You cannot buy items while in combat!" Warning)
  else
    match shopOf s npcId with
    | None => ret (addLog s "This merchant has no shop." Warning)
    | Some (npc, sh) =>
        match findIndex (hasId itemId) (shop_items sh) with
        | None => ret (addLog s "That item is not for sale." Warning)
        | Some itemIndex =>
            match shop_items sh !! itemIndex with
            | None => typeError
            | Some item =>
                let price :=
                  Qceiling (fmul (inject_Z (item_value item)) (buyMultiplier sh)) in
                if gold (character s) <? price then
                  ret (addLog s
                         ("You cannot afford " +:+ item_name item +:+
                          ". It costs " +:+ showZ price +:+
                          " gold but you only have " +:+
                          showZ (gold (character s)) +:+ " gold.") Warning)
                else
                  (* Weight check *)
                  let inv := inventory (character s) in
                  let newWeight := fadd (currentWeight inv) (item_weight item) in
                  if Qgtb newWeight (maxWeight inv) then
                    ret (addLog s
                           ("You cannot carry " +:+ item_name item +:+
                            ". Too heavy.") Warning)
                  else
                    (* Remove item from shop *)
                    let updatedShopItems := delete itemIndex (shop_items sh) in
                    let updatedNpcs :=
                      <[npcId := setShopItems npc sh updatedShopItems]> (npcs s) in
                    (* Add item to inventory and deduct gold *)
                    let updatedCharacter :=
                      setInventory
                        (setGold (character s) (gold (character s) - price))
                        (mkInventory (inv_items inv ++ [item]) (maxWeight inv)
                           newWeight) in
                    ret (addLog
                           (setNpcs (setCharacter s updatedCharacter) updatedNpcs)
                           ("You buy " +:+ item_name item +:+ " for " +:+
                            showZ price +:+ " gold. (" +:+
                            showZ (gold updatedCharacter) +:+ " gold remaining)")
                           Success)
            end
        end
    end.

Definition handleSell (s : GameState) (itemId npcId : string) : M GameState :=
  if active (combat s) then
    ret (addLog s "You cannot sell items while in combat!" Warning)
  else
    match shopOf s npcId with
    | None => ret (addLog s "This person doesn't buy items." Warning)
    | Some (npc, sh) =>
        let inv := inventory (character s) in
        match findIndex (hasId itemId) (inv_items inv) with
        | None => ret (addLog s "You don't have that item." Warning)
        | Some itemIndex =>
            match inv_items inv !! itemIndex with
            | None => typeError
            | Some item =>
                let price :=
                  Qfloor (fmul (inject_Z (item_value item)) (sellMultiplier sh)) in
                (* Remove from inventory *)
                let updatedInventoryItems := delete itemIndex (inv_items inv) in
                (* Add to shop and add gold *)
                let updatedNpcs :=
                  <[npcId := setShopItems npc sh (shop_items sh ++ [item])]>
                    (npcs s) in
                let updatedCharacter :=
                  setInventory
                    (setGold (character s) (gold (character s) + price))
                    (mkInventory updatedInventoryItems (maxWeight inv)
                       (fsub (currentWeight inv) (item_weight item))) in
                ret (addLog
                       (setNpcs (setCharacter s updatedCharacter) updatedNpcs)
                       ("You sell " +:+ item_name item +:+ " for " +:+
                        showZ price +:+ " gold. (" +:+
                        showZ (gold updatedCharacter) +:+ " gold total)") Success)
            end
        end
    end.

Definition handleRest (s : GameState) : M GameState :=
  if active (combat s) then
    ret (addLog s "You cannot rest while in combat!" Warning)
  else if negb (includes REST_LOCATIONS (currentLocationId s)) then
    ret (addLog s
           "This is not a safe place to rest. Try the tavern rooms or the forest clearing."
           Warning)
  else if hp_current (hitPoints (character s)) >=? hp_max (hitPoints (character s))
  then ret (addLog s "You are already at full health." Info)
  else
    (* Heal to full HP *)
    let healedCharacter :=
      healCharacter (character s) (hp_max (hitPoints (character s))) in
    ret (addLog (setCharacter s healedCharacter)
           ("You rest and recover your strength. HP restored to " +:+
            showZ (hp_current (hitPoints healedCharacter)) +:+ "/" +:+
            showZ (hp_max (hitPoints healedCharacter)) +:+ ".") Success).

Definition handleLook (s : GameState) : M GameState :=
  match locations s !! currentLocationId s with
  | None => ret (addLog s "You see nothing." Info)
  | Some location =>
      let s1 := addLog s ("--- " +:+ loc_name location +:+ " ---") Info in
      let s2 := addLog s1 (loc_description location) Info in
      let directions := getAvailableDirections location in
      let s3 :=
        if (0 <? length directions)%nat then
          addLog s2 ("Exits: " +:+ join ", " directions +:+ ".") Info
        else s2 in
      let s4 :=
        if (0 <? length (loc_items location))%nat then
          addLog s3 ("On the ground: " +:+ itemNames (loc_items location) +:+ ".")
            Info
        else s3 in
      let npcsHere := omap (fun id => npcs s !! id) (loc_npcs location) in
      if (0 <? length npcsHere)%nat then
        ret (addLog s4 ("Present: " +:+ npcNames npcsHere +:+ ".") Info)
      else ret s4
  end.

Definition handleInventory (h : Host) (s : GameState) : M GameState :=
  let inv := inventory (character s) in
  if Nat.eqb (length (inv_items inv)) 0 then
    ret (addLog s "Your inventory is empty." Info)
  else
    let s1 := addLog s
                ("--- Inventory (" +:+ toFixed1 h (currentWeight inv) +:+ "/" +:+
                 showQ h (maxWeight inv) +:+ " lbs) ---") Info in
    let s2 :=
      foldl (fun acc item =>
               let usable := if item_usable item then " [usable]" else EmptyString in
               addLog acc
                 ("  " +:+ item_name item +:+ " (" +:+
                  itemTypeName (item_type item) +:+ ", " +:+
                  showQ h (item_weight item) +:+ " lbs)" +:+ usable) Info)
        s1 (inv_items inv) in
    ret (addLog s2 ("Gold: " +:+ showZ (gold (character s))) Info).

Definition signed (m : Z) : string :=
  (if m >=? 0 then "+" else EmptyString) +:+ showZ m.

Definition handleStats (s : GameState) : M GameState :=
  let c := character s in
  let sc := abilityScores c in
  let md := abilityModifiers c in
  let s1 := addLog s ("--- " +:+ char_name c +:+ " ---") Info in
  let s2 := addLog s1
              (char_race c +:+ " " +:+ char_class c +:+ " | Level " +:+
               showZ (level c) +:+ " (" +:+ showZ (experience c) +:+ " XP)") Info in
  let s3 := addLog s2
              ("HP: " +:+ showZ (hp_current (hitPoints c)) +:+ "/" +:+
               showZ (hp_max (hitPoints c)) +:+ " | AC: " +:+
               showZ (armorClass c) +:+ " | Gold: " +:+ showZ (gold c)) Info in
  let s4 := addLog s3
              ("STR " +:+ showZ (strength sc) +:+ " (" +:+ signed (strength md) +:+
               ") | DEX " +:+ showZ (dexterity sc) +:+ " (" +:+
               signed (dexterity md) +:+ ") | CON " +:+
               showZ (constitution sc) +:+ " (" +:+ signed (constitution md) +:+
               ")") Info in
  ret (addLog s4
         ("INT " +:+ showZ (intelligence sc) +:+ " (" +:+
          signed (intelligence md) +:+ ") | WIS " +:+ showZ (wisdom sc) +:+
          " (" +:+ signed (wisdom md) +:+ ") | CHA " +:+ showZ (charisma sc) +:+
          " (" +:+ signed (charisma md) +:+ ")") Info).

Definition isLoadGame (a : GameAction) : bool :=
  match a with LOAD_GAME _ => true | _ => false end.

Definition processAction (h : Host) (fuel : nat) (s : GameState)
    (a : GameAction) : M GameState :=
  (* Character dead check *)
  if (negb (isAlive (character s)) && negb (isLoadGame a))%bool then
    ret (addLog s "You are dead. Your adventure is over." Error)
  else
    match a with
    | MOVE direction => handleMove fuel s direction
    | TALK npcId => handleTalk s npcId
    | DIALOGUE_SELECT optionIndex => handleDialogueSelect h s optionIndex
    | TAKE itemId => handleTake h s itemId
    | DROP itemId => handleDrop s itemId
    | USE itemId => handleUse s itemId
    | ATTACK targetId => handleAttack fuel s targetId
    | DEFEND => handleDefend fuel s
    | FLEE => handleFlee fuel s
    | BUY itemId npcId => handleBuy s itemId npcId
    | SELL itemId npcId => handleSell s itemId npcId
    | REST => handleRest s
    | LOOK => handleLook s
    | INVENTORY => handleInventory h s
    | STATS => handleStats s
    | SAVE_GAME => ret (addLog s "Game saved." Success)
    | LOAD_GAME _ => ret (addLog s "Game loaded." Success)
    end.

From Stdlib Require Import Lqa DecimalPos DecimalFacts.
From stdpp Require Import sorting.

Open Scope string_scope.
Open Scope Z_scope.
Open Scope list_scope.

(* ================================================================== *)
(** ** world/npcs.ts: the closures of the dialogue options *)
(* ================================================================== *)

Definition addShopLog (s : GameState) (msg : string) : GameState :=
  setGameLog s (gameLog s ++ [mkLogEntry msg Info]).

(** The mayor's "Accept Quest" option: a stub. *)
Definition acceptQuest (s : GameState) : GameState := s.

(** The shopkeeper's "I'd like to buy something." *)
Definition listForSale (showNum : Q -> string) (s : GameState) : GameState :=
  match shopOf s "shopkeeper" with
  | None => addShopLog s "I'm all sold out, sorry!"
  | Some (npc, sh) =>
      if Nat.eqb (length (shop_items sh)) 0 then
        addShopLog s "I'm all sold out, sorry!"
      else
        let s1 := addShopLog s "--- For Sale ---" in
        let s2 :=
          foldl (fun acc item =>
                   let price :=
                     Qceiling (fmul (inject_Z (item_value item)) (buyMultiplier sh)) in
                   addShopLog acc
                     ("  " +:+ item_name item +:+ " — " +:+ showZ price +:+
                      " gp (" +:+ itemTypeName (item_type item) +:+ ", " +:+
                      showNum (item_weight item) +:+ " lbs)"))
            s1 (shop_items sh) in
        addShopLog s2
          ("Use " +:+ dquote +:+ "buy <item name>" +:+ dquote +:+ " to purchase.")
  end.

(** The shopkeeper's "Show me what I can sell." *)
Definition listSellable (s : GameState) : GameState :=
  match shopOf s "shopkeeper" with
  | None => s
  | Some (npc, sh) =>
      let items := inv_items (inventory (character s)) in
      if Nat.eqb (length items) 0 then
        addShopLog s "Looks like you don't have anything to sell."
      else
        let s1 := addShopLog s "--- Your Items ---" in
        let s2 :=
          foldl (fun acc item =>
                   let price :=
                     Qfloor (fmul (inject_Z (item_value item)) (sellMultiplier sh)) in
                   addShopLog acc
                     ("  " +:+ item_name item +:+ " — " +:+ showZ price +:+ " gp"))
            s1 items in
        addShopLog s2
          ("Use " +:+ dquote +:+ "sell <item name>" +:+ dquote +:+ " to sell.")
  end.

(** The three closures of the world content, by handle, and the host that
    resolves them. *)
Definition worldCallbacks (showNum : Q -> string) (f : nat) (s : GameState)
  : GameState :=
  match f with
  | 0%nat => acceptQuest s
  | 1%nat => listForSale showNum s
  | 2%nat => listSellable s
  | _ => s
  end.

Definition worldHost (showNum fixed1 : Q -> string) : Host :=
  mkHost showNum fixed1 (worldCallbacks showNum).

(* ================================================================== *)
(** ** Readings of the specification, for comparison with the code *)
(* ================================================================== *)

Definition nodeNamed (name : string) (npc : NPC) : option DialogueNode :=
  List.find (fun node => String.eqb (node_id node) name) (dialogue npc).

(** The start node as the specification words it: the first node named
    "greeting", else the one named "encounter", else the one named "combat". *)
Definition preferredStart (npc : NPC) : option DialogueNode :=
  match nodeNamed "greeting" npc with
  | Some n => Some n
  | None =>
      match nodeNamed "encounter" npc with
      | Some n => Some n
      | None => nodeNamed "combat" npc
      end
  end.

(* ================================================================== *)
(** ** Notions used in the statements *)
(* ================================================================== *)

(** The world after one call of [Math.random()]. *)
Definition advance (w : World) : World :=
  mkWorld (fun n => tape w (S n)) (attackCalls w).

(** The value of [Math.floor(Math.random() * n)] on the head of the tape. *)
Definition floorDraw (n : Z) (w : World) : Z :=
  Qfloor (fmul (Z.of_N (tape w 0%nat) mod randomUnit # Z.to_pos randomUnit)
               (inject_Z n)).

(** [itemId] names [item], the first entry of [items] with that id. *)
Definition firstWithId (itemId : string) (items pre : list Item) (item : Item)
    (post : list Item) : Prop :=
  items = pre ++ item :: post /\ item_id item = itemId /\
  Forall (fun x => item_id x <> itemId) pre.

(** The ids that [getStartingDialogue] looks for. *)
Definition isStartId (id : string) : Prop :=
  id = "greeting" \/ id = "encounter" \/ id = "combat".

(** The inventory invariant of the data model. *)
Definition withinCapacity (s : GameState) : Prop :=
  (currentWeight (inventory (character s)) <=
   maxWeight (inventory (character s)))%Q.

(** The world after [n] calls of [Math.random()]. *)
Fixpoint advanceN (n : nat) (w : World) : World :=
  match n with
  | O => w
  | S n' => advanceN n' (advance w)
  end.

(** [n] gold draws, [Math.floor(Math.random() * 41) + 10] each, one per cell
    of the tape. *)
Fixpoint goldDraws (n : nat) (w : World) : list Z :=
  match n with
  | O => []
  | S n' => (floorDraw 41 w + 10) :: goldDraws n' (advance w)
  end.

Definition sumZ (l : list Z) : Z := foldr Z.add 0 l.

(** The combat states that a fight started against [es] can be in: what
    [initiateCombat] returned, followed by any number of [nextTurn] and
    [updateEnemyHP]. *)
Inductive reachableFrom (es : list NPC) : CombatState -> Prop :=
  | reach_start (c : Character) (w w' : World) (cb : CombatState) :
      initiateCombat c es w = Ok (cb, w') -> reachableFrom es cb
  | reach_nextTurn (cb : CombatState) :
      reachableFrom es cb -> reachableFrom es (nextTurn cb)
  | reach_damage (cb : CombatState) (enemyId : string) (dmg : Z) :
      reachableFrom es cb ->
      reachableFrom es (upd_combat (updateEnemyHP cb enemyId dmg)).

(** A damage expression on which [rollDamage] does not throw: it matches the
    pattern, and its die has a side unless no die is rolled. *)
Definition validDamage (s : string) : bool :=
  match matchDamage s with
  | Some (dice, sides, _) => ((dice <=? 0) || (1 <=? sides))%bool
  | None => false
  end.

(** An enemy whose stats carry a damage expression that makes [rollDamage]
    throw. *)
Definition malformed (e : NPC) : Prop :=
  exists st, stats e = Some st /\ validDamage (stat_damage st) = false.

(** How many turns of the order separate the cursor [idx] from slot [k]. *)
Definition turnsUntil (k idx len : Z) : Z :=
  if idx <=? k then k - idx else k - idx + len.

(** What a run of the enemy-turn loop started in world [w], with armor class
    [ac] against the enemies [es], may end in. *)
Definition enemyTurnsPost (ac : Z) (es : list NPC) (w : World)
    (o : Outcome (GameState * World)) : Prop :=
  match o with
  | Ok (s', w') =>
      armorClass (character s') = ac /\
      (isAlive (character s') = false -> combat s' = noCombat) /\
      exists calls,
        attackCalls w' = attackCalls w ++ calls /\
        Forall (fun c => call_targetAC c = ac) calls
  | Throw _ => Exists malformed es
  | OutOfFuel => False
  end.








(* ================================================================== *)
(** ** Sample worlds *)
(* ================================================================== *)

Module Sample.

(** A tape from a finite list; zeroes afterwards. *)
Definition tapeOf (l : list N) : nat -> N := fun n => nth n l 0%N.

(** A cell that makes a die of [sides] sides show [face]. *)
Definition cellFor (face sides : Z) : N :=
  Z.to_N (((face - 1) * randomUnit + sides - 1) / sides).

Definition worldOf (l : list N) : World := mkWorld (tapeOf l) [].

(** The value that a run returned, if it returned. *)
Definition valueOf {A} (o : Outcome (A * World)) : option A :=
  match o with
  | Ok (a, _) => Some a
  | _ => None
  end.

Definition host : Host :=
  mkHost (fun q => showZ (Qfloor q)) (fun q => showZ (Qfloor q)) (fun _ s => s).

Definition healingPotion : Item :=
  mkItem "shop-healing-potion" "Healing Potion"
    "A red potion that restores 2d4+2 hit points." (1 # 2) 50 Potion true.

Definition longsword : Item :=
  mkItem "shop-longsword" "Longsword"
    "A sharp steel blade, well-balanced for combat." 3 15 Weapon false.

Definition torch : Item :=
  mkItem "shop-torch" "Torch" "A wooden torch for lighting dark places."
    1 1 Misc false.

Definition lantern : Item :=
  mkItem "lantern" "Lantern" "A brass lantern." 2 5 Misc true.

Definition anvil : Item :=
  mkItem "anvil" "Anvil" "A blacksmith's anvil." 149 30 Misc false.

Definition hero : Character :=
  mkCharacter "hero" "Aldric" "Human" "Fighter" 1 0 (mkHitPoints 5 12)
    (mkAbilities 16 14 13 10 8 12) (mkAbilities 3 2 1 0 (-1) 1)
    (mkInventory [torch; healingPotion; lantern] 150 (7 # 2)) 100 12.

Definition shopkeeper : NPC :=
  mkNPC "shopkeeper" "Shopkeeper Mira"
    "A shrewd woman with sharp eyes and a welcoming smile."
    [mkDialogueNode "greeting" "Welcome to my shop!"
       [mkDialogueOption "Just browsing." None None None]]
    false None None
    (Some (mkShopInventory [healingPotion; longsword; anvil] (3 # 2) (1 # 2))).

(** A friendly NPC whose dialogue list names the "combat" node before the
    "greeting" node. *)
Definition hermit : NPC :=
  mkNPC "hermit" "Old Hermit" "A weathered recluse."
    [mkDialogueNode "combat" "*The hermit raises his staff!*"
       [mkDialogueOption "Stand down." None None None];
     mkDialogueNode "greeting" "Visitors are rare here."
       [mkDialogueOption "Farewell." None None None]]
    false None None None.

Definition goblin : NPC :=
  mkNPC "goblin-1" "Goblin" "A small, green-skinned creature" [] true
    (Some (mkStats 15 13 4 "1d6+2")) None None.

Definition ogre : NPC :=
  mkNPC "ogre" "Ogre" "A hulking brute" [] true
    (Some (mkStats 40 11 5 "3d8+4")) None None.

Definition square : Location :=
  mkLocation "village-square" "Village Square" "The heart of the village."
    [("north", "cave"); ("east", "shop")] ["shopkeeper"; "hermit"]
    [longsword; anvil] true.

Definition cave : Location :=
  mkLocation "cave" "Goblin Cave" "A damp cave." [("south", "village-square")]
    ["goblin-1"] [] false.

Definition world : GameState :=
  mkGameState hero "village-square"
    (<["village-square" := square]> (<["cave" := cave]> ∅))
    (<["shopkeeper" := shopkeeper]>
       (<["hermit" := hermit]> (<["goblin-1" := goblin]> ∅)))
    [] noCombat None [].

(** The hero in the cave, face to face with the goblin, no fight yet. *)
Definition inCave : GameState :=
  mkGameState hero "cave" (locations world) (npcs world) [] noCombat None [].


(** A fight against the ogre, on the hero's turn. *)
Definition fighting : GameState :=
  setCombat inCave
    (mkCombatState true [ogre] {["ogre" := 40]} 1 ["hero"; "ogre"] 0 1).

(** The fight that [initiateCombat] sets up between the hero and the goblin
    when the hero wins initiative. *)
Definition goblinFight : CombatState :=
  mkCombatState true [goblin] {["goblin-1" := 15]} 1 ["hero"; "goblin-1"] 0 1.

(** The hero already owns a longsword, and the shop stocks another. *)
Definition armed : GameState :=
  setCharacter world
    (setInventory hero (mkInventory [longsword; healingPotion] 150 (7 # 2))).

End Sample.

(* ================================================================== *)
(** ** Notions used in the further properties *)
(* ================================================================== *)

(** The hit-point invariant of the data model. *)
Definition hpWithinBounds (c : Character) : Prop :=
  0 <= hp_current (hitPoints c) <= hp_max (hitPoints c).

(** What one action may do to the burden: nothing; or one item more, at the
    end of the list, and its weight added to the recorded weight; or one item
    less and its weight taken off.  The sum and the difference are those of
    the code, rounded to a double.  The capacity stays. *)
Definition burdenMoves (inv inv' : Inventory) : Prop :=
  maxWeight inv' = maxWeight inv /\
  ((inv_items inv' = inv_items inv /\ currentWeight inv' = currentWeight inv) \/
   (exists item,
      inv_items inv' = inv_items inv ++ [item] /\
      currentWeight inv' = fadd (currentWeight inv) (item_weight item)) \/
   (exists i item,
      inv_items inv !! i = Some item /\
      inv_items inv' = delete i (inv_items inv) /\
      currentWeight inv' = fsub (currentWeight inv) (item_weight item))).

(** Who the character is, and what the character can carry. *)
Definition sameIdentity (c c' : Character) : Prop :=
  char_id c' = char_id c /\ char_name c' = char_name c /\
  char_race c' = char_race c /\ char_class c' = char_class c /\
  abilityScores c' = abilityScores c /\
  abilityModifiers c' = abilityModifiers c /\
  maxWeight (inventory c') = maxWeight (inventory c).

(** A location as it may have become: same place and exits, a visit is not
    forgotten, NPCs may only have left. *)
Definition sameSite (l l' : Location) : Prop :=
  loc_id l' = loc_id l /\ loc_name l' = loc_name l /\
  loc_description l' = loc_description l /\
  connections l' = connections l /\
  (visited l = true -> visited l' = true) /\
  sublist (loc_npcs l') (loc_npcs l).

(** An NPC as it may have become: only the stock of a shop may differ. *)
Definition sameNpc (n n' : NPC) : Prop :=
  npc_id n' = npc_id n /\ npc_name n' = npc_name n /\
  npc_description n' = npc_description n /\ dialogue n' = dialogue n /\
  hostile n' = hostile n /\ stats n' = stats n /\
  questGiver n' = questGiver n /\
  match shop n, shop n' with
  | Some sh, Some sh' =>
      buyMultiplier sh' = buyMultiplier sh /\
      sellMultiplier sh' = sellMultiplier sh
  | None, None => True
  | _, _ => False
  end.

(** What every step of the game keeps. *)
Record Evolves (s s' : GameState) : Prop := mkEvolves {
  ev_log : gameLog s `prefix_of` gameLog s';
  ev_who : sameIdentity (character s) (character s');
  ev_hp : hpWithinBounds (character s) -> hpWithinBounds (character s');
  ev_quests : quests s' = quests s;
  ev_locations :
    forall k, option_Forall2 sameSite (locations s !! k) (locations s' !! k);
  ev_npcs : forall k, option_Forall2 sameNpc (npcs s !! k) (npcs s' !! k);
}.

(** The closures of the world content are steps of the game as well, and keep
    out of the armor class and of the combat state. *)
Definition callbacksEvolve (h : Host) : Prop :=
  forall f s,
    Evolves s (callbacks h f s) /\
    armorClass (character (callbacks h f s)) = armorClass (character s) /\
    combat (callbacks h f s) = combat s.

(** Combat, when there is one, waits for the player. *)
Definition playerToAct (s : GameState) : Prop :=
  active (combat s) = true ->
  isPlayerTurn (combat s) (char_id (character s)) = true.

(** A character after level-ups: [levels] levels and [bonus] hit points
    gained, on the current and on the maximum alike, nothing else touched. *)
Definition grownBy (c c' : Character) (levels bonus : Z) : Prop :=
  sameIdentity c c' /\ armorClass c' = armorClass c /\
  inventory c' = inventory c /\ gold c' = gold c /\
  experience c' = experience c /\
  level c' = level c + levels /\
  hp_current (hitPoints c') = hp_current (hitPoints c) + bonus /\
  hp_max (hitPoints c') = hp_max (hitPoints c) + bonus.

(** Further sample data. *)
(** What an action does to the fight: it leaves it alone, or ends it, or
    hands it back on the player's turn. *)
Definition turnSettled (s s' : GameState) : Prop :=
  (combat s' = combat s /\ char_id (character s') = char_id (character s)) \/
  active (combat s') = false \/
  isPlayerTurn (combat s') (char_id (character s')) = true.

(** Every NPC of the state is stored under its own id. *)
Definition npcsKeyed (s : GameState) : Prop :=
  forall k n, npcs s !! k = Some n -> npc_id n = k.

(** The commands that only report: LOOK, INVENTORY, STATS, and the two that
    the reducer merely acknowledges, SAVE_GAME and LOAD_GAME. *)
Definition isReadOnly (a : GameAction) : bool :=
  match a with
  | LOOK | INVENTORY | STATS | SAVE_GAME | LOAD_GAME _ => true
  | _ => false
  end.

(** [a] is listed no later than [b] when its initiative is no lower. *)
Definition ranksBefore (a b : string * Z) : Prop := snd b <= snd a.

(** The head of [s] is not a digit. *)
Definition noDigitAhead (s : string) : Prop :=
  match s with String c _ => isDigit c = false | EmptyString => True end.

(** The die of the weapon that a class fights with in melee. *)
Definition weaponDie (cls : string) : Z :=
  if String.eqb cls "Fighter" then 8
  else if String.eqb cls "Paladin" then 8
  else if String.eqb cls "Wizard" then 4
  else 6.

(** The items on the ground where the character stands. *)
Definition floorItems (s : GameState) : list Item :=
  match locations s !! currentLocationId s with
  | Some l => loc_items l
  | None => []
  end.

(** The stock of the shop of an NPC (nothing if it keeps no shop). *)
Definition stockOf (s : GameState) (npcId : string) : list Item :=
  match shopOf s npcId with
  | Some (_, sh) => shop_items sh
  | None => []
  end.

(** The items within reach: carried, on the ground here, in the stock of
    [npcId]. *)
Definition itemsAround (s : GameState) (npcId : string) : list Item :=
  inv_items (inventory (character s)) ++ floorItems s ++ stockOf s npcId.

(** The actions that hand an item over: TAKE and DROP, and BUY and SELL with
    the NPC [npcId]. *)
Definition movesItems (a : GameAction) (npcId : string) : bool :=
  match a with
  | TAKE _ | DROP _ => true
  | BUY _ n | SELL _ n => String.eqb n npcId
  | _ => false
  end.

(** What the enemies' turns never touch: where the character is, the
    conversation, the world, and of the character everything but the current
    hit points. *)
Definition sameButWounds (s s' : GameState) : Prop :=
  currentLocationId s' = currentLocationId s /\
  activeDialogue s' = activeDialogue s /\
  locations s' = locations s /\ npcs s' = npcs s /\
  inventory (character s') = inventory (character s) /\
  gold (character s') = gold (character s) /\
  experience (character s') = experience (character s) /\
  level (character s') = level (character s) /\
  hp_max (hitPoints (character s')) = hp_max (hitPoints (character s)).

(** The dialogue closures leave the character where it stands. *)
Definition callbacksStay (h : Host) : Prop :=
  forall f s, currentLocationId (callbacks h f s) = currentLocationId s.

(** The dialogue closures only write to the log. *)
Definition callbacksOnlyLog (h : Host) : Prop :=
  forall f s, exists lines, callbacks h f s = setGameLog s (gameLog s ++ lines).

(** Nothing earned is lost from [s] to [s']: experience, level and maximum
    hit points do not go down. *)
Definition keepsProgress (s s' : GameState) : Prop :=
  experience (character s) <= experience (character s') /\
  level (character s) <= level (character s') /\
  hp_max (hitPoints (character s)) <= hp_max (hitPoints (character s')).

(** No fight goes on over a fallen character. *)
Definition fightNeedsTheLiving (s : GameState) : Prop :=
  active (combat s) = false \/ isAlive (character s) = true.

Module Scene.

Definition host : Host :=
  worldHost (fun q => showZ (Qfloor q)) (fun q => showZ (Qfloor q)).

(** A shopkeeper whose dialogue carries the two closures of the shop. *)
Definition shopkeeper : NPC :=
  mkNPC "shopkeeper" "Shopkeeper Mira"
    "A shrewd woman with sharp eyes and a welcoming smile."
    [mkDialogueNode "greeting" "Welcome to my shop!"
       [mkDialogueOption "Show me your wares." (Some "shop") None None;
        mkDialogueOption "A discount, perhaps?" (Some "greeting") None
          (Some (mkRequiresCheck Charisma 15));
        mkDialogueOption "Just browsing." None None None];
     mkDialogueNode "shop" "Everything an adventurer needs!"
       [mkDialogueOption "I'd like to buy something." None (Some 1%nat) None;
        mkDialogueOption "Maybe later." None None None]]
    false None None
    (Some (mkShopInventory [Sample.healingPotion; Sample.longsword] (3 # 2)
             (1 # 2))).

(** In the shop node of a conversation with her, with one line in the log. *)
Definition browsing : GameState :=
  mkGameState Sample.hero "village-square"
    (locations Sample.world)
    (<["shopkeeper" := shopkeeper]> (npcs Sample.world))
    [] noCombat (Some (mkActiveDialogue "shopkeeper" "shop"))
    [mkLogEntry "Shopkeeper Mira: Everything an adventurer needs!" Dialogue].

(** The hero, wounded, in the forest clearing, one of the two places to
    rest. *)
Definition camping : GameState :=
  mkGameState Sample.hero "forest-clearing"
    (<["forest-clearing" :=
         mkLocation "forest-clearing" "Forest Clearing" "A quiet glade."
           [("south", "village-square")] [] [] true]> (locations Sample.world))
    (npcs Sample.world) [] noCombat None [].

End Scene.

(** A number that a double holds exactly, below 2^53 in size: [m / 2^j] with
    [m] of at most 53 bits and [2^j] no finer than the smallest double.  The
    integers below 2^53 and their halves and quarters are of this kind; 0.1
    is not. *)
Definition smallDouble (q : Q) : Prop :=
  exists m j, 0 <= j <= 1074 /\ Z.abs m < 2 ^ 53 /\
              (q == m # Z.to_pos (2 ^ j))%Q.

(** States whose weights and multipliers are decimals that no double
    holds: 0.1, 0.2, 0.3, 0.7 and 1.1 stand for the doubles nearest to
    them, and the sums and products of the code are rounded. *)
Module Ledger.

(** The bronze key of the ruins: weight 0.2, value 50. *)
Definition ancientKey : Item :=
  mkItem "ancient-key" "Ancient Bronze Key"
    "A tarnished key covered in ancient symbols." (fl (1 # 5)) 50 QuestItem
    false.

Definition chainMail : Item :=
  mkItem "chain-mail" "Chain Mail" "Heavy armor of interlocking rings." 55 75
    Armor false.

Definition pack : Item :=
  mkItem "pack" "Pack" "The rest of what a fighter sets out with." (19 # 2) 0
    Misc false.

Definition pebble : Item :=
  mkItem "pebble" "Pebble" "A smooth pebble." (fl (1 # 10)) 0 Misc false.

Definition stone : Item :=
  mkItem "stone" "Stone" "A stone of one pound." 1 0 Misc false.

(** An item whose weight is the double 2^-53. *)
Definition mote : Item :=
  mkItem "mote" "Mote" "A mote of dust." (1 # 9007199254740992) 0 Misc false.

Definition rope : Item :=
  mkItem "rope" "Rope" "Fifty feet of hempen rope." 10 10 Misc false.

Definition mirror : Item :=
  mkItem "mirror" "Silver Mirror" "A polished hand mirror." 1 90 Treasure false.

(** The village square with the key and the mote on the ground, and the hero
    carrying [inv]. *)
Definition keyOnTheGround (inv : Inventory) : GameState :=
  mkGameState (setInventory Sample.hero inv) "village-square"
    (<["village-square" :=
         setLocationItems Sample.square [ancientKey; mote]]>
       (locations Sample.world))
    (npcs Sample.world) [] noCombat None [].

(** 64.5 carried out of 150. *)
Definition laden : GameState :=
  keyOnTheGround (mkInventory [chainMail; pack] 150 (129 # 2)).

(** 0.1 carried out of 0.3. *)
Definition brim : GameState :=
  keyOnTheGround (mkInventory [pebble] (fl (3 # 10)) (fl (1 # 10))).

(** 1 carried out of 1. *)
Definition full : GameState :=
  keyOnTheGround (mkInventory [stone] 1 1).

(** A trader who sells at 1.1 times the value and buys at 0.7 times. *)
Definition trader : NPC :=
  mkNPC "trader" "Trader" "A travelling trader." [] false None None
    (Some (mkShopInventory [ancientKey; rope] (fl (11 # 10)) (fl (7 # 10)))).

(** The hero with a mirror and a rope to sell, and 100 gold. *)
Definition market : GameState :=
  mkGameState
    (setInventory Sample.hero (mkInventory [mirror; rope] 150 11))
    "village-square" (locations Sample.world)
    (<["trader" := trader]> (npcs Sample.world)) [] noCombat None [].

End Ledger.

(* ================================================================== *)
(** ** Basic facts: the host *)
(* ================================================================== *)

Lemma bind_Ok {A B} (m : M A) (k : A -> M B) (w w' : World) (a : A) :
  m w = Ok (a, w') -> bind m k w = k a w'.
Proof. intros H. unfold bind. by rewrite H. Qed.

Lemma Math_random_eq (w : World) :
  Math_random w =
  Ok (Z.of_N (tape w 0%nat) mod randomUnit # Z.to_pos randomUnit, advance w).
Proof. reflexivity. Qed.

(** *** Rounding

    What the proofs below need of [fl]: a draw stays on the die. *)

Lemma roundHalfEven_bounds (n d : Z) :
  0 < d -> 0 <= n ->
  0 <= roundHalfEven n d /\ 2 * roundHalfEven n d * d <= 2 * n + d.
Proof.
  intros Hd Hn. unfold roundHalfEven.
  pose proof (Z.div_mod n d ltac:(lia)) as Hdm.
  pose proof (Z.mod_pos_bound n d Hd) as Hm.
  assert (0 <= n / d) by (apply Z.div_pos; lia).
  destruct (Z.compare_spec (2 * (n mod d)) d) as [He|Hl|Hg].
  - destruct (Z.even (n / d)); split; nia.
  - split; nia.
  - split; nia.
Qed.

Lemma ilog2_lower (n d : Z) :
  0 < n -> 0 < d ->
  if 0 <=? ilog2 n d then d * 2 ^ ilog2 n d <= n
  else d <= n * 2 ^ (- ilog2 n d).
Proof.
  intros Hn Hd. unfold ilog2, scale2.
  pose proof (Z.log2_spec n Hn) as [Ha Ha'].
  pose proof (Z.log2_spec d Hd) as [Hb Hb'].
  pose proof (Z.log2_nonneg n) as Han. pose proof (Z.log2_nonneg d) as Hbn.
  set (a := Z.log2 n) in *. set (b := Z.log2 d) in *.
  destruct (Z.leb_spec 0 (a - b)) as [Hk|Hk].
  - destruct (Z.leb_spec (d * 2 ^ (a - b)) n) as [Hle|Hgt].
    + apply Z.leb_le in Hk. by rewrite Hk.
    + destruct (Z.leb_spec 0 (a - b - 1)) as [Hk'|Hk'].
      * assert (E : 2 ^ a = 2 ^ Z.succ b * 2 ^ (a - b - 1)).
        { rewrite <- Z.pow_add_r by lia. f_equal. lia. }
        assert (0 < 2 ^ (a - b - 1)) by (apply Z.pow_pos_nonneg; lia).
        nia.
      * assert (a = b) as -> by lia.
        replace (- (b - b - 1)) with 1 by lia.
        rewrite Z.pow_succ_r in Hb' by lia. lia.
  - destruct (Z.leb_spec d (n * 2 ^ (- (a - b)))) as [Hle|Hgt].
    + apply Z.leb_gt in Hk. by rewrite Hk.
    + assert (Hk' : (0 <=? a - b - 1) = false) by (apply Z.leb_gt; lia).
      rewrite Hk'.
      assert (E : 2 ^ Z.succ b = 2 ^ a * 2 ^ (- (a - b - 1))).
      { rewrite <- Z.pow_add_r by lia. f_equal. lia. }
      assert (0 < 2 ^ (- (a - b - 1))) by (apply Z.pow_pos_nonneg; lia).
      nia.
Qed.

Lemma Qfloor_Qred (q : Q) : Qfloor (Qred q) = Qfloor q.
Proof. apply Qfloor_comp, Qred_correct. Qed.

(** [Math.floor(u * n)] is one of [0 .. n - 1] for [u] a multiple of
    [2^-53] below 1 and [n >= 1], rounding of the product included. *)
Lemma fl_draw_range (k n : Z) :
  0 <= k < 2 ^ 53 -> 1 <= n ->
  0 <= Qfloor (fl ((k # Z.to_pos (2 ^ 53)) * inject_Z n)) < n.
Proof.
  intros Hk Hn. unfold fl. cbn [Qmult Qnum Qden inject_Z].
  rewrite Pos.mul_1_r.
  assert (Hd : Z.pos (Z.to_pos (2 ^ 53)) = 2 ^ 53) by reflexivity.
  rewrite Hd. set (d := 2 ^ 53) in *.
  assert (Hdpos : 0 < d) by reflexivity.
  assert (Hd52 : d = 2 * 2 ^ 52) by reflexivity.
  rewrite Z.abs_eq by nia.
  destruct (Z.eqb_spec (k * n) 0) as [Hz|Hnz];
    [change (Qfloor 0) with 0; lia|].
  assert (Hpos : 0 < k * n) by nia.
  rewrite Z.sgn_pos by done.
  pose proof (ilog2_lower (k * n) d Hpos Hdpos) as Hlog.
  set (L := ilog2 (k * n) d) in *.
  set (e := Z.max (L - 52) (-1074)).
  unfold scale2.
  destruct (Z.leb_spec 0 e) as [He|He]; cbv beta iota zeta; rewrite Z.mul_1_l.
  - assert (He' : e = L - 52) by lia.
    assert (HL : (0 <=? L) = true) by (apply Z.leb_le; lia).
    rewrite HL in Hlog.
    assert (E : 2 ^ L = 2 ^ 52 * 2 ^ e).
    { rewrite <- Z.pow_add_r by lia. f_equal. lia. }
    assert (Hpe : 0 < 2 ^ e) by (apply Z.pow_pos_nonneg; lia).
    destruct (roundHalfEven_bounds (k * n) (d * 2 ^ e)) as [Hm0 Hm]; [nia|lia|].
    set (m := roundHalfEven (k * n) (d * 2 ^ e)) in *.
    rewrite Qfloor_Qred, Qfloor_Z. nia.
  - assert (Hpe : 0 < 2 ^ (- e)) by (apply Z.pow_pos_nonneg; lia).
    destruct (roundHalfEven_bounds (k * n * 2 ^ (- e)) d) as [Hm0 Hm];
      [done|nia|].
    set (m := roundHalfEven (k * n * 2 ^ (- e)) d) in *.
    set (A := 2 ^ (- e)) in *.
    assert (HA : 2 ^ 52 < n * A).
    { destruct (Z.max_spec (L - 52) (-1074)) as [[_ Hmax]|[_ Hmax]];
        fold e in Hmax.
      - assert (2 ^ 52 < A); [|nia].
        unfold A. rewrite Hmax. apply Z.pow_lt_mono_r; lia.
      - destruct (Z.leb_spec 0 L) as [HL|HL].
        + assert (E : 2 ^ 52 = 2 ^ L * A).
          { unfold A. rewrite <- Z.pow_add_r by lia. f_equal. lia. }
          assert (0 < 2 ^ L) by (apply Z.pow_pos_nonneg; lia).
          nia.
        + assert (2 ^ 52 < A); [|nia].
          unfold A. apply Z.pow_lt_mono_r; lia. }
    rewrite Qfloor_Qred. unfold Qfloor. cbn [Qnum Qden].
    rewrite Z2Pos.id by done. fold A.
    split.
    + apply Z.div_pos; lia.
    + apply Z.div_lt_upper_bound; [done|]. nia.
Qed.

Lemma roundHalfEven_multiple (M d : Z) : 0 < d -> roundHalfEven (M * d) d = M.
Proof.
  intros Hd. unfold roundHalfEven.
  rewrite Z.mod_mul, Z.div_mul by lia.
  replace (2 * 0) with 0 by lia.
  destruct (Z.compare_spec 0 d); lia.
Qed.

(** Rounding leaves a number that a double holds as it is. *)
Lemma fl_exact (q : Q) : smallDouble q -> (fl q == q)%Q.
Proof.
  intros (m & j & Hj & Hm & Hq). destruct q as [n d].
  unfold Qeq in Hq. cbn [Qnum Qden] in Hq.
  assert (Hpj : 0 < 2 ^ j) by (apply Z.pow_pos_nonneg; lia).
  rewrite Z2Pos.id in Hq by done.
  unfold fl. cbn [Qnum Qden].
  destruct (Z.eqb_spec (Z.abs n) 0) as [Hz|Hnz].
  { unfold Qeq. cbn. lia. }
  assert (Hd : 0 < Z.pos d) by done.
  set (D := Z.pos d) in *.
  assert (Habs : Z.abs n * 2 ^ j = Z.abs m * D).
  { apply (f_equal Z.abs) in Hq. rewrite !Z.abs_mul in Hq.
    by rewrite (Z.abs_eq (2 ^ j)), (Z.abs_eq D) in Hq by lia. }
  assert (Hsgn : n = Z.sgn n * Z.abs n)
    by (symmetry; rewrite Z.mul_comm; apply Z.abs_sgn).
  assert (Ha : 0 < Z.abs n) by lia.
  set (a := Z.abs n) in *. set (am := Z.abs m) in *.
  pose proof (ilog2_lower a D Ha Hd) as Hlog.
  set (L := ilog2 a D) in *.
  assert (HL : L <= 52 - j).
  { destruct (Z.leb_spec 0 L) as [HL0|HL0].
    - destruct (Z.le_gt_cases L (52 - j)) as [|Hgt]; [done|exfalso].
      assert (E : 2 ^ (L + j) = 2 ^ L * 2 ^ j) by (apply Z.pow_add_r; lia).
      assert (2 ^ 53 <= 2 ^ (L + j)) by (apply Z.pow_le_mono_r; lia).
      nia.
    - destruct (Z.le_gt_cases L (52 - j)) as [|Hgt]; [done|exfalso].
      assert (E : 2 ^ j = 2 ^ (j + L) * 2 ^ (- L)).
      { rewrite <- Z.pow_add_r by lia. f_equal. lia. }
      assert (2 ^ 53 <= 2 ^ (j + L)) by (apply Z.pow_le_mono_r; lia).
      assert (0 < 2 ^ (- L)) by (apply Z.pow_pos_nonneg; lia).
      nia. }
  set (e := Z.max (L - 52) (-1074)).
  assert (He : e <= - j) by lia.
  unfold scale2.
  destruct (Z.leb_spec 0 e) as [He0|He0]; cbv beta iota zeta.
  - assert (e = 0) as -> by lia. assert (j = 0) as -> by lia.
    change (2 ^ 0) with 1 in *. rewrite !Z.mul_1_r in *.
    rewrite Habs, roundHalfEven_multiple by done.
    rewrite Qred_correct. unfold Qeq, inject_Z. cbn [Qnum Qden]. fold D.
    rewrite Hsgn at 2. rewrite Habs. lia.
  - assert (Hpe : 0 < 2 ^ (- e)) by (apply Z.pow_pos_nonneg; lia).
    assert (E : 2 ^ (- e) = 2 ^ j * 2 ^ (- e - j)).
    { rewrite <- Z.pow_add_r by lia. f_equal. lia. }
    replace (a * 2 ^ (- e)) with (am * 2 ^ (- e - j) * D) by (rewrite E; nia).
    rewrite roundHalfEven_multiple by done.
    rewrite Qred_correct. unfold Qeq. cbn [Qnum Qden]. fold D.
    rewrite Z2Pos.id by done.
    rewrite Hsgn at 2. rewrite E. nia.
Qed.

Lemma floorDraw_range (n : Z) (w : World) :
  1 <= n -> 0 <= floorDraw n w < n.
Proof.
  intros Hn. unfold floorDraw, fmul. apply fl_draw_range; [|done].
  apply Z.mod_pos_bound. reflexivity.
Qed.

Lemma rollDice_eq (sides : Z) (w : World) :
  1 <= sides -> rollDice sides w = Ok (floorDraw sides w + 1, advance w).
Proof.
  intros Hs. unfold rollDice.
  destruct (sides <? 1) eqn:E; [apply Z.ltb_lt in E; lia|].
  reflexivity.
Qed.

Lemma rollDice_range (sides : Z) (w : World) :
  1 <= sides ->
  exists r, rollDice sides w = Ok (r, advance w) /\ 1 <= r <= sides.
Proof.
  intros Hs. exists (floorDraw sides w + 1). split.
  - by apply rollDice_eq.
  - pose proof (floorDraw_range sides w Hs). lia.
Qed.

(* ================================================================== *)
(** ** The scenarios of the test suites, replayed on the embedding *)
(* ================================================================== *)

(** [Math.random() = 0.5] shows 4 on a d6; 0 shows 1. *)
Example rollDice_half :
  Sample.valueOf (rollDice 6 (Sample.worldOf [(2 ^ 52)%N])) = Some 4 /\
  Sample.valueOf (rollDice 6 (Sample.worldOf [0%N])) = Some 1 /\
  Sample.valueOf (rollDice 0 (Sample.worldOf [0%N])) = None.
Proof. by vm_compute. Qed.

Example matchDamage_samples :
  matchDamage "2d8+3" = Some (2, 8, 3) /\
  matchDamage "1d6-10" = Some (1, 6, -10) /\
  matchDamage "1d4" = Some (1, 4, 0) /\
  matchDamage "about 12d6+ fire" = Some (12, 6, 0) /\
  matchDamage "d6" = None /\
  matchDamage "sword" = None.
Proof. by vm_compute. Qed.

(** "2d6+3" with every d6 showing 4 is 11; "1d6-10" is floored at 0. *)
Example rollDamage_samples :
  Sample.valueOf
    (rollDamage "2d6+3" (Sample.worldOf [Sample.cellFor 4 6; Sample.cellFor 4 6]))
    = Some 11 /\
  Sample.valueOf (rollDamage "1d6-10" (Sample.worldOf [Sample.cellFor 6 6]))
    = Some 0 /\
  Sample.valueOf (rollDamage "invalid" (Sample.worldOf [])) = None.
Proof. by vm_compute. Qed.

(** A natural 20 hits armor class 999, and is a critical. *)
Example natural_20_always_hits :
  (fun r => (ar_roll r, hits r, critical r)) <$>
    Sample.valueOf (makeAttackRoll 5 999 (Sample.worldOf [Sample.cellFor 20 20]))
  = Some (20, true, true).
Proof. by vm_compute. Qed.

(** A flee total of exactly 12 (10 on the die, dexterity +2) succeeds. *)
Example flee_at_12_succeeds :
  (fun r => (flee_roll r, flee_success r)) <$>
    Sample.valueOf (attemptFlee Sample.hero (Sample.worldOf [Sample.cellFor 10 20]))
  = Some (12, true).
Proof. by vm_compute. Qed.

(** 2500 XP at level 1 cross two thresholds: level 3, two hit-die rolls. *)
Example two_levels_in_one_award :
  (fun r => (level (fst r), experience (fst r), hitPoints (fst r), snd r)) <$>
    Sample.valueOf
      (awardExperience Sample.hero 2500
         (Sample.worldOf [Sample.cellFor 7 10; Sample.cellFor 1 10]))
  = Some (3, 2500, mkHitPoints (5 + 8 + 2) (12 + 8 + 2), true).
Proof. by vm_compute. Qed.

(** Initiative: highest first, ties in encounter order. *)
Example turn_order_is_stable :
  fst <$> Sample.valueOf
            (determineTurnOrder Sample.hero [Sample.goblin; Sample.ogre]
               (Sample.worldOf
                  [Sample.cellFor 10 20; Sample.cellFor 11 20;
                   Sample.cellFor 12 20]))
  = Some ["hero"; "goblin-1"; "ogre"] /\
  fst <$> Sample.valueOf
            (determineTurnOrder Sample.hero [Sample.goblin; Sample.ogre]
               (Sample.worldOf
                  [Sample.cellFor 3 20; Sample.cellFor 11 20;
                   Sample.cellFor 20 20]))
  = Some ["ogre"; "goblin-1"; "hero"].
Proof. by vm_compute. Qed.

Example getWeaponDamage_fighter :
  getWeaponDamage Sample.hero false = "1d8+3".
Proof. by vm_compute. Qed.

(* ================================================================== *)
(** ** Basic facts: arrays *)
(* ================================================================== *)

Lemma findIndex_first {A} (f : A -> bool) (pre : list A) (x : A) (post : list A) :
  Forall (fun y => f y = false) pre -> f x = true ->
  findIndex f (pre ++ x :: post) = Some (length pre).
Proof.
  induction pre as [|y pre IH]; intros Hpre Hx; simpl.
  - by rewrite Hx.
  - inversion Hpre as [|? ? Hy Hpre']; subst. rewrite Hy.
    rewrite IH; auto.
Qed.

Lemma findIndex_Some {A} (f : A -> bool) (l : list A) (i : nat) :
  findIndex f l = Some i -> exists x, l !! i = Some x /\ f x = true.
Proof.
  revert i. induction l as [|y l IH]; intros i H; simpl in H; [discriminate|].
  destruct (f y) eqn:Hy.
  - inversion H; subst. exists y. by split.
  - destruct (findIndex f l) as [j|] eqn:Hj; simpl in H; [|discriminate].
    inversion H; subst. destruct (IH j eq_refl) as [x [Hx1 Hx2]].
    exists x. by split.
Qed.

Lemma lookup_middle' {A} (pre : list A) (x : A) (post : list A) :
  (pre ++ x :: post) !! length pre = Some x.
Proof. by rewrite list_lookup_middle. Qed.

Lemma delete_middle' {A} (pre : list A) (x : A) (post : list A) :
  delete (length pre) (pre ++ x :: post) = pre ++ post.
Proof.
  induction pre as [|y pre IH]; simpl; [done|]. by rewrite IH.
Qed.

Lemma firstWithId_findIndex itemId items pre item post :
  firstWithId itemId items pre item post ->
  findIndex (hasId itemId) items = Some (length pre) /\
  items !! length pre = Some item /\
  delete (length pre) items = pre ++ post.
Proof.
  intros (-> & Hid & Hpre). split; [|split].
  - apply findIndex_first.
    + eapply Forall_impl; [exact Hpre|]. intros y Hy. unfold hasId.
      by apply String.eqb_neq.
    + unfold hasId. by apply String.eqb_eq.
  - apply lookup_middle'.
  - apply delete_middle'.
Qed.

(* ================================================================== *)
(** ** character.ts: the level-up loop *)
(* ================================================================== *)

(** With the fuel that [awardExperience] gives it, the loop stops because its
    condition is false, not because the fuel is spent. *)
Lemma levelUpLoop_exit (fuel : nat) (hitDie : Z) (c : Character) (b : bool)
    (w : World) :
  experience c / 1000 - level c + 1 <= Z.of_nat fuel ->
  match levelUpLoop fuel hitDie c b w with
  | Ok ((c', _), _) => experience c' < level c' * 1000
  | Throw _ => hitDie < 1
  | OutOfFuel => False
  end.
Proof.
  revert c b w. induction fuel as [|fuel IH]; intros c b w Hf;
    cbn [levelUpLoop].
  - cbn. Z.div_mod_to_equations. lia.
  - destruct (experience c >=? level c * 1000) eqn:E.
    + destruct (Z.lt_ge_cases hitDie 1) as [Hlt|Hge].
      * unfold bind, rollDice. apply Z.ltb_lt in Hlt as Hb. by rewrite Hb.
      * rewrite (bind_Ok _ _ w (advance w) _ (rollDice_eq hitDie w Hge)).
        apply IH. cbn. lia.
    + cbn. rewrite Z.geb_leb in E. apply Z.leb_gt in E. lia.
Qed.

Lemma awardExperience_exit (c : Character) (xp : Z) (w : World) :
  match awardExperience c xp w with
  | Ok ((c', _), _) =>
      experience c' = experience c + xp /\ experience c' < level c' * 1000
  | Throw _ => True
  | OutOfFuel => False
  end.
Proof.
  unfold awardExperience.
  destruct (experience c + xp >=? level c * 1000) eqn:E.
  - destruct (getClassHitDie (char_class c)) as [hitDie|];
      [|by destruct (objectPrototypeText _)].
    pose proof (levelUpLoop_exit (levelUpFuel (setExperience c (experience c + xp)))
                  hitDie (setExperience c (experience c + xp)) false w) as H.
    assert (Hxp : forall fuel c0 b0 w0,
              match levelUpLoop fuel hitDie c0 b0 w0 with
              | Ok ((c', _), _) => experience c' = experience c0
              | _ => True
              end).
    { induction fuel as [|fuel IH]; intros c0 b0 w0; cbn [levelUpLoop];
        [done|].
      destruct (experience c0 >=? level c0 * 1000); [|done].
      unfold bind. destruct (rollDice hitDie w0) as [[r w1]| |]; [|done|done].
      apply (IH (setLevelAndHitPoints c0 _ _)). }
    specialize (Hxp (levelUpFuel (setExperience c (experience c + xp)))
                  (setExperience c (experience c + xp)) false w).
    destruct (levelUpLoop _ hitDie _ false w) as [[[c' b'] w']| |];
      [|done|].
    + split; [exact Hxp|]. apply H. unfold levelUpFuel. cbn. lia.
    + apply H. unfold levelUpFuel. cbn. lia.
  - cbn. split; [reflexivity|]. rewrite Z.geb_leb in E. apply Z.leb_gt in E. lia.
Qed.

(* ================================================================== *)
(** ** character.ts: clamping of hit points *)
(* ================================================================== *)

(** C6. For a character with [0 <= current <= max] and a non-negative amount,
    [healCharacter] and [damageCharacter] return characters that still have
    [0 <= current <= max]: damage beyond the current hit points leaves 0,
    healing beyond the deficit leaves [max].  Neither touches anything but
    [hitPoints.current]: putting the old hit points back into the result
    gives the input character again. *)
Theorem heal_damage_keep_bounds (c : Character) (amount : Z) :
  0 <= hp_current (hitPoints c) <= hp_max (hitPoints c) ->
  0 <= amount ->
  let healed := healCharacter c amount in
  let damaged := damageCharacter c amount in
  0 <= hp_current (hitPoints healed) <= hp_max (hitPoints healed) /\
  0 <= hp_current (hitPoints damaged) <= hp_max (hitPoints damaged) /\
  (hp_current (hitPoints c) <= amount -> hp_current (hitPoints damaged) = 0) /\
  (hp_max (hitPoints c) - hp_current (hitPoints c) <= amount ->
   hp_current (hitPoints healed) = hp_max (hitPoints healed)) /\
  hp_max (hitPoints healed) = hp_max (hitPoints c) /\
  hp_max (hitPoints damaged) = hp_max (hitPoints c) /\
  setHitPoints healed (hitPoints c) = c /\
  setHitPoints damaged (hitPoints c) = c.
Proof.
  intros Hb Ha. destruct c as [? ? ? ? ? ? [cur mx] ? ? ? ? ?].
  cbn in *. repeat split; try lia.
Qed.

Lemma heal_damage_keep_bounds_witness :
  let healed := healCharacter Sample.hero 100 in
  let damaged := damageCharacter Sample.hero 100 in
  0 <= hp_current (hitPoints healed) <= hp_max (hitPoints healed) /\
  0 <= hp_current (hitPoints damaged) <= hp_max (hitPoints damaged) /\
  (hp_current (hitPoints Sample.hero) <= 100 ->
   hp_current (hitPoints damaged) = 0) /\
  (hp_max (hitPoints Sample.hero) - hp_current (hitPoints Sample.hero) <= 100 ->
   hp_current (hitPoints healed) = hp_max (hitPoints healed)) /\
  hp_max (hitPoints healed) = hp_max (hitPoints Sample.hero) /\
  hp_max (hitPoints damaged) = hp_max (hitPoints Sample.hero) /\
  setHitPoints healed (hitPoints Sample.hero) = Sample.hero /\
  setHitPoints damaged (hitPoints Sample.hero) = Sample.hero.
Proof.
  apply (heal_damage_keep_bounds Sample.hero 100); cbn; lia.
Defined.

(* ================================================================== *)
(** ** Basic facts: the reducer *)
(* ================================================================== *)

Lemma includes_In (l : list string) (id : string) :
  includes l id = true <-> In id l.
Proof.
  unfold includes. rewrite existsb_exists. split.
  - intros (x & Hx & He). apply String.eqb_eq in He. by subst.
  - intros H. exists id. split; [done|]. apply String.eqb_refl.
Qed.

Lemma Qgtb_false (a b : Q) : Qgtb a b = false <-> (a <= b)%Q.
Proof.
  unfold Qgtb. rewrite negb_false_iff. apply Qle_bool_iff.
Qed.

Lemma Qgtb_true (a b : Q) : Qgtb a b = true <-> (b < a)%Q.
Proof.
  unfold Qgtb. rewrite negb_true_iff. split.
  - intros H. apply Qnot_le_lt. intros Hle. apply Qle_bool_iff in Hle. congruence.
  - intros H. apply not_true_is_false. intros Hle. apply Qle_bool_iff in Hle.
    by apply Qlt_not_le in H.
Qed.

Lemma find_first {A} (f : A -> bool) (pre : list A) (x : A) (post : list A) :
  Forall (fun y => f y = false) pre -> f x = true ->
  List.find f (pre ++ x :: post) = Some x.
Proof.
  induction pre as [|y pre IH]; intros Hpre Hx; simpl.
  - by rewrite Hx.
  - inversion Hpre as [|? ? Hy Hpre']; subst. rewrite Hy. auto.
Qed.

(** What [processAction] does for a living character. *)
Lemma processAction_alive (h : Host) (fuel : nat) (s : GameState) (a : GameAction) :
  isAlive (character s) = true ->
  processAction h fuel s a =
  match a with
  | MOVE direction => handleMove fuel s direction
  | TALK npcId => handleTalk s npcId
  | DIALOGUE_SELECT optionIndex => handleDialogueSelect h s optionIndex
  | TAKE itemId => handleTake h s itemId
  | DROP itemId => handleDrop s itemId
  | USE itemId => handleUse s itemId
  | ATTACK targetId => handleAttack fuel s targetId
  | DEFEND => handleDefend fuel s
  | FLEE => handleFlee fuel s
  | BUY itemId npcId => handleBuy s itemId npcId
  | SELL itemId npcId => handleSell s itemId npcId
  | REST => handleRest s
  | LOOK => handleLook s
  | INVENTORY => handleInventory h s
  | STATS => handleStats s
  | SAVE_GAME => ret (addLog s "Game saved." Success)
  | LOAD_GAME _ => ret (addLog s "Game loaded." Success)
  end.
Proof. intros H. unfold processAction. by rewrite H. Qed.

(* ================================================================== *)
(** ** TALK: the start node *)
(* ================================================================== *)

Lemma isStartId_eqb (id : string) :
  (String.eqb id "greeting" || String.eqb id "encounter" ||
   String.eqb id "combat")%bool = true <-> isStartId id.
Proof.
  unfold isStartId. rewrite !orb_true_iff, !String.eqb_eq. tauto.
Qed.

(** C3 (amended). For a non-hostile NPC present at the current location, TALK
    starts at the first node, in the order of the NPC's dialogue list, whose
    id is one of "greeting", "encounter", "combat".  If that node has options
    the option list is logged and the active dialogue becomes that NPC and
    node id; otherwise only the line is logged. *)
Theorem talk_starts_at_first_listed_start_node
    (h : Host) (fuel : nat) (s : GameState) (npcId : string) (npc : NPC)
    (location : Location) (pre : list DialogueNode) (node : DialogueNode)
    (post : list DialogueNode) (w : World) :
  isAlive (character s) = true ->
  active (combat s) = false ->
  npcs s !! npcId = Some npc ->
  locations s !! currentLocationId s = Some location ->
  In npcId (loc_npcs location) ->
  hostile npc = false ->
  dialogue npc = pre ++ node :: post ->
  Forall (fun n => ~ isStartId (node_id n)) pre ->
  isStartId (node_id node) ->
  let line :=
    addLog s (npc_name npc +:+ ": " +:+ dquote +:+ node_text node +:+ dquote)
      Dialogue in
  processAction h fuel s (TALK npcId) w =
  Ok (match node_options node with
      | [] => line
      | _ :: _ =>
          setActiveDialogue
            (addLog line (optionTexts (node_options node)) Dialogue)
            (Some (mkActiveDialogue npcId (node_id node)))
      end, w).
Proof.
  intros Halive Hcombat Hnpc Hloc Hin Hhost Hdlg Hpre Hnode line.
  rewrite processAction_alive by done.
  unfold handleTalk. rewrite Hcombat, Hnpc, Hloc.
  apply includes_In in Hin. rewrite Hin. cbn [negb].
  unfold isHostile. rewrite Hhost.
  assert (Hstart : getStartingDialogue npc = Some node).
  { unfold getStartingDialogue. rewrite Hdlg. apply find_first.
    - eapply Forall_impl; [exact Hpre|]. intros n Hn; cbn in Hn.
      apply not_true_is_false. intros Ht. by apply Hn, isStartId_eqb.
    - by apply isStartId_eqb. }
  rewrite Hstart. subst line.
  destruct (node_options node); reflexivity.
Qed.

Lemma talk_starts_at_first_listed_start_node_witness :
  processAction Sample.host 0 Sample.world (TALK "hermit") (Sample.worldOf []) =
  Ok (setActiveDialogue
        (addLog
           (addLog Sample.world
              ("Old Hermit: " +:+ dquote +:+ "*The hermit raises his staff!*"
               +:+ dquote) Dialogue)
           "  1. Stand down." Dialogue)
        (Some (mkActiveDialogue "hermit" "combat")), Sample.worldOf []).
Proof.
  apply (talk_starts_at_first_listed_start_node Sample.host 0 Sample.world
           "hermit" Sample.hermit Sample.square []
           (mkDialogueNode "combat" "*The hermit raises his staff!*"
              [mkDialogueOption "Stand down." None None None])
           [mkDialogueNode "greeting" "Visitors are rare here."
              [mkDialogueOption "Farewell." None None None]]).
  - reflexivity.
  - reflexivity.
  - vm_compute; reflexivity.
  - vm_compute; reflexivity.
  - cbn; auto.
  - reflexivity.
  - reflexivity.
  - constructor.
  - right; right; reflexivity.
Defined.

(** C3, as stated, fails: the hermit has a node named "greeting", so the
    stated preference order asks for it, but his list names "combat" first and
    TALK opens the conversation there. *)
Lemma talk_ignores_preference_order :
  exists s' w',
    processAction Sample.host 0 Sample.world (TALK "hermit") (Sample.worldOf [])
      = Ok (s', w') /\
    hostile Sample.hermit = false /\
    node_id <$> preferredStart Sample.hermit = Some "greeting" /\
    activeDialogue s' = Some (mkActiveDialogue "hermit" "combat") /\
    activeDialogue s' <> Some (mkActiveDialogue "hermit" "greeting").
Proof.
  eexists _, _. split; [vm_compute; reflexivity|].
  repeat split; try reflexivity. cbn. discriminate.
Qed.

(* ================================================================== *)
(** ** MOVE: a refused move and the open conversation *)
(* ================================================================== *)








(* ================================================================== *)
(** ** USE *)
(* ================================================================== *)

Lemma handleUse_potion (s : GameState) (itemId : string) (i : nat) (item : Item)
    (w : World) :
  findIndex (hasId itemId) (inv_items (inventory (character s))) = Some i ->
  inv_items (inventory (character s)) !! i = Some item ->
  item_usable item = true ->
  item_type item = Potion ->
  let healAmount := (floorDraw 4 w + 1) + (floorDraw 4 (advance w) + 1) + 2 in
  let inv := inventory (character s) in
  let c' :=
    setInventory (healCharacter (character s) healAmount)
      (mkInventory (delete i (inv_items inv)) (maxWeight inv)
         (fsub (currentWeight inv) (item_weight item))) in
  handleUse s itemId w =
  Ok (addLog (setCharacter s c')
        ("You use " +:+ item_name item +:+ " and recover " +:+
         showZ healAmount +:+ " hit points. (HP: " +:+
         showZ (hp_current (hitPoints c')) +:+ "/" +:+
         showZ (hp_max (hitPoints c')) +:+ ")") Success,
      advance (advance w)).
Proof.
  intros Hi Hitem Hus Hty. unfold handleUse. rewrite Hi, Hitem, Hus, Hty.
  cbn [negb isPotion].
  rewrite (bind_Ok _ _ w (advance w) (floorDraw 4 w + 1))
    by (apply rollDice_eq; lia).
  rewrite (bind_Ok _ _ (advance w) (advance (advance w))
             (floorDraw 4 (advance w) + 1)) by (apply rollDice_eq; lia).
  reflexivity.
Qed.

Lemma handleUse_flavor (s : GameState) (itemId : string) (i : nat) (item : Item)
    (w : World) :
  findIndex (hasId itemId) (inv_items (inventory (character s))) = Some i ->
  inv_items (inventory (character s)) !! i = Some item ->
  item_usable item = true ->
  item_type item <> Potion ->
  handleUse s itemId w =
  Ok (addLog s ("You use " +:+ item_name item +:+ ". Nothing special happens.")
        Info, w).
Proof.
  intros Hi Hitem Hus Hty. unfold handleUse. rewrite Hi, Hitem, Hus.
  cbn [negb]. destruct (item_type item); try reflexivity. by destruct Hty.
Qed.

(** C2 (amended). When the targeted item is held and is a usable potion, USE
    heals by the sum of two separate d4 rolls plus 2 (2d4+2, so any amount
    from 4 to 10), clamped at max HP, and consumes the potion: it leaves the
    inventory and the current weight drops by its weight, the difference
    being the one that the code computes, [fsub], rounded to the nearest
    double; where the exact difference is itself a double, as for the
    potion of the shop, of weight 0.5, carried with other halves and wholes,
    it is the exact difference.  A held usable item that is not a potion only
    adds a flavor message to the log. *)
Theorem use_potion_heals_two_d4_plus_2
    (h : Host) (fuel : nat) (s : GameState) (itemId : string)
    (pre : list Item) (item : Item) (post : list Item) (w : World) :
  isAlive (character s) = true ->
  firstWithId itemId (inv_items (inventory (character s))) pre item post ->
  item_usable item = true ->
  (item_type item = Potion ->
   exists r1 r2 msg,
     rollDice 4 w = Ok (r1, advance w) /\
     rollDice 4 (advance w) = Ok (r2, advance (advance w)) /\
     1 <= r1 <= 4 /\ 1 <= r2 <= 4 /\
     let c := character s in
     let inv := inventory c in
     let newHP :=
       Z.min (hp_max (hitPoints c)) (hp_current (hitPoints c) + (r1 + r2 + 2)) in
     processAction h fuel s (USE itemId) w =
     Ok (addLog
           (setCharacter s
              (setInventory
                 (setHitPoints c (mkHitPoints newHP (hp_max (hitPoints c))))
                 (mkInventory (pre ++ post) (maxWeight inv)
                    (fsub (currentWeight inv) (item_weight item)))))
           msg Success,
         advance (advance w))) /\
  (item_type item <> Potion ->
   exists msg,
     processAction h fuel s (USE itemId) w = Ok (addLog s msg Info, w)) /\
  (let inv := inventory (character s) in
   smallDouble (currentWeight inv - item_weight item) ->
   (fsub (currentWeight inv) (item_weight item) ==
    currentWeight inv - item_weight item)%Q).
Proof.
  intros Halive Hheld Hus.
  destruct (firstWithId_findIndex _ _ _ _ _ Hheld) as (Hi & Hitem & Hdel).
  rewrite processAction_alive by done. split; [|split; [|apply fl_exact]].
  - intros Hty.
    exists (floorDraw 4 w + 1), (floorDraw 4 (advance w) + 1).
    eexists. split; [apply rollDice_eq; lia|].
    split; [apply rollDice_eq; lia|].
    pose proof (floorDraw_range 4 w ltac:(lia)).
    pose proof (floorDraw_range 4 (advance w) ltac:(lia)).
    split; [lia|]. split; [lia|]. cbn zeta.
    rewrite (handleUse_potion s itemId _ item w Hi Hitem Hus Hty).
    cbn zeta. cbn [inventory healCharacter setHitPoints]. rewrite Hdel.
    reflexivity.
  - intros Hty. eexists.
    apply (handleUse_flavor s itemId _ item w Hi Hitem Hus Hty).
Qed.

Lemma use_potion_heals_two_d4_plus_2_witness :
  exists r1 r2 msg,
    rollDice 4 (Sample.worldOf [Sample.cellFor 3 4; Sample.cellFor 4 4]) =
      Ok (r1, advance (Sample.worldOf [Sample.cellFor 3 4; Sample.cellFor 4 4])) /\
    1 <= r1 <= 4 /\ 1 <= r2 <= 4 /\
    hp_current (hitPoints Sample.hero) + (r1 + r2 + 2) = 14 /\
    processAction Sample.host 0 Sample.world (USE "shop-healing-potion")
      (Sample.worldOf [Sample.cellFor 3 4; Sample.cellFor 4 4]) =
    Ok (addLog
          (setCharacter Sample.world
             (setInventory
                (setHitPoints Sample.hero (mkHitPoints 12 12))
                (mkInventory [Sample.torch; Sample.lantern] 150
                   3%Q)))
          msg Success,
        advance (advance (Sample.worldOf [Sample.cellFor 3 4; Sample.cellFor 4 4]))) /\
    (fsub (7 # 2) (1 # 2) == (7 # 2) - (1 # 2))%Q.
Proof.
  destruct (use_potion_heals_two_d4_plus_2 Sample.host 0 Sample.world
              "shop-healing-potion" [Sample.torch] Sample.healingPotion
              [Sample.lantern]
              (Sample.worldOf [Sample.cellFor 3 4; Sample.cellFor 4 4]))
    as (Hpotion & _ & Hexact).
  - reflexivity.
  - split; [reflexivity|]. split; [reflexivity|].
    constructor; [|constructor]. cbn. discriminate.
  - reflexivity.
  - destruct (Hpotion eq_refl) as (r1 & r2 & msg & H1 & H2 & Hr1 & Hr2 & Hrun).
    exists r1, r2, msg. split; [exact H1|]. split; [exact Hr1|].
    split; [exact Hr2|].
    assert (E1 : r1 = 3) by (vm_compute in H1; congruence).
    assert (E2 : r2 = 4) by (vm_compute in H2; congruence).
    subst r1 r2. split; [reflexivity|]. split; [exact Hrun|].
    apply Hexact. exists 3, 0. split; [lia|]. split; by vm_compute.
Defined.

(** C2, as stated, fails: with the d4 rolls 1 and 2 the potion heals 5, which
    is not [2 * r + 2] for any face [r] of a d4. *)
Lemma use_potion_can_heal_an_odd_amount :
  exists s' w',
    processAction Sample.host 0 Sample.world (USE "shop-healing-potion")
      (Sample.worldOf [Sample.cellFor 1 4; Sample.cellFor 2 4]) = Ok (s', w') /\
    hp_current (hitPoints (character Sample.world)) = 5 /\
    hp_max (hitPoints (character Sample.world)) = 12 /\
    hp_current (hitPoints (character s')) = 10 /\
    forall r, 1 <= r <= 4 ->
      hp_current (hitPoints (character s')) <>
      Z.min (hp_max (hitPoints (character Sample.world)))
            (hp_current (hitPoints (character Sample.world)) + (2 * r + 2)).
Proof.
  eexists _, _. split; [vm_compute; reflexivity|].
  repeat split. intros r Hr. cbn. lia.
Qed.

(** C10. In active combat, with a living character, USE is handled exactly as
    it is outside combat: the call returns, the combat sub-state of the result
    is the input's (flag, enemies, enemyMaxHPs, totalEnemyCount, turn order,
    cursor and round), no attack roll is made, and replacing the combat
    sub-state of the input by any other only replaces it in the result. *)
Theorem use_leaves_combat_alone
    (h : Host) (fuel : nat) (s : GameState) (itemId : string) (w : World) :
  isAlive (character s) = true ->
  active (combat s) = true ->
  exists s' w',
    processAction h fuel s (USE itemId) w = Ok (s', w') /\
    combat s' = combat s /\
    attackCalls w' = attackCalls w /\
    forall cb,
      processAction h fuel (setCombat s cb) (USE itemId) w =
      Ok (setCombat s' cb, w').
Proof.
  intros Halive _.
  assert (Hany : forall cb, processAction h fuel (setCombat s cb) (USE itemId) w
                            = handleUse (setCombat s cb) itemId w).
  { intros cb. by rewrite processAction_alive. }
  rewrite processAction_alive by done.
  destruct (findIndex (hasId itemId) (inv_items (inventory (character s))))
    as [i|] eqn:Hi.
  - destruct (findIndex_Some _ _ _ Hi) as (item & Hitem & _).
    destruct (item_usable item) eqn:Hus.
    + destruct (decide (item_type item = Potion)) as [Hty|Hty].
      * eexists _, _. split; [by apply (handleUse_potion s itemId i item w)|].
        split; [reflexivity|]. split; [reflexivity|].
        intros cb. rewrite Hany.
        by rewrite (handleUse_potion (setCombat s cb) itemId i item w).
      * eexists _, _. split; [by apply (handleUse_flavor s itemId i item w)|].
        split; [reflexivity|]. split; [reflexivity|].
        intros cb. rewrite Hany.
        by rewrite (handleUse_flavor (setCombat s cb) itemId i item w).
    + eexists _, _. unfold handleUse. rewrite Hi, Hitem, Hus. cbn [negb].
      split; [reflexivity|]. split; [reflexivity|]. split; [reflexivity|].
      intros cb. rewrite Hany. unfold handleUse. cbn [setCombat character].
      by rewrite Hi, Hitem, Hus.
  - eexists _, _. unfold handleUse. rewrite Hi.
    split; [reflexivity|]. split; [reflexivity|]. split; [reflexivity|].
    intros cb. rewrite Hany. unfold handleUse. cbn [setCombat character].
    by rewrite Hi.
Qed.

Lemma use_leaves_combat_alone_witness :
  exists s' w',
    processAction Sample.host 0 Sample.fighting (USE "shop-healing-potion")
      (Sample.worldOf [Sample.cellFor 1 4; Sample.cellFor 2 4]) = Ok (s', w') /\
    combat s' = combat Sample.fighting /\
    attackCalls w' = [] /\
    forall cb,
      processAction Sample.host 0 (setCombat Sample.fighting cb)
        (USE "shop-healing-potion")
        (Sample.worldOf [Sample.cellFor 1 4; Sample.cellFor 2 4]) =
      Ok (setCombat s' cb, w').
Proof.
  apply (use_leaves_combat_alone Sample.host 0 Sample.fighting
           "shop-healing-potion"
           (Sample.worldOf [Sample.cellFor 1 4; Sample.cellFor 2 4]));
    reflexivity.
Defined.

(* ================================================================== *)
(** ** TAKE and BUY: the carrying capacity *)
(* ================================================================== *)

Lemma handleTake_capacity (h : Host) (s s' : GameState) (itemId : string)
    (w w' : World) :
  withinCapacity s -> handleTake h s itemId w = Ok (s', w') -> withinCapacity s'.
Proof.
  intros Hcap H. unfold handleTake, ret, typeError, throw in H.
  repeat case_match; simplify_eq; try exact Hcap.
  unfold withinCapacity. cbn. by apply Qgtb_false.
Qed.

Lemma handleBuy_capacity (s s' : GameState) (itemId npcId : string)
    (w w' : World) :
  withinCapacity s -> handleBuy s itemId npcId w = Ok (s', w') ->
  withinCapacity s'.
Proof.
  intros Hcap H. unfold handleBuy, ret, typeError, throw in H.
  repeat case_match; simplify_eq; try exact Hcap.
  unfold withinCapacity. cbn. by apply Qgtb_false.
Qed.

Lemma shopOf_Some (s : GameState) (npcId : string) (npc : NPC)
    (sh : ShopInventory) :
  npcs s !! npcId = Some npc -> shop npc = Some sh ->
  shopOf s npcId = Some (npc, sh).
Proof. intros H1 H2. unfold shopOf. by rewrite H1, H2. Qed.

(** C5 (amended). If the inventory of the state satisfies
    currentWeight <= maxWeight, so does the inventory of every state that
    TAKE or BUY returns.  The new weight is the sum that the code computes,
    [fadd]: the current weight plus the weight of the item, rounded to the
    nearest double.  When the item is there to take (or on sale and
    affordable) and this rounded sum is over the maximum, the action is
    refused with a warning and nothing but the log changes; otherwise the
    item is appended to the inventory and the rounded sum becomes the current
    weight.  Where the exact sum is itself a double, the weight grows by
    exactly the weight of the item. *)
Theorem take_buy_respect_capacity
    (h : Host) (fuel : nat) (s : GameState) (w : World) :
  withinCapacity s ->
  (forall itemId s' w',
     processAction h fuel s (TAKE itemId) w = Ok (s', w') -> withinCapacity s') /\
  (forall itemId npcId s' w',
     processAction h fuel s (BUY itemId npcId) w = Ok (s', w') ->
     withinCapacity s') /\
  (forall itemId location pre item post,
     isAlive (character s) = true ->
     active (combat s) = false ->
     locations s !! currentLocationId s = Some location ->
     firstWithId itemId (loc_items location) pre item post ->
     let inv := inventory (character s) in
     ((maxWeight inv < fadd (currentWeight inv) (item_weight item))%Q ->
      exists msg,
        processAction h fuel s (TAKE itemId) w = Ok (addLog s msg Warning, w)) /\
     ((fadd (currentWeight inv) (item_weight item) <= maxWeight inv)%Q ->
      exists s',
        processAction h fuel s (TAKE itemId) w = Ok (s', w) /\
        inventory (character s') =
        mkInventory (inv_items inv ++ [item]) (maxWeight inv)
          (fadd (currentWeight inv) (item_weight item)))) /\
  (forall itemId npcId npc sh pre item post,
     isAlive (character s) = true ->
     active (combat s) = false ->
     npcs s !! npcId = Some npc ->
     shop npc = Some sh ->
     firstWithId itemId (shop_items sh) pre item post ->
     Qceiling (fmul (inject_Z (item_value item)) (buyMultiplier sh))
       <= gold (character s) ->
     let inv := inventory (character s) in
     ((maxWeight inv < fadd (currentWeight inv) (item_weight item))%Q ->
      exists msg,
        processAction h fuel s (BUY itemId npcId) w =
        Ok (addLog s msg Warning, w)) /\
     ((fadd (currentWeight inv) (item_weight item) <= maxWeight inv)%Q ->
      exists s',
        processAction h fuel s (BUY itemId npcId) w = Ok (s', w) /\
        inventory (character s') =
        mkInventory (inv_items inv ++ [item]) (maxWeight inv)
          (fadd (currentWeight inv) (item_weight item)))) /\
  (forall item,
     let inv := inventory (character s) in
     smallDouble (currentWeight inv + item_weight item) ->
     (fadd (currentWeight inv) (item_weight item) ==
      currentWeight inv + item_weight item)%Q).
Proof.
  intros Hcap. split; [|split; [|split; [|split]]];
    [| | | |intros item inv; apply fl_exact].
  - intros itemId s' w' H. unfold processAction in H.
    destruct (negb (isAlive (character s)) && negb (isLoadGame (TAKE itemId)))%bool.
    + unfold ret in H. by simplify_eq.
    + by eapply handleTake_capacity.
  - intros itemId npcId s' w' H. unfold processAction in H.
    destruct (negb (isAlive (character s)) &&
              negb (isLoadGame (BUY itemId npcId)))%bool.
    + unfold ret in H. by simplify_eq.
    + by eapply handleBuy_capacity.
  - intros itemId location pre item post Halive Hcombat Hloc Hthere inv.
    destruct (firstWithId_findIndex _ _ _ _ _ Hthere) as (Hi & Hitem & Hdel).
    rewrite processAction_alive by done. unfold handleTake.
    rewrite Hcombat, Hloc, Hi, Hitem. fold inv. split.
    + intros Hover. apply Qgtb_true in Hover. rewrite Hover.
      eexists. reflexivity.
    + intros Hfits. apply Qgtb_false in Hfits. rewrite Hfits.
      eexists. split; reflexivity.
  - intros itemId npcId npc sh pre item post Halive Hcombat Hnpc Hshop Hsale
      Hgold inv.
    destruct (firstWithId_findIndex _ _ _ _ _ Hsale) as (Hi & Hitem & Hdel).
    rewrite processAction_alive by done. unfold handleBuy.
    rewrite Hcombat, (shopOf_Some s npcId npc sh Hnpc Hshop), Hi, Hitem.
    destruct (gold (character s) <? _) eqn:Hg; [apply Z.ltb_lt in Hg; lia|].
    fold inv. split.
    + intros Hover. apply Qgtb_true in Hover. rewrite Hover.
      eexists. reflexivity.
    + intros Hfits. apply Qgtb_false in Hfits. rewrite Hfits.
      eexists. split; reflexivity.
Qed.

Lemma take_buy_respect_capacity_witness :
  withinCapacity Sample.world /\
  (exists msg,
     processAction Sample.host 0 Sample.world (TAKE "anvil") (Sample.worldOf [])
     = Ok (addLog Sample.world msg Warning, Sample.worldOf [])) /\
  (exists s',
     processAction Sample.host 0 Sample.world (TAKE "shop-longsword")
       (Sample.worldOf []) = Ok (s', Sample.worldOf []) /\
     inventory (character s') =
     mkInventory
       [Sample.torch; Sample.healingPotion; Sample.lantern; Sample.longsword]
       150 (13 # 2)%Q /\
     withinCapacity s') /\
  (exists msg,
     processAction Sample.host 0 Sample.world (BUY "anvil" "shopkeeper")
       (Sample.worldOf [])
     = Ok (addLog Sample.world msg Warning, Sample.worldOf [])) /\
  (exists s',
     processAction Sample.host 0 Sample.world (BUY "shop-longsword" "shopkeeper")
       (Sample.worldOf []) = Ok (s', Sample.worldOf []) /\
     inventory (character s') =
     mkInventory
       [Sample.torch; Sample.healingPotion; Sample.lantern; Sample.longsword]
       150 (13 # 2)%Q /\
     withinCapacity s') /\
  (fadd (7 # 2) 3 == (7 # 2) + 3)%Q.
Proof.
  assert (Hcap : withinCapacity Sample.world) by (vm_compute; discriminate).
  destruct (take_buy_respect_capacity Sample.host 0 Sample.world
              (Sample.worldOf []) Hcap)
    as (Htake & Hbuy & Htake' & Hbuy' & Hexact).
  split; [exact Hcap|]. split; [|split; [|split; [|split]]].
  - destruct (Htake' "anvil" Sample.square [Sample.longsword] Sample.anvil [])
      as [Hrefuse _]; try reflexivity.
    { split; [reflexivity|]. split; [reflexivity|].
      constructor; [|constructor]. cbn. discriminate. }
    apply Hrefuse. vm_compute; reflexivity.
  - destruct (Htake' "shop-longsword" Sample.square [] Sample.longsword
                [Sample.anvil]) as [_ Hfits]; try reflexivity.
    { split; [reflexivity|]. split; [reflexivity|]. constructor. }
    destruct Hfits as (s' & Hrun & Hinv); [vm_compute; discriminate|].
    exists s'. split; [exact Hrun|]. split; [exact Hinv|].
    by apply (Htake "shop-longsword" s' (Sample.worldOf [])).
  - destruct (Hbuy' "anvil" "shopkeeper" Sample.shopkeeper
                (mkShopInventory
                   [Sample.healingPotion; Sample.longsword; Sample.anvil]
                   (3 # 2) (1 # 2))
                [Sample.healingPotion; Sample.longsword] Sample.anvil [])
      as [Hrefuse _]; try reflexivity.
    { split; [reflexivity|]. split; [reflexivity|].
      constructor; [|constructor; [|constructor]]; cbn; discriminate. }
    { vm_compute; discriminate. }
    apply Hrefuse. vm_compute; reflexivity.
  - destruct (Hbuy' "shop-longsword" "shopkeeper" Sample.shopkeeper
                (mkShopInventory
                   [Sample.healingPotion; Sample.longsword; Sample.anvil]
                   (3 # 2) (1 # 2))
                [Sample.healingPotion] Sample.longsword [Sample.anvil])
      as [_ Hfits]; try reflexivity.
    { split; [reflexivity|]. split; [reflexivity|].
      constructor; [|constructor]; cbn; discriminate. }
    { vm_compute; discriminate. }
    destruct Hfits as (s' & Hrun & Hinv); [vm_compute; discriminate|].
    exists s'. split; [exact Hrun|]. split; [exact Hinv|].
    by apply (Hbuy "shop-longsword" "shopkeeper" s' (Sample.worldOf [])).
  - apply (Hexact Sample.longsword). exists 13, 1.
    split; [lia|]. split; by vm_compute.
Defined.

(** C5, as stated, fails where the sum is rounded.  With 64.5 carried, the
    key of weight 0.2 is taken, and the weight recorded differs from 64.5
    plus the weight of the key: taking 64.5 off again, as the code would,
    does not give the weight of the key back.  With 0.1 carried out of 0.3,
    the same key is refused, although 0.1 + 0.2 <= 0.3.  With 1 carried out
    of 1, the mote of weight 2^-53 is taken although 1 + 2^-53 is over the
    capacity: the sum rounds to 1, and the weight recorded does not grow. *)
Lemma take_records_the_rounded_sum :
  (exists s' w',
     processAction Sample.host 0 Ledger.laden (TAKE "ancient-key")
       (Sample.worldOf []) = Ok (s', w') /\
     currentWeight (inventory (character Ledger.laden)) = (129 # 2)%Q /\
     inv_items (inventory (character s')) =
       [Ledger.chainMail; Ledger.pack; Ledger.ancientKey] /\
     ~ (currentWeight (inventory (character s')) ==
        (129 # 2) + item_weight Ledger.ancientKey)%Q /\
     ~ (fsub (currentWeight (inventory (character s'))) (129 # 2) ==
        item_weight Ledger.ancientKey)%Q) /\
  (exists s' w',
     processAction Sample.host 0 Ledger.brim (TAKE "ancient-key")
       (Sample.worldOf []) = Ok (s', w') /\
     log_type <$> last (gameLog s') = Some Warning /\
     inventory (character s') = inventory (character Ledger.brim) /\
     currentWeight (inventory (character Ledger.brim)) = fl (1 # 10) /\
     item_weight Ledger.ancientKey = fl (1 # 5) /\
     maxWeight (inventory (character Ledger.brim)) = fl (3 # 10) /\
     ((1 # 10) + (1 # 5) <= 3 # 10)%Q) /\
  (exists s' w',
     processAction Sample.host 0 Ledger.full (TAKE "mote")
       (Sample.worldOf []) = Ok (s', w') /\
     (maxWeight (inventory (character Ledger.full)) <
      currentWeight (inventory (character Ledger.full)) +
      item_weight Ledger.mote)%Q /\
     inv_items (inventory (character s')) = [Ledger.stone; Ledger.mote] /\
     currentWeight (inventory (character s')) =
     currentWeight (inventory (character Ledger.full))).
Proof.
  split; [|split].
  - eexists _, _. split; [vm_compute; reflexivity|].
    split; [reflexivity|]. split; [reflexivity|].
    split; vm_compute; discriminate.
  - eexists _, _. split; [vm_compute; reflexivity|].
    repeat split. vm_compute; discriminate.
  - eexists _, _. split; [vm_compute; reflexivity|].
    repeat split.
Qed.

(* ================================================================== *)
(** ** BUY and SELL: prices *)
(* ================================================================== *)

(** C9 (amended). The product of the value and a multiplier is the one that
    the code computes, [fmul]: the exact product rounded to the nearest
    double.  A successful BUY charges the ceiling of that product of the
    value and the buyMultiplier: the gold drops by exactly that price, the
    item leaves the shop's list and is appended to the inventory.  A SELL
    pays the floor of that product of the value and the sellMultiplier: the
    gold grows by exactly that price, the item leaves the inventory and is
    appended to the shop's list.  Where the exact product is itself a
    double, as with the multipliers 1.5 and 0.5, the prices are the ceiling
    and the floor of the exact product. *)
Theorem buy_rounds_up_sell_rounds_down
    (h : Host) (fuel : nat) (s : GameState) (itemId npcId : string) (npc : NPC)
    (sh : ShopInventory) (w : World) :
  isAlive (character s) = true ->
  active (combat s) = false ->
  npcs s !! npcId = Some npc ->
  shop npc = Some sh ->
  let c := character s in
  let inv := inventory c in
  (forall pre item post,
     firstWithId itemId (shop_items sh) pre item post ->
     let price := Qceiling (fmul (inject_Z (item_value item)) (buyMultiplier sh)) in
     price <= gold c ->
     (fadd (currentWeight inv) (item_weight item) <= maxWeight inv)%Q ->
     exists msg,
       processAction h fuel s (BUY itemId npcId) w =
       Ok (addLog
             (setNpcs
                (setCharacter s
                   (setInventory (setGold c (gold c - price))
                      (mkInventory (inv_items inv ++ [item]) (maxWeight inv)
                         (fadd (currentWeight inv) (item_weight item)))))
                (<[npcId := setShopItems npc sh (pre ++ post)]> (npcs s)))
             msg Success, w)) /\
  (forall pre item post,
     firstWithId itemId (inv_items inv) pre item post ->
     let price := Qfloor (fmul (inject_Z (item_value item)) (sellMultiplier sh)) in
     exists msg,
       processAction h fuel s (SELL itemId npcId) w =
       Ok (addLog
             (setNpcs
                (setCharacter s
                   (setInventory (setGold c (gold c + price))
                      (mkInventory (pre ++ post) (maxWeight inv)
                         (fsub (currentWeight inv) (item_weight item)))))
                (<[npcId := setShopItems npc sh (shop_items sh ++ [item])]>
                   (npcs s)))
             msg Success, w)) /\
  (forall item multiplier,
     let product := (inject_Z (item_value item) * multiplier)%Q in
     smallDouble product ->
     Qceiling (fmul (inject_Z (item_value item)) multiplier) = Qceiling product /\
     Qfloor (fmul (inject_Z (item_value item)) multiplier) = Qfloor product).
Proof.
  intros Halive Hcombat Hnpc Hshop c inv. split; [|split].
  - intros pre item post Hheld price Hgold Hfits.
    destruct (firstWithId_findIndex _ _ _ _ _ Hheld) as (Hi & Hitem & Hdel).
    rewrite processAction_alive by done. unfold handleBuy.
    rewrite Hcombat, (shopOf_Some s npcId npc sh Hnpc Hshop), Hi, Hitem.
    fold c. fold price.
    destruct (gold c <? price) eqn:Hg; [apply Z.ltb_lt in Hg; lia|].
    fold inv. apply Qgtb_false in Hfits. rewrite Hfits, Hdel.
    eexists. reflexivity.
  - intros pre item post Hheld price.
    destruct (firstWithId_findIndex _ _ _ _ _ Hheld) as (Hi & Hitem & Hdel).
    rewrite processAction_alive by done. unfold handleSell.
    rewrite Hcombat, (shopOf_Some s npcId npc sh Hnpc Hshop).
    fold c. fold inv. rewrite Hi, Hitem, Hdel.
    eexists. reflexivity.
  - intros item multiplier product Hexact. unfold fmul. fold product.
    split; [apply Qceiling_comp|apply Qfloor_comp]; by apply fl_exact.
Qed.

(** The longsword, worth 15, costs 23 at the shopkeeper's 1.5 and fetches 7 at
    her 0.5. *)
Lemma buy_rounds_up_sell_rounds_down_witness :
  (exists s',
     processAction Sample.host 0 Sample.armed (BUY "shop-longsword" "shopkeeper")
       (Sample.worldOf []) = Ok (s', Sample.worldOf []) /\
     gold (character Sample.armed) = 100 /\
     gold (character s') = 100 - 23 /\
     inv_items (inventory (character s')) =
       [Sample.longsword; Sample.healingPotion; Sample.longsword] /\
     shop_items <$> (npcs s' !! "shopkeeper" ≫= shop) =
       Some [Sample.healingPotion; Sample.anvil]) /\
  (exists s',
     processAction Sample.host 0 Sample.armed (SELL "shop-longsword" "shopkeeper")
       (Sample.worldOf []) = Ok (s', Sample.worldOf []) /\
     gold (character s') = 100 + 7 /\
     inv_items (inventory (character s')) = [Sample.healingPotion] /\
     shop_items <$> (npcs s' !! "shopkeeper" ≫= shop) =
       Some [Sample.healingPotion; Sample.longsword; Sample.anvil;
             Sample.longsword]) /\
  Qceiling (fmul 15 (3 # 2)) = Qceiling (15 * (3 # 2)) /\
  Qfloor (fmul 15 (1 # 2)) = Qfloor (15 * (1 # 2)).
Proof.
  destruct (buy_rounds_up_sell_rounds_down Sample.host 0 Sample.armed
              "shop-longsword" "shopkeeper" Sample.shopkeeper
              (mkShopInventory
                 [Sample.healingPotion; Sample.longsword; Sample.anvil]
                 (3 # 2) (1 # 2)) (Sample.worldOf []))
    as (Hbuy & Hsell & Hexact); try reflexivity.
  split; [|split; [|split]].
  - destruct (Hbuy [Sample.healingPotion] Sample.longsword [Sample.anvil])
      as [msg Hrun].
    + split; [reflexivity|]. split; [reflexivity|].
      constructor; [|constructor]; cbn; discriminate.
    + vm_compute; discriminate.
    + vm_compute; discriminate.
    + eexists. split; [exact Hrun|]. repeat split.
  - destruct (Hsell [] Sample.longsword [Sample.healingPotion]) as [msg Hrun].
    + split; [reflexivity|]. split; [reflexivity|]. constructor.
    + eexists. split; [exact Hrun|]. repeat split.
  - apply (Hexact Sample.longsword (3 # 2)%Q). exists 45, 1.
    split; [lia|]. split; by vm_compute.
  - apply (Hexact Sample.longsword (1 # 2)%Q). exists 15, 1.
    split; [lia|]. split; by vm_compute.
Defined.

(** C9, as stated, fails where the product is rounded.  At the trader's,
    who sells at 1.1 and buys at 0.7, the key of value 50 costs 56 gold,
    not ceil(50 * 1.1) = 55, and the mirror of value 90 sells for 62 gold,
    not floor(90 * 0.7) = 63.  Reading 1.1 and 0.7 as the doubles that the
    program holds does not help: the rope of value 10 costs 11 and sells for
    7, while the ceiling and the floor of the exact products with these
    doubles are 12 and 6. *)
Lemma prices_round_the_product_first :
  (exists s' w',
     processAction Sample.host 0 Ledger.market (BUY "ancient-key" "trader")
       (Sample.worldOf []) = Ok (s', w') /\
     gold (character Ledger.market) = 100 /\
     gold (character s') = 100 - 56 /\
     item_value Ledger.ancientKey = 50 /\
     (buyMultiplier <$> shop Ledger.trader) = Some (fl (11 # 10)) /\
     Qceiling (50 * (11 # 10)) = 55) /\
  (exists s' w',
     processAction Sample.host 0 Ledger.market (SELL "mirror" "trader")
       (Sample.worldOf []) = Ok (s', w') /\
     gold (character s') = 100 + 62 /\
     item_value Ledger.mirror = 90 /\
     (sellMultiplier <$> shop Ledger.trader) = Some (fl (7 # 10)) /\
     Qfloor (90 * (7 # 10)) = 63) /\
  (exists s' w',
     processAction Sample.host 0 Ledger.market (BUY "rope" "trader")
       (Sample.worldOf []) = Ok (s', w') /\
     gold (character s') = 100 - 11 /\
     item_value Ledger.rope = 10 /\
     Qceiling (10 * fl (11 # 10)) = 12) /\
  (exists s' w',
     processAction Sample.host 0 Ledger.market (SELL "rope" "trader")
       (Sample.worldOf []) = Ok (s', w') /\
     gold (character s') = 100 + 7 /\
     Qfloor (10 * fl (7 # 10)) = 6).
Proof.
  repeat split;
    eexists _, _; (split; [vm_compute; reflexivity|]); by repeat split.
Qed.

(* ================================================================== *)
(** ** Rewards *)
(* ================================================================== *)

Lemma goldLoop_eq (n : nat) (acc : Z) (w : World) :
  goldLoop n acc w = Ok (acc + sumZ (goldDraws n w), advanceN n w).
Proof.
  revert acc w. induction n as [|n IH]; intros acc w;
    cbn [goldLoop goldDraws advanceN].
  - unfold ret, sumZ. cbn [foldr]. by rewrite Z.add_0_r.
  - rewrite (bind_Ok _ _ w (advance w) _ (Math_random_eq w)).
    fold (floorDraw 41 w). rewrite IH. unfold sumZ. cbn [foldr].
    do 2 f_equal. lia.
Qed.

Lemma goldDraws_length (n : nat) (w : World) : length (goldDraws n w) = n.
Proof. revert w. induction n as [|n IH]; intros w; simpl; auto. Qed.

Lemma goldDraws_range (n : nat) (w : World) :
  Forall (fun d => 10 <= d <= 50) (goldDraws n w).
Proof.
  revert w. induction n as [|n IH]; intros w; cbn [goldDraws];
    constructor; auto.
  pose proof (floorDraw_range 41 w ltac:(lia)). lia.
Qed.

Lemma reachableFrom_count (es : list NPC) (cb : CombatState) :
  reachableFrom es cb -> totalEnemyCount cb = lengthZ es.
Proof.
  induction 1 as [c w w' cb H|cb _ IH|cb enemyId dmg _ IH].
  - unfold initiateCombat, bind, ret in H.
    destruct (determineTurnOrder c es w) as [[o w1]| |]; by simplify_eq.
  - unfold nextTurn. by destruct (_ >=? _).
  - exact IH.
Qed.

(** C8. For a combat state reached from [initiateCombat] on a non-empty enemy
    list, [endCombat] returns experience [totalEnemyCount * 100] and, as gold,
    the sum of [totalEnemyCount] draws, one call of [Math.random()] each and
    each between 10 and 50; [totalEnemyCount] is the length of the list the
    fight started with, whatever is left of the live [enemies] array. *)
Theorem rewards_follow_the_starting_count
    (es : list NPC) (cb : CombatState) (w : World) :
  es <> [] ->
  reachableFrom es cb ->
  let n := length es in
  totalEnemyCount cb = Z.of_nat n /\
  endCombat cb w =
    Ok ((totalEnemyCount cb * 100, sumZ (goldDraws n w)), advanceN n w) /\
  length (goldDraws n w) = n /\
  Forall (fun d => 10 <= d <= 50) (goldDraws n w).
Proof.
  intros Hne Hreach n.
  pose proof (reachableFrom_count es cb Hreach) as Hcount.
  split; [exact Hcount|]. split; [|split].
  - unfold endCombat, orElseZ. rewrite Hcount.
    assert (Hpos : lengthZ es <> 0).
    { unfold lengthZ. destruct es; [done|]. simpl. lia. }
    apply Z.eqb_neq in Hpos. rewrite Hpos.
    unfold lengthZ. rewrite Nat2Z.id.
    rewrite (bind_Ok _ _ w (advanceN n w) (0 + sumZ (goldDraws n w)))
      by apply goldLoop_eq.
    reflexivity.
  - apply goldDraws_length.
  - apply goldDraws_range.
Qed.

(** One goblin of 15 hit points, struck for 15: no live enemy is left, the
    fight is over, and the rewards are those of one enemy. *)
Lemma rewards_follow_the_starting_count_witness :
  let cb := upd_combat (updateEnemyHP Sample.goblinFight "goblin-1" 15) in
  enemies cb = [] /\
  shouldEndCombat cb = (true, true) /\
  totalEnemyCount cb = 1 /\
  exists w',
    endCombat cb (Sample.worldOf [Sample.cellFor 41 41]) = Ok ((100, 50), w').
Proof.
  intros cb.
  assert (Hstart :
    initiateCombat Sample.hero [Sample.goblin]
      (Sample.worldOf [Sample.cellFor 10 20; Sample.cellFor 5 20]) =
    Ok (Sample.goblinFight,
        advanceN 2 (Sample.worldOf [Sample.cellFor 10 20; Sample.cellFor 5 20])))
    by (vm_compute; reflexivity).
  destruct (rewards_follow_the_starting_count [Sample.goblin] cb
              (Sample.worldOf [Sample.cellFor 41 41]))
    as (Hcount & Hend & _ & _).
  - discriminate.
  - apply reach_damage. eapply reach_start. exact Hstart.
  - split; [reflexivity|]. split; [reflexivity|]. split; [exact Hcount|].
    eexists. rewrite Hend. vm_compute. reflexivity.
Defined.

(* ================================================================== *)
(** ** ATTACK: victory and the locations *)
(* ================================================================== *)

Lemma pruneDefeated_nil (loc : Location) : pruneDefeated [] loc = loc.
Proof.
  unfold pruneDefeated.
  assert (E : List.filter (fun id => negb (includes [] id)) (loc_npcs loc)
              = loc_npcs loc).
  { induction (loc_npcs loc) as [|x l IH]; [done|].
    change (x :: List.filter (fun id => negb (includes [] id)) l = x :: l).
    by rewrite IH. }
  rewrite E, Nat.eqb_refl. by destruct loc.
Qed.

Lemma updateEnemyHP_keeps_only_standing (cb : CombatState) (enemyId : string)
    (dmg : Z) :
  Forall (fun e => stats e <> None) (enemies cb) ->
  Forall (fun e => exists st, stats e = Some st /\ 0 < stat_hitPoints st)
    (enemies (upd_combat (updateEnemyHP cb enemyId dmg))).
Proof.
  intros Hall. cbn. apply Forall_forall. intros e He.
  apply list_elem_of_In, filter_In in He as [Hin Hstand].
  apply in_map_iff in Hin as (e0 & He0 & Hin0).
  rewrite Forall_forall in Hall.
  specialize (Hall e0 ltac:(by apply list_elem_of_In)).
  unfold stillStanding in Hstand.
  destruct (stats e) as [st|] eqn:Hst.
  - exists st. split; [done|]. by apply Z.ltb_lt.
  - destruct (stats e0) as [st0|] eqn:Hst0; [|done].
    destruct (String.eqb (npc_id e0) enemyId); subst e; cbn in Hst; congruence.
Qed.

(** Why no victory won by damage prunes anything: in a fight whose enemies all
    have stats (the only fights that MOVE and ATTACK start), [updateEnemyHP]
    keeps just the enemies with hit points left, so when [shouldEndCombat]
    reports victory the live list is empty, and with it the list of ids that
    [handleCombatVictory] removes from the locations. *)
Lemma settling_after_a_kill_keeps_locations (s s' : GameState)
    (cb : CombatState) (targetId : string) (dmg : Z) (w w' : World) :
  Forall (fun e => stats e <> None) (enemies cb) ->
  shouldEndCombat (upd_combat (updateEnemyHP cb targetId dmg)) = (true, true) ->
  handleCombatVictory (setCombat s (upd_combat (updateEnemyHP cb targetId dmg))) w
    = Ok (s', w') ->
  enemies (upd_combat (updateEnemyHP cb targetId dmg)) = [] /\
  locations s' = locations s.
Proof.
  intros Hstats Hend Hrun.
  pose proof (updateEnemyHP_keeps_only_standing cb targetId dmg Hstats) as Hup.
  remember (upd_combat (updateEnemyHP cb targetId dmg)) as cb' eqn:Hcb' in *.
  clear Hcb'.
  assert (Hnil : enemies cb' = []).
  { unfold shouldEndCombat in Hend.
    assert (Hall : forallb outOfTheFight (enemies cb') = true) by congruence.
    destruct (enemies cb') as [|e l]; [done|]. exfalso.
    cbn in Hall. apply andb_true_iff in Hall as [He _].
    inversion Hup as [|? ? (st & Hst & Hpos) _]; subst.
    unfold outOfTheFight in He. rewrite Hst in He. apply Z.leb_le in He. lia. }
  split; [exact Hnil|].
  unfold handleCombatVictory, bind in Hrun.
  destruct (endCombat _ w) as [[[xp gp] w1]| |]; [|done|done].
  destruct (awardExperience _ xp w1) as [[[c' up] w2]| |]; [|done|done].
  unfold ret in Hrun. injection Hrun as Hs' _. subst s'.
  cbn [combat setCombat]. rewrite Hnil. cbn [map].
  destruct up; cbn [locations setLocations addLog setGameLog setCombat
                    setCharacter];
    apply map_eq; intros i; rewrite lookup_fmap;
    destruct (locations s !! i); cbn; by rewrite ?pruneDefeated_nil.
Qed.

(** C1 on the code.  In the cave, the hero attacks the goblin and kills it
    with a critical hit: the fight is won and settled (100 XP, 50 gold, combat
    reset), yet the goblin's id is still in the cave's NPC list, and no
    location has changed at all.  [updateEnemyHP] had already dropped the
    goblin from [combat.enemies], the list that [handleCombatVictory] takes
    the ids to remove from. *)
Lemma victory_leaves_the_defeated_in_place :
  exists s' w',
    processAction Sample.host 2 Sample.inCave (ATTACK "goblin-1")
      (Sample.worldOf
         [Sample.cellFor 10 20; Sample.cellFor 5 20; Sample.cellFor 20 20;
          Sample.cellFor 8 8; Sample.cellFor 41 41]) = Ok (s', w') /\
    map log_message (gameLog s') =
      ["You attack Goblin!";
       "CRITICAL HIT! Aldric strikes Goblin for 22 damage!";
       "Goblin has been defeated!";
       "Victory! You gained 100 XP and 50 gold."] /\
    combat s' = noCombat /\
    experience (character s') = 100 /\
    gold (character s') = 150 /\
    loc_npcs <$> locations s' !! "cave" = Some ["goblin-1"] /\
    locations s' = locations Sample.inCave.
Proof.
  eexists _, _. split; [vm_compute; reflexivity|].
  repeat split.
Qed.

(* ================================================================== *)
(** ** DEFEND and the enemy-turn loop *)
(* ================================================================== *)

Lemma rollDamageLoop_post (n : nat) (sides total : Z) (w : World) :
  match rollDamageLoop n sides total w with
  | Ok (_, w') => attackCalls w' = attackCalls w
  | Throw _ => n <> O /\ sides < 1
  | OutOfFuel => False
  end.
Proof.
  revert total w. induction n as [|n IH]; intros total w;
    cbn [rollDamageLoop]; [reflexivity|].
  destruct (Z.lt_ge_cases sides 1) as [Hlt|Hge].
  - unfold bind, rollDice. apply Z.ltb_lt in Hlt as Hb. rewrite Hb.
    cbn. split; [discriminate|done].
  - rewrite (bind_Ok _ _ w (advance w) _ (rollDice_eq sides w Hge)).
    specialize (IH (total + (floorDraw sides w + 1)) (advance w)).
    destruct (rollDamageLoop n sides _ (advance w)) as [[t w']| |]; [done| |done].
    lia.
Qed.

Lemma rollDamage_post (s : string) (w : World) :
  match rollDamage s w with
  | Ok (_, w') => attackCalls w' = attackCalls w
  | Throw _ => validDamage s = false
  | OutOfFuel => False
  end.
Proof.
  unfold rollDamage, validDamage.
  destruct (matchDamage s) as [[[dice sides] m]|]; [|reflexivity].
  unfold bind. pose proof (rollDamageLoop_post (Z.to_nat dice) sides m w) as H.
  destruct (rollDamageLoop (Z.to_nat dice) sides m w) as [[t w']| |];
    [exact H| |done].
  destruct H as [Hn Hs]. apply orb_false_iff. split.
  - apply Z.leb_gt. lia.
  - apply Z.leb_gt. lia.
Qed.

Lemma makeAttackRoll_calls (bonus targetAC : Z) (w : World) :
  exists r w',
    makeAttackRoll bonus targetAC w = Ok (r, w') /\
    attackCalls w' = attackCalls w ++ [mkAttackCall bonus targetAC].
Proof.
  unfold makeAttackRoll, bind, recordAttackCall.
  rewrite rollDice_eq by lia. eexists _, _. split; reflexivity.
Qed.

Lemma enemyAttack_post (e : NPC) (st : Stats) (c : Character) (w : World) :
  stats e = Some st ->
  match enemyAttack e c w with
  | Ok (_, w') =>
      attackCalls w' =
      attackCalls w ++ [mkAttackCall (attackBonus st) (armorClass c)]
  | Throw _ => validDamage (stat_damage st) = false
  | OutOfFuel => False
  end.
Proof.
  intros Hst. unfold enemyAttack. rewrite Hst.
  destruct (makeAttackRoll_calls (attackBonus st) (armorClass c) w)
    as (r & w1 & Hroll & Hcalls).
  rewrite (bind_Ok _ _ w w1 r Hroll).
  pose proof (rollDamage_post (stat_damage st) w1) as Hd.
  destruct (critical r).
  - unfold bind. destruct (rollDamage (stat_damage st) w1) as [[d w2]| |];
      [cbn; congruence|done|done].
  - destruct (hits r).
    + unfold bind. destruct (rollDamage (stat_damage st) w1) as [[d w2]| |];
        [cbn; congruence|done|done].
    + destruct (criticalFail r); exact Hcalls.
Qed.

Lemma nthZ_Some_range {A} (l : list A) (k : Z) (x : A) :
  nthZ l k = Some x -> 0 <= k < lengthZ l.
Proof.
  unfold nthZ, lengthZ. destruct (k <? 0) eqn:E; [discriminate|].
  intros H. apply Z.ltb_ge in E. apply lookup_lt_Some in H. lia.
Qed.

Lemma turnsUntil_next (k idx len : Z) :
  0 <= k < len -> 0 <= idx < len -> idx <> k ->
  let idx' := if idx + 1 >=? len then 0 else idx + 1 in
  0 <= idx' < len /\
  turnsUntil k idx' len = turnsUntil k idx len - 1 /\
  1 <= turnsUntil k idx len.
Proof.
  intros Hk Hidx Hne. cbn zeta. unfold turnsUntil.
  destruct (idx + 1 >=? len) eqn:E1;
    [apply Z.geb_le in E1|rewrite Z.geb_leb in E1; apply Z.leb_gt in E1];
    repeat match goal with
           | |- context [?a <=? ?b] =>
               destruct (Z.leb_spec a b)
           end; lia.
Qed.

Lemma nextTurn_cursor (cb : CombatState) :
  currentTurnIndex (nextTurn cb) =
    (if currentTurnIndex cb + 1 >=? lengthZ (turnOrder cb) then 0
     else currentTurnIndex cb + 1) /\
  turnOrder (nextTurn cb) = turnOrder cb /\
  enemies (nextTurn cb) = enemies cb.
Proof. unfold nextTurn. by destruct (_ >=? _). Qed.

Lemma isPlayerTurn_at (cb : CombatState) (p : string) :
  nthZ (turnOrder cb) (currentTurnIndex cb) = Some p -> isPlayerTurn cb p = true.
Proof.
  intros H. unfold isPlayerTurn, getCurrentCombatant. rewrite H.
  apply String.eqb_refl.
Qed.

Lemma enemyTurnsPost_after_call (ac : Z) (es : list NPC) (w w1 : World)
    (call : AttackCall) (o : Outcome (GameState * World)) :
  attackCalls w1 = attackCalls w ++ [call] ->
  call_targetAC call = ac ->
  enemyTurnsPost ac es w1 o -> enemyTurnsPost ac es w o.
Proof.
  intros Hw Hac. destruct o as [[s' w']| |]; cbn; [|done|done].
  intros (H1 & H2 & calls & Hc & Hall). split; [done|]. split; [done|].
  exists (call :: calls). split.
  - rewrite Hc, Hw. by rewrite <- app_assoc.
  - by constructor.
Qed.

(** The loop, started with the cursor no more than [fuel] turns before a slot
    [k] that holds the player's id, comes back: every attack roll it makes is
    against the armor class the character has on entry, which is also the
    armor class on exit. *)
Lemma runEnemyTurns_post (p : string) (order : list string) (k ac : Z)
    (es : list NPC) :
  nthZ order k = Some p ->
  forall (fuel : nat) (s : GameState) (w : World),
    char_id (character s) = p ->
    turnOrder (combat s) = order ->
    enemies (combat s) = es ->
    armorClass (character s) = ac ->
    isAlive (character s) = true ->
    0 <= currentTurnIndex (combat s) < lengthZ order ->
    turnsUntil k (currentTurnIndex (combat s)) (lengthZ order) <= Z.of_nat fuel ->
    enemyTurnsPost ac es w (runEnemyTurns fuel s w).
Proof.
  intros Hk. pose proof (nthZ_Some_range _ _ _ Hk) as Hkr.
  induction fuel as [|fuel IH]; intros s w Hid Hord Hes Hac Halive Hidx Hfuel.
  all: cbn [runEnemyTurns]; rewrite Hid.
  all: destruct (active (combat s) && negb (isPlayerTurn (combat s) p))%bool
         eqn:Hcont;
       [|cbn; split; [done|]; split; [congruence|]; exists [];
         split; [by rewrite app_nil_r|constructor]].
  all: apply andb_true_iff in Hcont as [Hact Hturn];
       apply negb_true_iff in Hturn.
  all: assert (Hne : currentTurnIndex (combat s) <> k)
         by (intros E; rewrite isPlayerTurn_at in Hturn;
             [discriminate|by rewrite Hord, E]).
  all: destruct (turnsUntil_next k (currentTurnIndex (combat s)) (lengthZ order)
                   Hkr Hidx Hne) as (Hidx' & Hdist & Hpos).
  - lia.
  - destruct (nextTurn_cursor (combat s)) as (Hcur & Hord' & Hes').
    rewrite Hord in Hcur.
    assert (Hskip : forall s1,
              character s1 = character s -> combat s1 = nextTurn (combat s) ->
              enemyTurnsPost ac es w (runEnemyTurns fuel s1 w)).
    { intros s1 Hc1 Hcb1. apply IH; rewrite ?Hc1, ?Hcb1; try done;
        try congruence.
      all: rewrite Hcur; lia. }
    destruct (List.find _ (enemies (combat s))) as [e|] eqn:Hfind;
      [|by apply Hskip].
    destruct (stats e) as [st|] eqn:Hst; [|by apply Hskip].
    destruct (stat_hitPoints st <=? 0); [by apply Hskip|].
    pose proof (enemyAttack_post e st (character s) w Hst) as Hatt.
    unfold bind at 1.
    destruct (enemyAttack e (character s) w) as [[result w1]| |];
      [|cbn|done].
    2:{ apply Exists_exists. exists e. split.
        - apply List.find_some in Hfind as [Hin _]. rewrite <- Hes.
          by apply list_elem_of_In.
        - by exists st. }
    apply (enemyTurnsPost_after_call ac es w w1 _ _ Hatt); [exact Hac|].
    destruct (0 <? damage result).
    + destruct (isAlive (damageCharacter _ _)) eqn:Hlive; cbn [negb].
      * apply IH; cbn [character combat setCombat setCharacter addLog setGameLog
                         damageCharacter setHitPoints char_id armorClass];
          try done; try congruence.
        all: rewrite Hcur; lia.
      * cbn. split; [exact Hac|]. split; [done|]. exists [].
        split; [by rewrite app_nil_r|constructor].
    + apply IH; cbn [character combat setCombat addLog setGameLog]; try done;
        try congruence.
      all: rewrite Hcur; lia.
Qed.

Lemma turnsUntil_after_own_turn (k len : Z) :
  0 <= k < len ->
  let idx' := if k + 1 >=? len then 0 else k + 1 in
  0 <= idx' < len /\ turnsUntil k idx' len <= len - 1.
Proof.
  intros Hk. cbn zeta. unfold turnsUntil.
  destruct (k + 1 >=? len) eqn:E1;
    [apply Z.geb_le in E1|rewrite Z.geb_leb in E1; apply Z.leb_gt in E1];
    repeat match goal with
           | |- context [?a <=? ?b] => destruct (Z.leb_spec a b)
           end; lia.
Qed.

(** C7. With active combat on the player's turn, DEFEND comes back (given one
    unit of fuel per slot of the turn order) with the armor class of the input
    state, on every path, the one where the player dies mid-loop and combat is
    reset included; and every attack roll made inside the call is against the
    input armor class + 2.  The only other way out of the call is the
    exception that [rollDamage] throws on a damage expression it cannot roll,
    which takes such an expression in the stats of an enemy of the fight. *)
Theorem defend_bonus_is_transient
    (h : Host) (fuel : nat) (s : GameState) (w : World) :
  active (combat s) = true ->
  isPlayerTurn (combat s) (char_id (character s)) = true ->
  (length (turnOrder (combat s)) <= fuel)%nat ->
  match processAction h fuel s DEFEND w with
  | Ok (s', w') =>
      armorClass (character s') = armorClass (character s) /\
      (isAlive (character s) = true -> isAlive (character s') = false ->
       combat s' = noCombat) /\
      exists calls,
        attackCalls w' = attackCalls w ++ calls /\
        Forall (fun c => call_targetAC c = armorClass (character s) + 2) calls
  | Throw _ => Exists malformed (enemies (combat s))
  | OutOfFuel => False
  end.
Proof.
  intros Hact Hturn Hfuel.
  destruct (isAlive (character s)) eqn:Halive.
  2:{ unfold processAction. rewrite Halive. cbn.
      split; [reflexivity|]. split; [discriminate|]. exists [].
      split; [by rewrite app_nil_r|constructor]. }
  rewrite processAction_alive by done. unfold handleDefend.
  rewrite Hact, Hturn. cbn [negb].
  assert (Hk : nthZ (turnOrder (combat s)) (currentTurnIndex (combat s)) =
               Some (char_id (character s))).
  { unfold isPlayerTurn, getCurrentCombatant in Hturn.
    destruct (nthZ _ _) as [id|]; [|discriminate].
    apply String.eqb_eq in Hturn. by subst. }
  pose proof (nthZ_Some_range _ _ _ Hk) as Hkr.
  destruct (turnsUntil_after_own_turn _ _ Hkr) as (Hidx' & Hdist).
  destruct (nextTurn_cursor (combat s)) as (Hcur & Hord' & Hes').
  match goal with
  | |- match bind (runEnemyTurns fuel ?s3) _ w with _ => _ end =>
      pose proof (runEnemyTurns_post (char_id (character s))
                    (turnOrder (combat s)) (currentTurnIndex (combat s))
                    (armorClass (character s) + 2) (enemies (combat s))
                    Hk fuel s3 w) as Hloop
  end.
  cbn [character combat setCombat setCharacter addLog setGameLog setArmorClass
       char_id armorClass] in Hloop.
  specialize (Hloop eq_refl Hord' Hes' eq_refl Halive).
  rewrite Hcur in Hloop.
  specialize (Hloop Hidx' ltac:(unfold lengthZ in *; lia)).
  unfold bind.
  destruct (runEnemyTurns fuel _ w) as [[s4 w4]| |]; cbn in Hloop |- *;
    [|done|done].
  destruct Hloop as (Hac & Hdead & calls & Hcalls & Hall).
  split; [lia|]. split; [intros _; exact Hdead|]. by exists calls.
Qed.

(** The ogre lands a critical hit on the defending hero, who falls: combat is
    reset, the one attack roll was against 12 + 2, and the hero is left with
    armor class 12. *)
Lemma defend_bonus_is_transient_witness :
  exists s' w',
    processAction Sample.host 2 Sample.fighting DEFEND
      (Sample.worldOf
         [Sample.cellFor 20 20; Sample.cellFor 1 8; Sample.cellFor 1 8;
          Sample.cellFor 1 8]) = Ok (s', w') /\
    armorClass (character Sample.fighting) = 12 /\
    armorClass (character s') = 12 /\
    isAlive (character s') = false /\
    combat s' = noCombat /\
    attackCalls w' = [mkAttackCall 5 14].
Proof.
  pose proof (defend_bonus_is_transient Sample.host 2 Sample.fighting
                (Sample.worldOf
                   [Sample.cellFor 20 20; Sample.cellFor 1 8;
                    Sample.cellFor 1 8; Sample.cellFor 1 8])
                eq_refl eq_refl ltac:(cbn; lia)) as H.
  destruct (processAction _ _ _ _ _) as [[s' w']| |] eqn:E;
    [|vm_compute in E; discriminate|vm_compute in E; discriminate].
  vm_compute in E. simplify_eq.
  destruct H as (Hac & Hdead & _).
  eexists _, _. split; [reflexivity|]. split; [reflexivity|].
  split; [exact Hac|]. split; [reflexivity|].
  split; [apply Hdead; reflexivity|reflexivity].
Defined.

(* ================================================================== *)
(** * Further properties of the code *)
(* ================================================================== *)

(* ================================================================== *)
(** ** What every step keeps *)
(* ================================================================== *)

Lemma sameIdentity_refl (c : Character) : sameIdentity c c.
Proof. by repeat split. Qed.

Lemma sameIdentity_trans (c1 c2 c3 : Character) :
  sameIdentity c1 c2 -> sameIdentity c2 c3 -> sameIdentity c1 c3.
Proof. unfold sameIdentity. intuition congruence. Qed.

Lemma sameSite_refl (l : Location) : sameSite l l.
Proof. by repeat split. Qed.

Lemma sameSite_trans (l1 l2 l3 : Location) :
  sameSite l1 l2 -> sameSite l2 l3 -> sameSite l1 l3.
Proof.
  intros (?&?&?&?&?&?) (?&?&?&?&?&?). repeat split; try congruence; auto.
  by etrans.
Qed.

Lemma sameNpc_refl (n : NPC) : sameNpc n n.
Proof. repeat split. by destruct (shop n). Qed.

Lemma sameNpc_trans (n1 n2 n3 : NPC) :
  sameNpc n1 n2 -> sameNpc n2 n3 -> sameNpc n1 n3.
Proof.
  intros (?&?&?&?&?&?&?&Hshop1) (?&?&?&?&?&?&?&Hshop2).
  repeat split; try congruence.
  destruct (shop n1), (shop n2), (shop n3); try done.
  destruct Hshop1, Hshop2. split; congruence.
Qed.

Lemma option_Forall2_same {A} (R : A -> A -> Prop) (o : option A) :
  (forall x, R x x) -> option_Forall2 R o o.
Proof. intros HR. destruct o; by constructor. Qed.

Lemma option_Forall2_chain {A} (R : A -> A -> Prop) (o1 o2 o3 : option A) :
  (forall x y z, R x y -> R y z -> R x z) ->
  option_Forall2 R o1 o2 -> option_Forall2 R o2 o3 -> option_Forall2 R o1 o3.
Proof.
  intros HR H1 H2. destruct H1; inversion H2; subst; constructor. eauto.
Qed.

Lemma Evolves_refl (s : GameState) : Evolves s s.
Proof.
  split; try done.
  all: try apply sameIdentity_refl.
  all: intros k; apply option_Forall2_same;
    first [apply sameSite_refl|apply sameNpc_refl].
Qed.

Lemma Evolves_trans (s1 s2 s3 : GameState) :
  Evolves s1 s2 -> Evolves s2 s3 -> Evolves s1 s3.
Proof.
  intros [] []. split.
  - by etrans.
  - by eapply sameIdentity_trans.
  - auto.
  - congruence.
  - intros k. eapply option_Forall2_chain; [apply sameSite_trans|done..].
  - intros k. eapply option_Forall2_chain; [apply sameNpc_trans|done..].
Qed.

(** A change of nothing but the log, the conversation and the combat state. *)
Lemma Evolves_same_rest (s s' : GameState) :
  gameLog s `prefix_of` gameLog s' ->
  character s' = character s -> quests s' = quests s ->
  locations s' = locations s -> npcs s' = npcs s ->
  Evolves s s'.
Proof.
  intros Hlog Hc Hq Hl Hn. split; rewrite ?Hc, ?Hl, ?Hn; try done.
  all: try apply sameIdentity_refl.
  all: intros k; apply option_Forall2_same;
    first [apply sameSite_refl|apply sameNpc_refl].
Qed.

Lemma Evolves_addLog (s : GameState) (msg : string) (ty : LogType) :
  Evolves s (addLog s msg ty).
Proof. apply Evolves_same_rest; try done. by apply prefix_app_r. Qed.

Lemma Evolves_setCombat (s : GameState) (cb : CombatState) :
  Evolves s (setCombat s cb).
Proof. by apply Evolves_same_rest. Qed.

Lemma Evolves_setActiveDialogue (s : GameState) (d : option ActiveDialogue) :
  Evolves s (setActiveDialogue s d).
Proof. by apply Evolves_same_rest. Qed.

(** A change of the character alone. *)
Lemma Evolves_setCharacter (s : GameState) (c' : Character) :
  sameIdentity (character s) c' ->
  (hpWithinBounds (character s) -> hpWithinBounds c') ->
  Evolves s (setCharacter s c').
Proof.
  intros Hid Hhp. split; try done.
  all: intros k; apply option_Forall2_same;
    first [apply sameSite_refl|apply sameNpc_refl].
Qed.

Lemma locations_insert_evolve (m : gmap string Location) (k0 : string)
    (l l' : Location) (k : string) :
  m !! k0 = Some l -> sameSite l l' ->
  option_Forall2 sameSite (m !! k) (<[k0 := l']> m !! k).
Proof.
  intros Hl Hs. destruct (decide (k0 = k)) as [->|Hne].
  - rewrite lookup_insert_eq, Hl. by constructor.
  - rewrite lookup_insert_ne by done. apply option_Forall2_same, sameSite_refl.
Qed.

Lemma npcs_insert_evolve (m : gmap string NPC) (k0 : string) (n n' : NPC)
    (k : string) :
  m !! k0 = Some n -> sameNpc n n' ->
  option_Forall2 sameNpc (m !! k) (<[k0 := n']> m !! k).
Proof.
  intros Hl Hs. destruct (decide (k0 = k)) as [->|Hne].
  - rewrite lookup_insert_eq, Hl. by constructor.
  - rewrite lookup_insert_ne by done. apply option_Forall2_same, sameNpc_refl.
Qed.

Lemma Evolves_setLocations (s : GameState) (m : gmap string Location) :
  (forall k, option_Forall2 sameSite (locations s !! k) (m !! k)) ->
  Evolves s (setLocations s m).
Proof.
  intros Hm. split; try done.
  all: try apply sameIdentity_refl.
  intros k. apply option_Forall2_same, sameNpc_refl.
Qed.

Lemma Evolves_setNpcs (s : GameState) (m : gmap string NPC) :
  (forall k, option_Forall2 sameNpc (npcs s !! k) (m !! k)) ->
  Evolves s (setNpcs s m).
Proof.
  intros Hm. split; try done.
  all: try apply sameIdentity_refl.
  intros k. apply option_Forall2_same, sameSite_refl.
Qed.

(** *** Changes of the character *)

Lemma Evolves_damage (s : GameState) (n : Z) :
  0 <= n -> Evolves s (setCharacter s (damageCharacter (character s) n)).
Proof.
  intros Hn. apply Evolves_setCharacter; [by repeat split|].
  unfold hpWithinBounds. cbn. lia.
Qed.

Lemma Evolves_heal (s : GameState) (n : Z) :
  (hpWithinBounds (character s) -> 0 <= n) ->
  Evolves s (setCharacter s (healCharacter (character s) n)).
Proof.
  intros Hn. apply Evolves_setCharacter; [by repeat split|].
  unfold hpWithinBounds. intros Hb. specialize (Hn Hb). cbn. lia.
Qed.

(** The inventory may be rewritten as long as the capacity stays. *)
Lemma Evolves_gains_item (s : GameState) (c0 : Character) (item : Item)
    (weight : Q) :
  sameIdentity (character s) c0 ->
  (hpWithinBounds (character s) -> hpWithinBounds c0) ->
  Evolves s
    (setCharacter s
       (setInventory c0
          (mkInventory (inv_items (inventory (character s)) ++ [item])
             (maxWeight (inventory (character s))) weight))).
Proof.
  intros Hid Hhp. apply Evolves_setCharacter.
  - destruct Hid as (?&?&?&?&?&?&?). by repeat split.
  - done.
Qed.

Lemma Evolves_loses_item (s : GameState) (c0 : Character) (i : nat)
    (item : Item) (weight : Q) :
  sameIdentity (character s) c0 ->
  (hpWithinBounds (character s) -> hpWithinBounds c0) ->
  inv_items (inventory (character s)) !! i = Some item ->
  Evolves s
    (setCharacter s
       (setInventory c0
          (mkInventory (delete i (inv_items (inventory (character s))))
             (maxWeight (inventory (character s))) weight))).
Proof.
  intros Hid Hhp Hi. apply Evolves_setCharacter.
  - destruct Hid as (?&?&?&?&?&?&?). by repeat split.
  - done.
Qed.

(* ================================================================== *)
(** ** character.ts: experience and levels *)
(* ================================================================== *)

Lemma levelUpLoop_grows (fuel : nat) (hitDie : Z) (c c' : Character)
    (b b' : bool) (w w' : World) :
  levelUpLoop fuel hitDie c b w = Ok ((c', b'), w') ->
  exists levels bonus,
    grownBy c c' levels bonus /\ 0 <= levels <= bonus /\
    b' = (b || (0 <? levels))%bool /\
    (0 < levels -> (level c' - 1) * 1000 <= experience c).
Proof.
  revert c b w. induction fuel as [|fuel IH]; intros c b w H;
    cbn [levelUpLoop] in H.
  - unfold ret in H. simplify_eq. exists 0, 0.
    split; [|split; [lia|split; [by rewrite orb_false_r|lia]]].
    repeat split; lia || done.
  - destruct (experience c >=? level c * 1000) eqn:E.
    + unfold bind in H. destruct (rollDice hitDie w) as [[r w1]| |]; [|done|done].
      apply IH in H as (levels & bonus & Hg & Hl & Hb & Hx).
      destruct Hg as (Hid & Hac & Hinv & Hgold & Hxp & Hlev & Hcur & Hmax).
      cbn in Hid, Hac, Hinv, Hgold, Hxp, Hlev, Hcur, Hmax, Hx.
      exists (levels + 1), (bonus + Z.max 1 (r + constitution (abilityModifiers c))).
      split; [|split; [lia|split]].
      * destruct Hid as (?&?&?&?&?&?&?).
        repeat split; try lia; try done.
      * rewrite Hb. cbn. destruct (0 <? levels + 1) eqn:E2;
          [by rewrite orb_true_r|].
        apply Z.ltb_ge in E2. lia.
      * intros _. rewrite Z.geb_leb in E. apply Z.leb_le in E.
        destruct (Z.eq_dec levels 0) as [->|Hne]; [|lia].
        rewrite Hlev. lia.
    + unfold ret in H. simplify_eq. exists 0, 0.
      split; [|split; [lia|split; [by rewrite orb_false_r|lia]]].
      repeat split; lia || done.
Qed.

(** What one award of experience does to a character. *)
Lemma awardExperience_grows
    (c c' : Character) (xp : Z) (up : bool) (w w' : World) :
  awardExperience c xp w = Ok ((c', up), w') ->
  experience c' = experience c + xp /\
  level c' = Z.max (level c) ((experience c + xp) / 1000 + 1) /\
  (up = true <-> level c < level c') /\
  (exists bonus,
     level c' - level c <= bonus /\
     hp_current (hitPoints c') = hp_current (hitPoints c) + bonus /\
     hp_max (hitPoints c') = hp_max (hitPoints c) + bonus) /\
  sameIdentity c c' /\ armorClass c' = armorClass c /\
  inventory c' = inventory c /\ gold c' = gold c.
Proof.
  intros H. pose proof (awardExperience_exit c xp w) as Hexit.
  rewrite H in Hexit. destruct Hexit as [Hxp Hlt].
  unfold awardExperience in H.
  destruct (experience c + xp >=? level c * 1000) eqn:E.
  - destruct (getClassHitDie (char_class c)) as [hitDie|];
      [|by destruct (objectPrototypeText _)].
    apply levelUpLoop_grows in H as (levels & bonus & Hg & Hl & Hb & Hx).
    destruct Hg as (Hid & Hac & Hinv & Hgold & _ & Hlev & Hcur & Hmax).
    cbn in Hid, Hac, Hinv, Hgold, Hlev, Hcur, Hmax, Hx.
    rewrite Z.geb_leb in E. apply Z.leb_le in E.
    assert (Hpos : 0 < levels) by lia.
    specialize (Hx Hpos).
    split; [done|]. split; [|split; [|split; [|done]]].
    + rewrite Hxp in Hlt. Z.div_mod_to_equations. lia.
    + rewrite Hb. cbn. apply Z.ltb_lt in Hpos as Hposb. rewrite Hposb.
      split; [lia|done].
    + exists bonus. lia.
  - unfold ret in H. simplify_eq. cbn in *.
    rewrite Z.geb_leb in E. apply Z.leb_gt in E.
    split; [done|]. split; [|split; [|split; [|by repeat split]]].
    + Z.div_mod_to_equations. lia.
    + split; [done|lia].
    + exists 0. lia.
Qed.

(** X1. [awardExperience] adds the experience, raises the level to
    [max(level, floor(experience / 1000) + 1)] (several levels in one award
    if need be), adds to the current and to the maximum hit points the same
    amount, at least one point per level gained, reports a level-up exactly
    when the level rose, and changes nothing else of the character. *)
Theorem awardExperience_levels_and_hit_points
    (c c' : Character) (xp : Z) (up : bool) (w w' : World) :
  awardExperience c xp w = Ok ((c', up), w') ->
  experience c' = experience c + xp /\
  level c' = Z.max (level c) ((experience c + xp) / 1000 + 1) /\
  (up = true <-> level c < level c') /\
  (exists bonus,
     level c' - level c <= bonus /\
     hp_current (hitPoints c') = hp_current (hitPoints c) + bonus /\
     hp_max (hitPoints c') = hp_max (hitPoints c) + bonus) /\
  sameIdentity c c' /\ armorClass c' = armorClass c /\
  inventory c' = inventory c /\ gold c' = gold c.
Proof. exact (awardExperience_grows c c' xp up w w'). Qed.

Lemma awardExperience_levels_and_hit_points_witness :
  exists c' up w',
    awardExperience Sample.hero 2500
      (Sample.worldOf [Sample.cellFor 7 10; Sample.cellFor 1 10])
    = Ok ((c', up), w') /\
    experience c' = 2500 /\ level c' = 3 /\ up = true /\
    hp_max (hitPoints c') - hp_current (hitPoints c') = 12 - 5.
Proof.
  destruct (awardExperience Sample.hero 2500
              (Sample.worldOf [Sample.cellFor 7 10; Sample.cellFor 1 10]))
    as [[[c' up] w']| |] eqn:E;
    [|vm_compute in E; discriminate|vm_compute in E; discriminate].
  destruct (awardExperience_levels_and_hit_points _ _ _ _ _ _ E)
    as (Hxp & Hlev & Hup & (bonus & _ & Hcur & Hmax) & _).
  exists c', up, w'. split; [reflexivity|]. split; [exact Hxp|].
  split; [exact Hlev|]. split.
  - apply Hup. rewrite Hlev. reflexivity.
  - rewrite Hcur, Hmax. cbn. lia.
Defined.

(* ================================================================== *)
(** ** The enemy-turn loop and the settlement, as steps *)
(* ================================================================== *)

(** Peel the updates off the state a handler returns. *)
Ltac step_by_step :=
  repeat first
    [ apply Evolves_refl
    | apply Evolves_addLog
    | apply Evolves_setCombat
    | apply Evolves_setActiveDialogue
    | (eapply Evolves_trans; [|apply Evolves_addLog])
    | (eapply Evolves_trans; [|apply Evolves_setCombat])
    | (eapply Evolves_trans; [|apply Evolves_setActiveDialogue]) ].

Lemma runEnemyTurns_evolves (fuel : nat) (s s' : GameState) (w w' : World) :
  runEnemyTurns fuel s w = Ok (s', w') -> Evolves s s'.
Proof.
  revert s w. induction fuel as [|fuel IH]; intros s w H;
    cbn [runEnemyTurns] in H;
    destruct (active (combat s) && _)%bool;
    try (unfold ret in H; simplify_eq; apply Evolves_refl).
  assert (Hskip : forall s1, Evolves s s1 ->
                    runEnemyTurns fuel s1 w = Ok (s', w') -> Evolves s s').
  { intros s1 H1 H2. eapply Evolves_trans; [exact H1|by eapply IH]. }
  destruct (List.find _ _) as [e|]; [|by eapply Hskip; [|exact H]; step_by_step].
  destruct (stats e) as [st|]; [|by eapply Hskip; [|exact H]; step_by_step].
  destruct (stat_hitPoints st <=? 0);
    [by eapply Hskip; [|exact H]; step_by_step|].
  unfold bind in H.
  destruct (enemyAttack e (character s) w) as [[result w1]| |]; [|done|done].
  destruct (0 <? damage result) eqn:Hd.
  - apply Z.ltb_lt in Hd.
    assert (Hhit : Evolves s
                     (setCharacter (addLog s (message result) Combat)
                        (damageCharacter
                           (character (addLog s (message result) Combat))
                           (damage result)))).
    { eapply Evolves_trans; [apply Evolves_addLog|].
      apply Evolves_damage. lia. }
    destruct (negb (isAlive _)).
    + unfold ret in H. simplify_eq.
      eapply Evolves_trans; [exact Hhit|]. step_by_step.
    + eapply Evolves_trans; [exact Hhit|].
      eapply Evolves_trans; [|by eapply IH]. step_by_step.
  - eapply Evolves_trans; [|by eapply IH]. step_by_step.
Qed.

(** The loop hands control back: when it returns, combat is over or the
    cursor of the turn order is on the player. *)
Lemma runEnemyTurns_exit (fuel : nat) (s s' : GameState) (w w' : World) :
  runEnemyTurns fuel s w = Ok (s', w') ->
  active (combat s') = false \/
  isPlayerTurn (combat s') (char_id (character s')) = true.
Proof.
  revert s w. induction fuel as [|fuel IH]; intros s w H;
    cbn [runEnemyTurns] in H;
    destruct (active (combat s) && _)%bool eqn:Hcont;
    try (unfold ret in H; simplify_eq;
         apply andb_false_iff in Hcont as [Ha|Hp];
         [by left|right; by apply negb_false_iff in Hp]);
    try (unfold outOfFuel in H; discriminate).
  destruct (List.find _ _) as [e|]; [|by eapply IH].
  destruct (stats e) as [st|]; [|by eapply IH].
  destruct (stat_hitPoints st <=? 0); [by eapply IH|].
  unfold bind in H.
  destruct (enemyAttack e (character s) w) as [[result w1]| |]; [|done|done].
  destruct (0 <? damage result).
  - destruct (negb (isAlive _)).
    + unfold ret in H. simplify_eq. by left.
    + by eapply IH.
  - by eapply IH.
Qed.

Lemma filter_sublist {A} (f : A -> bool) (l : list A) :
  sublist (List.filter f l) l.
Proof.
  induction l as [|x l IH]; cbn; [constructor|].
  destruct (f x); by constructor.
Qed.

Lemma sameSite_pruneDefeated (ids : list string) (loc : Location) :
  sameSite loc (pruneDefeated ids loc).
Proof.
  unfold pruneDefeated. destruct (negb _); [|apply sameSite_refl].
  repeat split; try done. apply filter_sublist.
Qed.

Lemma goldLoop_range (n : nat) (acc : Z) (w w' : World) (g : Z) :
  goldLoop n acc w = Ok (g, w') ->
  acc + 10 * Z.of_nat n <= g <= acc + 50 * Z.of_nat n.
Proof.
  rewrite goldLoop_eq. intros H. simplify_eq.
  pose proof (goldDraws_range n w) as Hr.
  assert (Hsum : forall l, Forall (fun d => 10 <= d <= 50) l ->
                   10 * Z.of_nat (length l) <= sumZ l <= 50 * Z.of_nat (length l)).
  { induction 1 as [|d l Hd _ IH]; unfold sumZ in *; cbn [foldr length]; lia. }
  specialize (Hsum _ Hr). rewrite goldDraws_length in Hsum. lia.
Qed.

Lemma handleCombatVictory_evolves (s s' : GameState) (w w' : World) :
  handleCombatVictory s w = Ok (s', w') -> Evolves s s'.
Proof.
  unfold handleCombatVictory, bind, ret. intros H.
  destruct (endCombat (combat s) w) as [[[xp gp] w1]| |]; [|done|done].
  destruct (awardExperience (character s) xp w1) as [[[c' up] w2]| |] eqn:Ha;
    [|done|done].
  simplify_eq.
  destruct (awardExperience_grows _ _ _ _ _ _ Ha)
    as (_ & _ & _ & (bonus & Hb & Hcur & Hmax) & Hid & Hac & Hinv & _).
  assert (Hlev : level (character s) <= level c').
  { destruct (awardExperience_grows _ _ _ _ _ _ Ha)
      as (_ & -> & _). lia. }
  eapply Evolves_trans; [|apply Evolves_setLocations].
  - destruct up; step_by_step.
    all: apply Evolves_setCharacter.
    all: try (destruct Hid as (?&?&?&?&?&?&?); by repeat split).
    all: try done.
    all: try (unfold hpWithinBounds; cbn; lia).
  - intros k. rewrite lookup_fmap.
    destruct up; cbn [locations setLocations addLog setGameLog setCombat
                      setCharacter];
      (destruct (locations s !! k); constructor; apply sameSite_pruneDefeated).
Qed.

(* ================================================================== *)
(** ** Every handler is a step *)
(* ================================================================== *)

Lemma Evolves_move (s : GameState) (t : string) (target : Location) :
  locations s !! t = Some target ->
  Evolves s
    (mkGameState (character s) t
       (<[t := mkLocation (loc_id target) (loc_name target)
                 (loc_description target) (connections target)
                 (loc_npcs target) (loc_items target) true]> (locations s))
       (npcs s) (quests s) (combat s) (activeDialogue s) (gameLog s)).
Proof.
  intros Ht. split; try done.
  all: try apply sameIdentity_refl.
  - intros k. eapply locations_insert_evolve; [done|]. by repeat split.
  - intros k. apply option_Forall2_same, sameNpc_refl.
Qed.

Ltac crack H :=
  cbv zeta in H; unfold bind, ret, typeError, throw, outOfFuel in H;
  repeat case_match; simplify_eq.

Lemma handleMove_evolves (fuel : nat) (s s' : GameState) (d : string)
    (w w' : World) :
  handleMove fuel s d w = Ok (s', w') -> Evolves s s'.
Proof.
  unfold handleMove. intros H.
  destruct (active (combat s)); [crack H; step_by_step|].
  assert (H0 : Evolves s (match activeDialogue s with
                          | Some _ => setActiveDialogue s None
                          | None => s
                          end)) by (destruct (activeDialogue s); step_by_step).
  eapply Evolves_trans; [exact H0|]. clear H0.
  generalize dependent (match activeDialogue s with
                        | Some _ => setActiveDialogue s None
                        | None => s
                        end).
  clear s. intros s H. crack H.
  all: try (apply runEnemyTurns_evolves in H; eapply Evolves_trans; [|exact H]).
  all: step_by_step.
  all: by apply Evolves_move.
Qed.

Lemma handleTalk_evolves (s s' : GameState) (npcId : string) (w w' : World) :
  handleTalk s npcId w = Ok (s', w') -> Evolves s s'.
Proof. unfold handleTalk. intros H. crack H; step_by_step. Qed.

Lemma handleTake_evolves (h : Host) (s s' : GameState) (itemId : string)
    (w w' : World) :
  handleTake h s itemId w = Ok (s', w') -> Evolves s s'.
Proof.
  unfold handleTake. intros H. crack H; step_by_step.
  eapply Evolves_trans; [eapply (Evolves_gains_item s (character s))|].
  - apply sameIdentity_refl.
  - done.
  - apply Evolves_setLocations. intros k.
    eapply locations_insert_evolve; [done|]. by repeat split.
Qed.

Lemma handleDrop_evolves (s s' : GameState) (itemId : string) (w w' : World) :
  handleDrop s itemId w = Ok (s', w') -> Evolves s s'.
Proof.
  unfold handleDrop. intros H. crack H; step_by_step.
  eapply Evolves_trans; [eapply (Evolves_loses_item s (character s))|].
  - apply sameIdentity_refl.
  - done.
  - done.
  - apply Evolves_setLocations. intros k.
    eapply locations_insert_evolve; [done|]. by repeat split.
Qed.

Lemma handleUse_evolves (s s' : GameState) (itemId : string) (w w' : World) :
  handleUse s itemId w = Ok (s', w') -> Evolves s s'.
Proof.
  unfold handleUse. intros H.
  destruct (findIndex _ _) as [i|]; [|crack H; step_by_step].
  destruct (_ !! i) as [item|] eqn:Hitem; [|done].
  destruct (negb (item_usable item)); [crack H; step_by_step|].
  destruct (isPotion (item_type item)); [|crack H; step_by_step].
  unfold bind in H.
  destruct (Z.lt_ge_cases 4 1) as [?|H4]; [lia|].
  rewrite (rollDice_eq 4 w H4), (rollDice_eq 4 (advance w) H4) in H.
  unfold ret in H. simplify_eq. step_by_step.
  pose proof (floorDraw_range 4 w H4). pose proof (floorDraw_range 4 (advance w) H4).
  eapply (Evolves_loses_item s (healCharacter (character s) _) i item).
  - by repeat split.
  - unfold hpWithinBounds.
    cbn [healCharacter setHitPoints hitPoints hp_current hp_max]. lia.
  - done.
Qed.

Lemma handleBuy_evolves (s s' : GameState) (itemId npcId : string)
    (w w' : World) :
  handleBuy s itemId npcId w = Ok (s', w') -> Evolves s s'.
Proof.
  unfold handleBuy, shopOf. intros H. crack H; step_by_step.
  eapply Evolves_trans;
    [eapply (Evolves_gains_item s (setGold (character s) _))|].
  - by repeat split.
  - done.
  - apply Evolves_setNpcs. intros k.
    eapply npcs_insert_evolve; [done|]. unfold sameNpc, setShopItems. cbn.
    repeat split.
    match goal with H : shop _ = Some _ |- _ => by rewrite H end.
Qed.

Lemma handleSell_evolves (s s' : GameState) (itemId npcId : string)
    (w w' : World) :
  handleSell s itemId npcId w = Ok (s', w') -> Evolves s s'.
Proof.
  unfold handleSell, shopOf. intros H. crack H; step_by_step.
  eapply Evolves_trans;
    [eapply (Evolves_loses_item s (setGold (character s) _))|].
  - by repeat split.
  - done.
  - done.
  - apply Evolves_setNpcs. intros k.
    eapply npcs_insert_evolve; [done|]. unfold sameNpc, setShopItems. cbn.
    repeat split.
    match goal with H : shop _ = Some _ |- _ => by rewrite H end.
Qed.

Lemma handleRest_evolves (s s' : GameState) (w w' : World) :
  handleRest s w = Ok (s', w') -> Evolves s s'.
Proof.
  unfold handleRest. intros H. crack H; step_by_step.
  apply Evolves_heal. unfold hpWithinBounds. lia.
Qed.

Lemma foldl_addLog_eq {A} (f : A -> string) (l : list A) (s : GameState) :
  foldl (fun acc x => addLog acc (f x) Info) s l =
  setGameLog s (gameLog s ++ map (fun x => mkLogEntry (f x) Info) l).
Proof.
  revert s. induction l as [|x l IH]; intros s; cbn [foldl map].
  - rewrite app_nil_r. by destruct s.
  - rewrite IH. unfold addLog, setGameLog. cbn. by rewrite <- app_assoc.
Qed.

Lemma foldl_addLog_evolves {A} (f : A -> string) (l : list A) (s : GameState) :
  Evolves s (foldl (fun acc x => addLog acc (f x) Info) s l).
Proof.
  revert s. induction l as [|x l IH]; intros s; cbn [foldl].
  - apply Evolves_refl.
  - eapply Evolves_trans; [apply Evolves_addLog|apply IH].
Qed.

Lemma readonly_evolves (h : Host) (s s' : GameState) (w w' : World) :
  handleLook s w = Ok (s', w') \/ handleInventory h s w = Ok (s', w') \/
  handleStats s w = Ok (s', w') ->
  Evolves s s'.
Proof.
  unfold handleLook, handleInventory, handleStats.
  intros [H|[H|H]]; crack H; step_by_step.
  eapply Evolves_trans; [apply Evolves_addLog|].
  apply (foldl_addLog_evolves
           (fun item =>
              "  " +:+ item_name item +:+ " (" +:+
              itemTypeName (item_type item) +:+ ", " +:+
              showQ h (item_weight item) +:+ " lbs)" +:+
              (if item_usable item then " [usable]" else EmptyString))).
Qed.

Lemma processPlayerAttack_evolves (fuel : nat) (s s' : GameState)
    (targetId : string) (w w' : World) :
  processPlayerAttack fuel s targetId w = Ok (s', w') -> Evolves s s'.
Proof.
  unfold processPlayerAttack. intros H. crack H.
  all: try (apply runEnemyTurns_evolves in H; eapply Evolves_trans; [|exact H]).
  all: try (apply handleCombatVictory_evolves in H;
            eapply Evolves_trans; [|exact H]).
  all: step_by_step.
Qed.

Lemma handleAttack_evolves (fuel : nat) (s s' : GameState) (targetId : string)
    (w w' : World) :
  handleAttack fuel s targetId w = Ok (s', w') -> Evolves s s'.
Proof.
  unfold handleAttack. intros H.
  destruct (negb (active (combat s))).
  - destruct (npcs s !! targetId) as [npc|]; [|crack H; step_by_step].
    destruct (stats npc); [|crack H; step_by_step].
    unfold bind in H. destruct (initiateCombat _ _ w) as [[cb w1]| |];
      [|done|done].
    apply processPlayerAttack_evolves in H.
    eapply Evolves_trans; [|exact H]. step_by_step.
  - destruct (negb (isPlayerTurn _ _)); [crack H; step_by_step|].
    by eapply processPlayerAttack_evolves.
Qed.

Lemma handleDefend_evolves (fuel : nat) (s s' : GameState) (w w' : World) :
  handleDefend fuel s w = Ok (s', w') -> Evolves s s'.
Proof.
  unfold handleDefend. intros H.
  destruct (negb (active (combat s))); [crack H; step_by_step|].
  destruct (negb (isPlayerTurn _ _)); [crack H; step_by_step|].
  unfold bind in H.
  destruct (runEnemyTurns fuel _ w) as [[s4 w4]| |] eqn:Hloop; [|done|done].
  unfold ret in H. simplify_eq.
  apply runEnemyTurns_evolves in Hloop.
  eapply Evolves_trans; [|eapply Evolves_trans; [exact Hloop|]].
  - step_by_step. eapply Evolves_trans; [apply Evolves_addLog|].
    apply Evolves_setCharacter; first [done|by repeat split].
  - apply Evolves_setCharacter; first [done|by repeat split].
Qed.

Lemma handleFlee_evolves (fuel : nat) (s s' : GameState) (w w' : World) :
  handleFlee fuel s w = Ok (s', w') -> Evolves s s'.
Proof.
  unfold handleFlee. intros H. crack H.
  all: try (apply runEnemyTurns_evolves in H; eapply Evolves_trans; [|exact H]).
  all: step_by_step.
Qed.

Lemma followOption_evolves (h : Host) (npcId : string) (npc : NPC)
    (option : DialogueOption) (s : GameState) :
  callbacksEvolve h -> Evolves s (followOption h npcId npc option s).
Proof.
  intros Hcb. unfold followOption.
  assert (H1 : Evolves s (match opt_action option with
                          | Some f => callbacks h f s
                          | None => s
                          end))
    by (destruct (opt_action option); [apply (Hcb _ s)|apply Evolves_refl]).
  eapply Evolves_trans; [exact H1|]. repeat case_match; step_by_step.
Qed.

Lemma handleDialogueSelect_evolves (h : Host) (s s' : GameState) (i : Z)
    (w w' : World) :
  callbacksEvolve h ->
  handleDialogueSelect h s i w = Ok (s', w') -> Evolves s s'.
Proof.
  intros Hcb. unfold handleDialogueSelect. intros H. crack H.
  all: try (eapply Evolves_trans; [|by apply followOption_evolves]).
  all: step_by_step.
Qed.

(** Whatever the action, the state that the reducer returns is a step away
    from its input. *)
Lemma processAction_evolves (h : Host) (fuel : nat) (s s' : GameState)
    (a : GameAction) (w w' : World) :
  callbacksEvolve h ->
  processAction h fuel s a w = Ok (s', w') -> Evolves s s'.
Proof.
  intros Hcb H. unfold processAction in H.
  destruct (negb (isAlive (character s)) && negb (isLoadGame a))%bool;
    [crack H; step_by_step|].
  destruct a.
  - by eapply handleMove_evolves.
  - by eapply handleTalk_evolves.
  - by eapply handleDialogueSelect_evolves.
  - by eapply handleTake_evolves.
  - by eapply handleUse_evolves.
  - by eapply handleDrop_evolves.
  - by eapply handleAttack_evolves.
  - by eapply handleDefend_evolves.
  - by eapply handleFlee_evolves.
  - by eapply handleBuy_evolves.
  - by eapply handleSell_evolves.
  - by eapply handleRest_evolves.
  - apply (readonly_evolves h s s' w w'). by left.
  - apply (readonly_evolves h s s' w w'). right. by left.
  - apply (readonly_evolves h s s' w w'). right. by right.
  - crack H; step_by_step.
  - crack H; step_by_step.
Qed.

(* ================================================================== *)
(** ** The armor class *)
(* ================================================================== *)

Lemma runEnemyTurns_armor (fuel : nat) (s s' : GameState) (w w' : World) :
  runEnemyTurns fuel s w = Ok (s', w') ->
  armorClass (character s') = armorClass (character s).
Proof.
  revert s w. induction fuel as [|fuel IH]; intros s w H;
    cbn [runEnemyTurns] in H; crack H; try reflexivity.
  all: match goal with
       | H : runEnemyTurns _ _ _ = Ok _ |- _ => apply IH in H; by rewrite H
       end.
Qed.

Lemma handleCombatVictory_armor (s s' : GameState) (w w' : World) :
  handleCombatVictory s w = Ok (s', w') ->
  armorClass (character s') = armorClass (character s).
Proof.
  unfold handleCombatVictory, bind, ret. intros H.
  destruct (endCombat (combat s) w) as [[[xp gp] w1]| |]; [|done|done].
  destruct (awardExperience (character s) xp w1) as [[[c' up] w2]| |] eqn:Ha;
    [|done|done].
  simplify_eq.
  destruct (awardExperience_grows _ _ _ _ _ _ Ha)
    as (_ & _ & _ & _ & _ & Hac & _).
  by destruct up.
Qed.

(** Replace what is known of the loop and of the settlement by what they do
    to the armor class. *)
Ltac armor_of_loops :=
  repeat match goal with
         | H : runEnemyTurns _ _ _ = Ok _ |- _ =>
             apply runEnemyTurns_armor in H; cbn in H
         | H : handleCombatVictory _ _ = Ok _ |- _ =>
             apply handleCombatVictory_armor in H; cbn in H
         end.

Lemma processPlayerAttack_armor (fuel : nat) (s s' : GameState)
    (targetId : string) (w w' : World) :
  processPlayerAttack fuel s targetId w = Ok (s', w') ->
  armorClass (character s') = armorClass (character s).
Proof.
  unfold processPlayerAttack. intros H. crack H; armor_of_loops;
    first [reflexivity|congruence].
Qed.

Lemma followOption_armor_combat (h : Host) (npcId : string) (npc : NPC)
    (option : DialogueOption) (s : GameState) :
  callbacksEvolve h ->
  armorClass (character (followOption h npcId npc option s))
    = armorClass (character s) /\
  combat (followOption h npcId npc option s) = combat s /\
  char_id (character (followOption h npcId npc option s))
    = char_id (character s).
Proof.
  intros Hcb. unfold followOption.
  destruct (opt_action option) as [f|].
  - destruct (Hcb f s) as ([_ (Hid & _) _ _ _ _] & Hac & Hc).
    repeat case_match; cbn; by rewrite ?Hac, ?Hc, ?Hid.
  - repeat case_match; by cbn.
Qed.

(** X2. No action changes the armor class of the character: DEFEND takes
    its +2 back before it returns, and nothing else writes it. *)
Theorem armor_class_never_changes
    (h : Host) (fuel : nat) (s s' : GameState) (a : GameAction) (w w' : World) :
  callbacksEvolve h ->
  processAction h fuel s a w = Ok (s', w') ->
  armorClass (character s') = armorClass (character s).
Proof.
  intros Hcb H. unfold processAction in H.
  destruct (negb (isAlive (character s)) && negb (isLoadGame a))%bool;
    [by crack H|].
  destruct a.
  - unfold handleMove in H. crack H; armor_of_loops;
      first [reflexivity|congruence].
  - unfold handleTalk in H. by crack H.
  - unfold handleDialogueSelect in H. crack H; try reflexivity.
    all: match goal with
         | |- context [followOption ?h0 ?i ?n ?o ?s0] =>
             destruct (followOption_armor_combat h0 i n o s0 Hcb) as (Hac & _);
             by rewrite Hac
         end.
  - unfold handleTake in H. by crack H.
  - unfold handleUse in H. by crack H.
  - unfold handleDrop in H. by crack H.
  - unfold handleAttack in H. crack H;
      repeat match goal with
             | H : processPlayerAttack _ _ _ _ = Ok _ |- _ =>
                 apply processPlayerAttack_armor in H; cbn in H
             end; first [reflexivity|congruence].
  - unfold handleDefend in H. crack H; armor_of_loops; try reflexivity.
    cbn. lia.
  - unfold handleFlee in H. crack H; armor_of_loops;
      first [reflexivity|congruence].
  - unfold handleBuy, shopOf in H. by crack H.
  - unfold handleSell, shopOf in H. by crack H.
  - unfold handleRest in H. by crack H.
  - unfold handleLook in H. by crack H.
  - unfold handleInventory in H. rewrite foldl_addLog_eq in H. by crack H.
  - unfold handleStats in H. by crack H.
  - by crack H.
  - by crack H.
Qed.

(* ================================================================== *)
(** ** The closures of the world content are steps *)
(* ================================================================== *)

Lemma foldl_addShopLog_eq {A} (f : A -> string) (l : list A) (s : GameState) :
  foldl (fun acc x => addShopLog acc (f x)) s l =
  setGameLog s (gameLog s ++ map (fun x => mkLogEntry (f x) Info) l).
Proof. apply (foldl_addLog_eq f l s). Qed.

Lemma setGameLog_evolves (s : GameState) (l : list LogEntry) :
  Evolves s (setGameLog s (gameLog s ++ l)).
Proof. apply Evolves_same_rest; try done. by apply prefix_app_r. Qed.

Lemma worldHost_evolves (showNum fixed1 : Q -> string) :
  callbacksEvolve (worldHost showNum fixed1).
Proof.
  intros f s. cbn [callbacks worldHost].
  destruct f as [|[|[|f]]]; cbn [worldCallbacks];
    [split; [apply Evolves_refl|done]| | |split; [apply Evolves_refl|done]].
  - unfold listForSale. destruct (shopOf s "shopkeeper") as [[npc sh]|].
    + destruct (Nat.eqb _ _); [split; [apply (Evolves_addLog s)|done]|].
      cbv zeta. rewrite foldl_addShopLog_eq. split; [|done].
      apply Evolves_same_rest; try done. cbn. rewrite <- !app_assoc.
      by apply prefix_app_r.
    + split; [apply (Evolves_addLog s)|done].
  - unfold listSellable. destruct (shopOf s "shopkeeper") as [[npc sh]|];
      [|split; [apply Evolves_refl|done]].
    destruct (Nat.eqb _ _); [split; [apply (Evolves_addLog s)|done]|].
    cbv zeta. rewrite foldl_addShopLog_eq. split; [|done].
    apply Evolves_same_rest; try done. cbn. rewrite <- !app_assoc.
    by apply prefix_app_r.
Qed.

(* ================================================================== *)
(** ** Invariants of the reducer *)
(* ================================================================== *)

(** X3. The game log is append-only: whatever the action, the log of the
    input state is a prefix of the log of the state returned. *)
Theorem log_is_append_only
    (h : Host) (fuel : nat) (s s' : GameState) (a : GameAction) (w w' : World) :
  callbacksEvolve h ->
  processAction h fuel s a w = Ok (s', w') ->
  gameLog s `prefix_of` gameLog s'.
Proof. intros Hcb H. by destruct (processAction_evolves _ _ _ _ _ _ _ Hcb H). Qed.

Lemma log_is_append_only_witness :
  exists s' w',
    processAction Scene.host 0 Scene.browsing (DIALOGUE_SELECT 0)
      (Sample.worldOf []) = Ok (s', w') /\
    length (gameLog s') = 6%nat /\
    gameLog Scene.browsing `prefix_of` gameLog s'.
Proof.
  destruct (processAction Scene.host 0 Scene.browsing (DIALOGUE_SELECT 0)
              (Sample.worldOf [])) as [[s' w']| |] eqn:E;
    [|vm_compute in E; discriminate|vm_compute in E; discriminate].
  exists s', w'. split; [reflexivity|]. split.
  - vm_compute in E. by simplify_eq.
  - exact (log_is_append_only _ _ _ _ _ _ _ (worldHost_evolves _ _) E).
Defined.

(** X4. Hit points stay within bounds: if [0 <= current <= max] holds in the
    input state it holds in the state returned, whatever the action (enemy
    hits, potions, rest, level-ups included). *)
Theorem hit_points_stay_within_bounds
    (h : Host) (fuel : nat) (s s' : GameState) (a : GameAction) (w w' : World) :
  callbacksEvolve h ->
  hpWithinBounds (character s) ->
  processAction h fuel s a w = Ok (s', w') ->
  hpWithinBounds (character s').
Proof.
  intros Hcb Hhp H. destruct (processAction_evolves _ _ _ _ _ _ _ Hcb H). auto.
Qed.

Lemma hit_points_stay_within_bounds_witness :
  exists s' w',
    processAction Scene.host 2 Sample.fighting DEFEND
      (Sample.worldOf
         [Sample.cellFor 20 20; Sample.cellFor 1 8; Sample.cellFor 1 8;
          Sample.cellFor 1 8]) = Ok (s', w') /\
    hitPoints (character s') = mkHitPoints 0 12 /\
    hpWithinBounds (character s').
Proof.
  destruct (processAction Scene.host 2 Sample.fighting DEFEND _)
    as [[s' w']| |] eqn:E;
    [|vm_compute in E; discriminate|vm_compute in E; discriminate].
  exists s', w'. split; [reflexivity|]. split.
  - vm_compute in E. by simplify_eq.
  - apply (fun Hhp => hit_points_stay_within_bounds _ _ _ _ _ _ _
                         (worldHost_evolves _ _) Hhp E).
    split; by vm_compute.
Defined.

(** X6. No action changes who the character is: id, name, race, class,
    ability scores, ability modifiers and carrying capacity of the state
    returned are those of the input. *)
Theorem character_identity_is_kept
    (h : Host) (fuel : nat) (s s' : GameState) (a : GameAction) (w w' : World) :
  callbacksEvolve h ->
  processAction h fuel s a w = Ok (s', w') ->
  char_id (character s') = char_id (character s) /\
  char_name (character s') = char_name (character s) /\
  char_race (character s') = char_race (character s) /\
  char_class (character s') = char_class (character s) /\
  abilityScores (character s') = abilityScores (character s) /\
  abilityModifiers (character s') = abilityModifiers (character s) /\
  maxWeight (inventory (character s')) = maxWeight (inventory (character s)).
Proof. intros Hcb H. by destruct (processAction_evolves _ _ _ _ _ _ _ Hcb H). Qed.

Lemma character_identity_is_kept_witness :
  exists s' w',
    processAction Scene.host 2 Sample.inCave (ATTACK "goblin-1")
      (Sample.worldOf
         [Sample.cellFor 10 20; Sample.cellFor 5 20; Sample.cellFor 20 20;
          Sample.cellFor 8 8; Sample.cellFor 41 41]) = Ok (s', w') /\
    experience (character s') = 100 /\
    char_id (character s') = "hero" /\
    abilityModifiers (character s') = mkAbilities 3 2 1 0 (-1) 1.
Proof.
  destruct (processAction Scene.host 2 Sample.inCave _ _)
    as [[s' w']| |] eqn:E;
    [|vm_compute in E; discriminate|vm_compute in E; discriminate].
  destruct (character_identity_is_kept _ _ _ _ _ _ _ (worldHost_evolves _ _) E)
    as (Hid & _ & _ & _ & _ & Hmod & _).
  exists s', w'. split; [reflexivity|]. split; [|split; [exact Hid|exact Hmod]].
  vm_compute in E. by simplify_eq.
Defined.

(** X7. The map of the world is static: no action adds or removes a
    location, and each location keeps its id, name, description and exits;
    a visited location stays visited, and the NPC list of a location can only
    lose ids, in order, never gain any. *)
Theorem world_map_is_static
    (h : Host) (fuel : nat) (s s' : GameState) (a : GameAction) (w w' : World)
    (k : string) :
  callbacksEvolve h ->
  processAction h fuel s a w = Ok (s', w') ->
  match locations s !! k, locations s' !! k with
  | Some l, Some l' =>
      loc_id l' = loc_id l /\ loc_name l' = loc_name l /\
      loc_description l' = loc_description l /\
      connections l' = connections l /\
      (visited l = true -> visited l' = true) /\
      sublist (loc_npcs l') (loc_npcs l)
  | None, None => True
  | _, _ => False
  end.
Proof.
  intros Hcb H. destruct (processAction_evolves _ _ _ _ _ _ _ Hcb H).
  by destruct (ev_locations0 k).
Qed.

Lemma world_map_is_static_witness :
  exists s' w',
    processAction Scene.host 5 Sample.world (MOVE "north")
      (Sample.worldOf
         [Sample.cellFor 20 20; Sample.cellFor 1 20; Sample.cellFor 1 20])
      = Ok (s', w') /\
    currentLocationId s' = "cave" /\
    (connections <$> locations s' !! "cave") = Some (connections Sample.cave).
Proof.
  destruct (processAction Scene.host 5 Sample.world _ _)
    as [[s' w']| |] eqn:E;
    [|vm_compute in E; discriminate|vm_compute in E; discriminate].
  pose proof (world_map_is_static _ _ _ _ _ _ _ "cave"
                (worldHost_evolves _ _) E) as Hmap.
  assert (Hcave : locations Sample.world !! "cave" = Some Sample.cave)
    by (by vm_compute).
  rewrite Hcave in Hmap.
  assert (Hkept : (connections <$> locations s' !! "cave")
                  = Some (connections Sample.cave)).
  { clear E Hcave. destruct (locations s' !! "cave") as [l'|]; [|done].
    destruct Hmap as (_ & _ & _ & Hconn & _). cbn [fmap option_fmap option_map].
    by rewrite <- Hconn. }
  exists s', w'. split; [reflexivity|]. split; [|exact Hkept].
  vm_compute in E. by simplify_eq.
Defined.

(** X8. NPCs are not altered by play: no action adds or removes an NPC of
    the state, and each keeps its id, name, description, dialogue,
    hostility, stats (a fight wounds copies, not the NPC of the state) and
    quest-giver flag; a shop stays a shop with the same multipliers, only its
    stock can change.  The quest list is never touched. *)
Theorem npcs_keep_all_but_their_stock
    (h : Host) (fuel : nat) (s s' : GameState) (a : GameAction) (w w' : World)
    (k : string) :
  callbacksEvolve h ->
  processAction h fuel s a w = Ok (s', w') ->
  quests s' = quests s /\
  match npcs s !! k, npcs s' !! k with
  | Some n, Some n' =>
      npc_id n' = npc_id n /\ npc_name n' = npc_name n /\
      npc_description n' = npc_description n /\ dialogue n' = dialogue n /\
      hostile n' = hostile n /\ stats n' = stats n /\
      questGiver n' = questGiver n /\
      match shop n, shop n' with
      | Some sh, Some sh' =>
          buyMultiplier sh' = buyMultiplier sh /\
          sellMultiplier sh' = sellMultiplier sh
      | None, None => True
      | _, _ => False
      end
  | None, None => True
  | _, _ => False
  end.
Proof.
  intros Hcb H. destruct (processAction_evolves _ _ _ _ _ _ _ Hcb H).
  split; [done|]. by destruct (ev_npcs0 k).
Qed.

(** The goblin survives, wounded, a first exchange of blows; the goblin of
    the state still has its 15 hit points. *)
Lemma npcs_keep_all_but_their_stock_witness :
  exists s' w' n',
    processAction Scene.host 5 Sample.inCave (ATTACK "goblin-1")
      (Sample.worldOf
         [Sample.cellFor 20 20; Sample.cellFor 1 20; Sample.cellFor 15 20;
          Sample.cellFor 1 8; Sample.cellFor 1 20]) = Ok (s', w') /\
    (stat_hitPoints <$> (head (enemies (combat s')) ≫= stats)) = Some 11 /\
    npcs s' !! "goblin-1" = Some n' /\
    (stat_hitPoints <$> stats n') = Some 15.
Proof.
  destruct (processAction Scene.host 5 Sample.inCave _ _)
    as [[s' w']| |] eqn:E;
    [|vm_compute in E; discriminate|vm_compute in E; discriminate].
  destruct (npcs_keep_all_but_their_stock _ _ _ _ _ _ _ "goblin-1"
              (worldHost_evolves _ _) E) as [_ Hnpc].
  assert (Hg : npcs Sample.inCave !! "goblin-1" = Some Sample.goblin)
    by (by vm_compute).
  rewrite Hg in Hnpc.
  assert (Hkept : exists n', npcs s' !! "goblin-1" = Some n' /\
                             (stat_hitPoints <$> stats n') = Some 15).
  { clear E Hg. destruct (npcs s' !! "goblin-1") as [n'|]; [|done].
    destruct Hnpc as (_ & _ & _ & _ & _ & Hstats & _).
    exists n'. split; [reflexivity|]. by rewrite Hstats. }
  destruct Hkept as (n' & Hn' & Hhp).
  exists s', w', n'. split; [reflexivity|]. split; [|split; [exact Hn'|exact Hhp]].
  vm_compute in E. by simplify_eq.
Defined.

Lemma armor_class_never_changes_witness :
  exists s' w',
    processAction Scene.host 2 Sample.fighting DEFEND
      (Sample.worldOf [Sample.cellFor 8 20]) = Ok (s', w') /\
    map log_message (gameLog s') =
      ["Aldric takes a defensive stance. (+2 AC until next turn)";
       "Ogre misses Aldric. (Rolled 13 vs AC 14)"] /\
    armorClass (character s') = 12.
Proof.
  destruct (processAction Scene.host 2 Sample.fighting DEFEND _)
    as [[s' w']| |] eqn:E;
    [|vm_compute in E; discriminate|vm_compute in E; discriminate].
  exists s', w'. split; [reflexivity|]. split.
  - vm_compute in E. by simplify_eq.
  - exact (armor_class_never_changes _ _ _ _ _ _ _ (worldHost_evolves _ _) E).
Defined.

(* ================================================================== *)
(** ** Whose turn it is *)
(* ================================================================== *)

Lemma handleCombatVictory_ends (s s' : GameState) (w w' : World) :
  handleCombatVictory s w = Ok (s', w') -> active (combat s') = false.
Proof.
  unfold handleCombatVictory, bind, ret. intros H.
  destruct (endCombat (combat s) w) as [[[xp gp] w1]| |]; [|done|done].
  destruct (awardExperience (character s) xp w1) as [[[c' up] w2]| |];
    [|done|done].
  simplify_eq. by destruct up.
Qed.

Ltac turn_of_loops :=
  first
    [ match goal with
      | H : runEnemyTurns _ _ _ = Ok _ |- _ =>
          right; exact (runEnemyTurns_exit _ _ _ _ _ H)
      | H : handleCombatVictory _ _ = Ok _ |- _ =>
          right; left; exact (handleCombatVictory_ends _ _ _ _ H)
      end
    | left; by cbn
    | right; left; by cbn ].

Lemma processPlayerAttack_turn (fuel : nat) (s s' : GameState)
    (targetId : string) (w w' : World) :
  processPlayerAttack fuel s targetId w = Ok (s', w') -> turnSettled s s'.
Proof.
  unfold processPlayerAttack, turnSettled. intros H. crack H; turn_of_loops.
Qed.

(** An attack on an enemy that is in the fight ends the fight or hands it
    back on the player's turn. *)
Lemma processPlayerAttack_acts (fuel : nat) (s s' : GameState)
    (targetId : string) (w w' : World) :
  List.find (fun e => String.eqb (npc_id e) targetId) (enemies (combat s))
    <> None ->
  processPlayerAttack fuel s targetId w = Ok (s', w') ->
  active (combat s') = false \/
  isPlayerTurn (combat s') (char_id (character s')) = true.
Proof.
  unfold processPlayerAttack. intros Hin H.
  destruct (List.find _ _) as [enemy|]; [clear Hin|done].
  crack H;
    match goal with
    | H : runEnemyTurns _ _ _ = Ok _ |- _ =>
        exact (runEnemyTurns_exit _ _ _ _ _ H)
    | H : handleCombatVictory _ _ = Ok _ |- _ =>
        left; exact (handleCombatVictory_ends _ _ _ _ H)
    end.
Qed.

Lemma initiateCombat_enemies (c : Character) (es : list NPC)
    (cs : CombatState) (w w' : World) :
  initiateCombat c es w = Ok (cs, w') -> enemies cs = es.
Proof.
  unfold initiateCombat, bind, ret. intros H.
  destruct (determineTurnOrder c es w) as [[o w1]| |]; by simplify_eq.
Qed.

Lemma processAction_turn
    (h : Host) (fuel : nat) (s s' : GameState) (a : GameAction) (w w' : World) :
  callbacksEvolve h ->
  npcsKeyed s ->
  processAction h fuel s a w = Ok (s', w') -> turnSettled s s'.
Proof.
  intros Hcb Hkeys H. unfold processAction in H.
  destruct (negb (isAlive (character s)) && negb (isLoadGame a))%bool;
    [crack H; by left|].
  destruct a.
  - unfold handleMove in H. unfold turnSettled. crack H; turn_of_loops.
  - unfold handleTalk in H. unfold turnSettled. crack H; turn_of_loops.
  - unfold handleDialogueSelect in H. unfold turnSettled.
    crack H; try (left; by cbn).
    all: match goal with
         | |- context [followOption ?h0 ?i ?n ?o ?s0] =>
             destruct (followOption_armor_combat h0 i n o s0 Hcb)
               as (_ & Hc & Hid);
             left; cbn; by rewrite ?Hc, ?Hid
         end.
  - unfold handleTake in H. unfold turnSettled. crack H; turn_of_loops.
  - unfold handleUse in H. unfold turnSettled. crack H; turn_of_loops.
  - unfold handleDrop in H. unfold turnSettled. crack H; turn_of_loops.
  - unfold handleAttack in H.
    destruct (negb (active (combat s))) eqn:Hact.
    + destruct (npcs s !! targetId) as [npc|] eqn:Hnpc;
        [|crack H; by left].
      destruct (stats npc); [|crack H; by left].
      cbv zeta in H. unfold bind in H.
      destruct (initiateCombat _ _ _) as [[cs w1]| |] eqn:Hinit;
        [|done|done].
      right. apply processPlayerAttack_acts in H; [done|].
      cbn. rewrite (initiateCombat_enemies _ _ _ _ _ Hinit). cbn.
      by rewrite (Hkeys _ _ Hnpc), String.eqb_refl.
    + destruct (negb (isPlayerTurn _ _)); [crack H; by left|].
      by apply processPlayerAttack_turn in H.
  - unfold handleDefend in H. unfold turnSettled. crack H; turn_of_loops.
  - unfold handleFlee in H. unfold turnSettled. crack H; turn_of_loops.
  - unfold handleBuy, shopOf in H. unfold turnSettled. crack H; turn_of_loops.
  - unfold handleSell, shopOf in H. unfold turnSettled. crack H; turn_of_loops.
  - unfold handleRest in H. unfold turnSettled. crack H; turn_of_loops.
  - unfold handleLook in H. unfold turnSettled. crack H; turn_of_loops.
  - unfold handleInventory in H. rewrite foldl_addLog_eq in H.
    unfold turnSettled. crack H; turn_of_loops.
  - unfold handleStats in H. unfold turnSettled. crack H; turn_of_loops.
  - crack H; by left.
  - crack H; by left.
Qed.

Lemma Sample_world_keyed : npcsKeyed Sample.world.
Proof.
  intros k n. unfold Sample.world. cbn [npcs].
  rewrite !lookup_insert_Some, lookup_empty.
  intros [[<- <-]|[_ [[<- <-]|[_ [[<- <-]|[_ ?]]]]]]; done.
Qed.

(** X9. The reducer never hands back a fight in which an enemy is to act:
    if NPCs are stored under their own ids and the input state is not in the
    middle of an enemy's turn, then in the state returned either no fight is
    on or it is the player's turn, whatever the action (walking into hostile
    NPCs and attacking out of a fight included). *)
Theorem control_returns_on_the_players_turn
    (h : Host) (fuel : nat) (s s' : GameState) (a : GameAction) (w w' : World) :
  callbacksEvolve h ->
  npcsKeyed s ->
  playerToAct s ->
  processAction h fuel s a w = Ok (s', w') ->
  playerToAct s'.
Proof.
  intros Hcb Hkeys Hturn H.
  destruct (processAction_turn _ _ _ _ _ _ _ Hcb Hkeys H)
    as [[Hc Hid]|[Hoff|Hon]]; unfold playerToAct in *.
  - by rewrite Hc, Hid.
  - intros Hact. by rewrite Hoff in Hact.
  - done.
Qed.

(** The goblin of the cave wins the initiative, strikes first and misses;
    the hero is then to act. *)
Lemma control_returns_on_the_players_turn_witness :
  exists s' w',
    processAction Scene.host 5 Sample.world (MOVE "north")
      (Sample.worldOf
         [Sample.cellFor 1 20; Sample.cellFor 20 20; Sample.cellFor 2 20])
      = Ok (s', w') /\
    active (combat s') = true /\
    turnOrder (combat s') = ["goblin-1"; "hero"] /\
    currentTurnIndex (combat s') = 1 /\
    playerToAct s'.
Proof.
  destruct (processAction Scene.host 5 Sample.world _ _)
    as [[s' w']| |] eqn:E;
    [|vm_compute in E; discriminate|vm_compute in E; discriminate].
  assert (Hturn : playerToAct s').
  { apply (fun Hkeys Hturn =>
             control_returns_on_the_players_turn _ _ _ _ _ _ _
               (worldHost_evolves _ _) Hkeys Hturn E).
    - exact Sample_world_keyed.
    - intros Hact. by vm_compute in Hact. }
  exists s', w'. split; [reflexivity|].
  vm_compute in E. by simplify_eq.
Defined.

(* ================================================================== *)
(** ** Commands that only report *)
(* ================================================================== *)

Lemma addLog_setGameLog (s : GameState) (l : list LogEntry) (msg : string)
    (type : LogType) :
  addLog (setGameLog s l) msg type = setGameLog s (l ++ [mkLogEntry msg type]).
Proof. reflexivity. Qed.

Lemma setGameLog_setGameLog (s : GameState) (l l' : list LogEntry) :
  setGameLog (setGameLog s l) l' = setGameLog s l'.
Proof. reflexivity. Qed.

(** Bring a chain of [addLog] on [s] to the form [setGameLog s (gameLog s ++ _)]
    and read the lines off. *)
Ltac lines_logged s :=
  unfold ret;
  rewrite ?foldl_addLog_eq;
  change (gameLog (setGameLog s ?l)) with l;
  repeat (unfold addLog at 1; cbn [gameLog setGameLog]);
  eexists; split; [|f_equal; f_equal; unfold setGameLog; f_equal;
                    rewrite <- ?app_assoc; reflexivity];
  cbn; discriminate.

(** X10. LOOK, INVENTORY, STATS, SAVE_GAME and LOAD_GAME always succeed,
    draw no random number and change nothing but the log, to which they add
    at least one line: they cost no turn, in or out of a fight, alive or
    dead. *)
Theorem reports_only_write_the_log
    (h : Host) (fuel : nat) (s : GameState) (a : GameAction) (w : World) :
  isReadOnly a = true ->
  exists lines,
    lines <> [] /\
    processAction h fuel s a w = Ok (setGameLog s (gameLog s ++ lines), w).
Proof.
  intros Ha. unfold processAction.
  destruct (negb (isAlive (character s)) && negb (isLoadGame a))%bool.
  { by exists [mkLogEntry "You are dead. Your adventure is over." Error]. }
  destruct a; try discriminate Ha; clear Ha.
  - unfold handleLook.
    destruct (locations s !! currentLocationId s) as [location|];
      [|by eexists [_]].
    cbv zeta. repeat case_match; lines_logged s.
  - unfold handleInventory. cbv zeta. case_match; [by eexists [_]|].
    lines_logged s.
  - unfold handleStats. cbv zeta. lines_logged s.
  - by eexists [_].
  - by eexists [_].
Qed.

Lemma reports_only_write_the_log_witness :
  exists lines,
    lines <> [] /\
    processAction Scene.host 0 Sample.fighting INVENTORY (Sample.worldOf []) =
    Ok (setGameLog Sample.fighting (gameLog Sample.fighting ++ lines),
        Sample.worldOf []).
Proof. apply reports_only_write_the_log. reflexivity. Defined.

(* ================================================================== *)
(** ** Rest *)
(* ================================================================== *)

(** X11. REST, for a living character out of combat in one of the two rest
    locations whose hit points are within bounds, always succeeds, draws no
    random number and leaves the character at full health: current hit
    points equal the unchanged maximum.  It is free: gold, inventory,
    experience, locations, NPCs and place are as before. *)
Theorem rest_restores_full_health
    (h : Host) (fuel : nat) (s : GameState) (w : World) :
  isAlive (character s) = true ->
  active (combat s) = false ->
  includes REST_LOCATIONS (currentLocationId s) = true ->
  hpWithinBounds (character s) ->
  exists s',
    processAction h fuel s REST w = Ok (s', w) /\
    hitPoints (character s') =
      mkHitPoints (hp_max (hitPoints (character s)))
        (hp_max (hitPoints (character s))) /\
    gold (character s') = gold (character s) /\
    inventory (character s') = inventory (character s) /\
    experience (character s') = experience (character s) /\
    level (character s') = level (character s) /\
    currentLocationId s' = currentLocationId s /\
    locations s' = locations s /\ npcs s' = npcs s /\ combat s' = combat s.
Proof.
  intros Halive Hact Hloc [Hlo Hhi].
  rewrite processAction_alive by done. unfold handleRest.
  rewrite Hact, Hloc. cbn [negb].
  destruct (_ >=? _) eqn:E; eexists; (split; [reflexivity|]); cbn.
  - rewrite Z.geb_leb in E. apply Z.leb_le in E.
    split; [|done]. destruct (hitPoints (character s)) as [cur mx].
    cbn in *. f_equal. lia.
  - split; [|done]. f_equal.
    unfold isAlive in Halive. apply Z.ltb_lt in Halive. lia.
Qed.

Lemma rest_restores_full_health_witness :
  exists s',
    processAction Scene.host 0 Scene.camping REST (Sample.worldOf []) =
      Ok (s', Sample.worldOf []) /\
    hitPoints (character s') = mkHitPoints 12 12 /\
    gold (character s') = 100.
Proof.
  destruct (rest_restores_full_health Scene.host 0 Scene.camping
              (Sample.worldOf [])) as (s' & Hrun & Hhp & Hgold & _).
  - reflexivity.
  - reflexivity.
  - reflexivity.
  - split; by vm_compute.
  - exists s'. split; [exact Hrun|]. split; [exact Hhp|exact Hgold].
Defined.

(* ================================================================== *)
(** ** The turn order *)
(* ================================================================== *)

Lemma setKey_keys (id : string) (v : Z) (o : list (string * Z)) (k : string) :
  k ∈ (setKey id v o).*1 <-> k = id \/ k ∈ o.*1.
Proof.
  induction o as [|[k' x] o IH]; cbn [setKey fmap list_fmap fst].
  - rewrite list_elem_of_singleton, elem_of_nil. tauto.
  - destruct (String.eqb_spec k' id) as [->|Hne]; cbn [fmap list_fmap fst];
      rewrite !elem_of_cons; [tauto|]. fold (fmap (M:=list) fst (setKey id v o)).
    rewrite IH. tauto.
Qed.

Lemma setKey_NoDup (id : string) (v : Z) (o : list (string * Z)) :
  NoDup o.*1 -> NoDup (setKey id v o).*1.
Proof.
  induction o as [|[k' x] o IH]; cbn [setKey fmap list_fmap fst]; intros Hnd.
  - apply NoDup_singleton.
  - destruct (String.eqb_spec k' id) as [->|Hne]; [done|].
    cbn [fmap list_fmap fst]. fold (fmap (M:=list) fst (setKey id v o)).
    apply NoDup_cons in Hnd as [Hnotin Hnd]. apply NoDup_cons. split; [|auto].
    rewrite setKey_keys. intros [->|Hin]; done.
Qed.

Lemma rollEnemyInitiatives_keys (es : list NPC) (inits : list (string * Z))
    (w : World) :
  exists inits',
    rollEnemyInitiatives es inits w = Ok (inits', advanceN (length es) w) /\
    (NoDup inits.*1 -> NoDup inits'.*1) /\
    (forall k, k ∈ inits'.*1 <-> k ∈ inits.*1 \/ k ∈ map npc_id es).
Proof.
  revert inits w. induction es as [|e es IH]; intros inits w;
    cbn [rollEnemyInitiatives length advanceN map].
  - exists inits. split; [done|]. split; [done|]. intros k.
    rewrite elem_of_nil. tauto.
  - unfold rollInitiative, bind. rewrite rollDice_eq by lia. unfold ret.
    destruct (IH (setKey (npc_id e)
                    (floorDraw 20 w + 1 +
                     match stats e with
                     | Some st => (stat_armorClass st - 10) / 2
                     | None => 0
                     end) inits) (advance w)) as (inits' & Hrun & Hnd & Hin).
    exists inits'. split; [exact Hrun|]. split.
    + intros H. by apply Hnd, setKey_NoDup.
    + intros k. rewrite Hin, setKey_keys, elem_of_cons. tauto.
Qed.

Lemma insertByInitiative_perm (x : string * Z) (l : list (string * Z)) :
  insertByInitiative x l ≡ₚ x :: l.
Proof.
  induction l as [|y l IH]; cbn [insertByInitiative]; [done|].
  destruct (snd x <? snd y); [|done]. rewrite IH. apply Permutation_swap.
Qed.

Lemma insertByInitiative_sorted (x : string * Z) (l : list (string * Z)) :
  StronglySorted ranksBefore l ->
  StronglySorted ranksBefore (insertByInitiative x l).
Proof.
  induction 1 as [|y l Hs IH Hall]; cbn [insertByInitiative].
  - by repeat constructor.
  - destruct (Z.ltb_spec (snd x) (snd y)) as [Hlt|Hge].
    + constructor; [done|]. rewrite insertByInitiative_perm.
      constructor; [unfold ranksBefore; lia|done].
    + constructor; [by constructor|]. constructor; [done|].
      eapply Forall_impl; [exact Hall|]. unfold ranksBefore. intros; lia.
Qed.

Lemma sortByInitiative_perm (l : list (string * Z)) : sortByInitiative l ≡ₚ l.
Proof.
  unfold sortByInitiative. induction l as [|x l IH]; cbn [foldr]; [done|].
  by rewrite insertByInitiative_perm, IH.
Qed.

Lemma sortByInitiative_sorted (l : list (string * Z)) :
  StronglySorted ranksBefore (sortByInitiative l).
Proof.
  unfold sortByInitiative. induction l as [|x l IH]; cbn [foldr].
  - constructor.
  - by apply insertByInitiative_sorted.
Qed.

Lemma insertByIndex_perm (x : Z * (string * Z)) (l : list (Z * (string * Z))) :
  insertByIndex x l ≡ₚ x :: l.
Proof.
  induction l as [|y l IH]; cbn [insertByIndex]; [done|].
  destruct (fst x <? fst y); [done|]. rewrite IH. apply Permutation_swap.
Qed.

Lemma objectEntries_perm (o : list (string * Z)) : objectEntries o ≡ₚ o.
Proof.
  unfold objectEntries. induction o as [|e o IH]; [done|].
  cbn [omap list_omap List.filter].
  destruct (arrayIndex (fst e)) as [n|]; cbn [foldr].
  - rewrite insertByIndex_perm. cbn [map snd app]. by rewrite IH.
  - rewrite <- Permutation_middle. by rewrite IH.
Qed.

(** X12. [determineTurnOrder] always succeeds and draws one random number
    per combatant.  The order it returns lists the character's id and every
    enemy id, each exactly once (enemies that share an id share one slot),
    and nothing else, by descending initiative: it is the list of ids of the
    returned initiatives sorted so that no entry has a lower initiative than
    a later one. *)
Theorem turn_order_ranks_every_combatant_once
    (c : Character) (es : list NPC) (w : World) :
  exists order initiatives ranked,
    determineTurnOrder c es w =
      Ok ((order, initiatives), advanceN (S (length es)) w) /\
    NoDup order /\
    (forall id, id ∈ order <-> id = char_id c \/ id ∈ map npc_id es) /\
    order = ranked.*1 /\ ranked ≡ₚ initiatives /\
    StronglySorted ranksBefore ranked.
Proof.
  unfold determineTurnOrder, rollInitiative, bind.
  rewrite rollDice_eq by lia. unfold ret.
  destruct (rollEnemyInitiatives_keys es
              (setKey (char_id c)
                 (floorDraw 20 w + 1 + dexterity (abilityModifiers c)) [])
              (advance w)) as (inits & Hrun & Hnd & Hin).
  rewrite Hrun.
  exists (sortByInitiative (objectEntries inits)).*1, inits,
         (sortByInitiative (objectEntries inits)).
  split; [reflexivity|].
  assert (Hperm : sortByInitiative (objectEntries inits) ≡ₚ inits)
    by (by rewrite sortByInitiative_perm, objectEntries_perm).
  split; [|split; [|split; [done|split; [done|apply sortByInitiative_sorted]]]].
  - rewrite Hperm. apply Hnd. cbn. apply NoDup_singleton.
  - intros id. rewrite Hperm, Hin. cbn. rewrite list_elem_of_singleton. tauto.
Qed.

(** X13. [nextTurn] walks the turn order round and round: from a cursor that
    is inside the order, [k] calls leave the cursor at
    [(cursor + k) mod length] and add [(cursor + k) / length] to the round
    counter; so one call per combatant brings the same combatant back, one
    round later.  The order, the enemies and the other fields of the fight
    are not touched. *)
Theorem nextTurn_goes_round (cb : CombatState) (k : nat) :
  0 <= currentTurnIndex cb < lengthZ (turnOrder cb) ->
  currentTurnIndex (Nat.iter k nextTurn cb) =
    (currentTurnIndex cb + Z.of_nat k) mod lengthZ (turnOrder cb) /\
  round (Nat.iter k nextTurn cb) =
    round cb + (currentTurnIndex cb + Z.of_nat k) / lengthZ (turnOrder cb) /\
  turnOrder (Nat.iter k nextTurn cb) = turnOrder cb /\
  enemies (Nat.iter k nextTurn cb) = enemies cb /\
  active (Nat.iter k nextTurn cb) = active cb /\
  enemyMaxHPs (Nat.iter k nextTurn cb) = enemyMaxHPs cb /\
  totalEnemyCount (Nat.iter k nextTurn cb) = totalEnemyCount cb.
Proof.
  intros Hidx. induction k as [|k IH].
  - cbn [Nat.iter nat_rect]. rewrite Z.add_0_r, Z.mod_small, Z.div_small by lia.
    rewrite Z.add_0_r. by repeat split.
  - change (Nat.iter (S k) nextTurn cb) with (nextTurn (Nat.iter k nextTurn cb)).
    destruct IH as (Hi & Hr & Ho & He & Ha & Hm & Ht).
    set (cb' := Nat.iter k nextTurn cb) in *.
    unfold nextTurn. rewrite Ho.
    set (n := lengthZ (turnOrder cb)) in *.
    set (i := currentTurnIndex cb) in *.
    assert (Hstep : i + Z.of_nat (S k) = i + Z.of_nat k + 1) by lia.
    rewrite Hstep.
    pose proof (Z.div_mod (i + Z.of_nat k) n ltac:(lia)) as Hdm.
    pose proof (Z.mod_pos_bound (i + Z.of_nat k) n ltac:(lia)) as Hmb.
    destruct (Z.geb_spec (currentTurnIndex cb' + 1) n) as [Hwrap|Hin];
      cbn [currentTurnIndex round turnOrder enemies active enemyMaxHPs
           totalEnemyCount]; rewrite Hi in *.
    + assert (Hq : (i + Z.of_nat k + 1) / n = (i + Z.of_nat k) / n + 1)
        by (symmetry; apply (Z.div_unique_pos _ _ _ 0); lia).
      assert (Hm' : (i + Z.of_nat k + 1) mod n = 0)
        by (symmetry;
            apply (Z.mod_unique_pos _ _ ((i + Z.of_nat k) / n + 1)); lia).
      rewrite Hq, Hm', Hr. split; [done|]. split; [lia|by repeat split].
    + assert (Hq : (i + Z.of_nat k + 1) / n = (i + Z.of_nat k) / n)
        by (symmetry;
            apply (Z.div_unique_pos _ _ _ ((i + Z.of_nat k) mod n + 1)); lia).
      assert (Hm' : (i + Z.of_nat k + 1) mod n = (i + Z.of_nat k) mod n + 1)
        by (symmetry;
            apply (Z.mod_unique_pos _ _ ((i + Z.of_nat k) / n)); lia).
      rewrite Hq, Hm', Hr. by repeat split.
Qed.

Lemma nextTurn_goes_round_witness :
  currentTurnIndex (Nat.iter 2 nextTurn Sample.goblinFight) = 0 /\
  round (Nat.iter 2 nextTurn Sample.goblinFight) = 2.
Proof.
  destruct (nextTurn_goes_round Sample.goblinFight 2) as (Hi & Hr & _).
  - by vm_compute.
  - split; [exact Hi|exact Hr].
Defined.

(* ================================================================== *)
(** ** Wounding an enemy *)
(* ================================================================== *)

Lemma find_Some_holds {A} (f : A -> bool) (l : list A) (x : A) :
  List.find f l = Some x -> x ∈ l /\ f x = true.
Proof.
  induction l as [|y l IH]; cbn [List.find]; [done|].
  destruct (f y) eqn:E.
  - intros [= ->]. split; [apply list_elem_of_here|done].
  - intros H. destruct (IH H). split; [by apply list_elem_of_further|done].
Qed.

(** X14. [updateEnemyHP] keeps only enemies that still stand (hit points
    above 0, or no stats).  When it reports a defeated enemy, that enemy
    bears the target id, has exactly 0 hit points, and the target id is gone
    from the turn order while every other id keeps its place; otherwise the
    turn order is unchanged.  Standing enemies with another id are kept as
    they are, and the cursor, the round and the reward count are not
    touched. *)
Theorem updateEnemyHP_keeps_the_standing
    (cb : CombatState) (enemyId : string) (dmg : Z) :
  let upd := updateEnemyHP cb enemyId dmg in
  Forall (fun e => stillStanding e = true) (enemies (upd_combat upd)) /\
  match defeatedEnemy upd with
  | Some d =>
      enemyDefeated upd = true /\ npc_id d = enemyId /\
      (stat_hitPoints <$> stats d) = Some 0 /\
      turnOrder (upd_combat upd) =
        List.filter (fun id => negb (String.eqb id enemyId)) (turnOrder cb) /\
      enemyId ∉ turnOrder (upd_combat upd)
  | None =>
      enemyDefeated upd = false /\ turnOrder (upd_combat upd) = turnOrder cb
  end /\
  (forall e, e ∈ enemies cb -> npc_id e <> enemyId ->
             stillStanding e = true -> e ∈ enemies (upd_combat upd)) /\
  currentTurnIndex (upd_combat upd) = currentTurnIndex cb /\
  round (upd_combat upd) = round cb /\
  totalEnemyCount (upd_combat upd) = totalEnemyCount cb /\
  enemyMaxHPs (upd_combat upd) = enemyMaxHPs cb /\
  active (upd_combat upd) = active cb.
Proof.
  cbv zeta. unfold updateEnemyHP.
  cbn [upd_combat enemies defeatedEnemy enemyDefeated turnOrder
       currentTurnIndex round totalEnemyCount enemyMaxHPs active].
  split; [|split; [|split; [|done]]].
  - apply Forall_forall. intros e He. apply list_elem_of_In in He.
    by apply filter_In in He as [_ He].
  - destruct (List.find _ _) as [d|] eqn:Hfind; [|done].
    apply find_Some_holds in Hfind as [Hin Hd].
    apply andb_true_iff in Hd as [Hid Hhp].
    apply String.eqb_eq in Hid.
    split; [done|]. split; [done|]. split; [|split; [done|]].
    + apply list_elem_of_In, in_map_iff in Hin as (e & <- & _).
      destruct (stats e) as [st|] eqn:Hst.
      * destruct (String.eqb (npc_id e) enemyId) eqn:Heq.
        -- cbn in Hhp |- *. apply Z.leb_le in Hhp. f_equal. lia.
        -- cbn in Hid. apply String.eqb_neq in Heq. done.
      * by rewrite Hst in Hhp.
    + intros Hin'. apply list_elem_of_In, filter_In in Hin' as [_ Hne].
      by rewrite String.eqb_refl in Hne.
  - intros e He Hne Hstand. apply list_elem_of_In, filter_In.
    split; [|done]. apply in_map_iff. exists e.
    split; [|by apply list_elem_of_In].
    destruct (stats e); [|done].
    apply String.eqb_neq in Hne. by rewrite Hne.
Qed.

(* ================================================================== *)
(** ** Damage expressions *)
(* ================================================================== *)

Lemma parseDigitsFrom_acc (d : Decimal.uint) (acc : positive) :
  parseDigitsFrom (Z.pos acc) (NilEmpty.string_of_uint d) =
  Z.pos (Pos.of_uint_acc d acc).
Proof.
  revert acc. induction d as [|d IH|d IH|d IH|d IH|d IH|d IH|d IH|d IH|d IH|d IH];
    intros acc; [reflexivity|..];
    cbn [NilEmpty.string_of_uint parseDigitsFrom Pos.of_uint_acc];
    rewrite <- IH; f_equal; vm_compute nat_of_ascii; lia.
Qed.

Lemma parseDigits_of_uint (d : Decimal.uint) :
  parseDigits (NilEmpty.string_of_uint d) = Z.of_N (Pos.of_uint d).
Proof.
  unfold parseDigits.
  induction d as [|d IH|d IH|d IH|d IH|d IH|d IH|d IH|d IH|d IH|d IH];
    [reflexivity|exact IH|..];
    cbn [NilEmpty.string_of_uint parseDigitsFrom Pos.of_uint];
    exact (parseDigitsFrom_acc d _).
Qed.

Lemma showZ_nonneg (z : Z) :
  0 <= z -> exists d, d <> Decimal.Nil /\ showZ z = NilEmpty.string_of_uint d /\
                      Z.of_N (Pos.of_uint d) = z.
Proof.
  intros Hz. destruct z as [|p|p]; [| |lia].
  - by exists (Decimal.D0 Decimal.Nil).
  - exists (Pos.to_uint p). split; [apply Unsigned.to_uint_nonnil|].
    split; [|by rewrite DecimalPos.Unsigned.of_to].
    unfold showZ. cbn [Z.to_int NilZero.string_of_int].
    pose proof (Unsigned.to_uint_nonnil p).
    unfold NilZero.string_of_uint. by destruct (Pos.to_uint p).
Qed.

Lemma parseDigits_showZ (z : Z) : 0 <= z -> parseDigits (showZ z) = z.
Proof.
  intros Hz. destruct (showZ_nonneg z Hz) as (d & _ & -> & <-).
  apply parseDigits_of_uint.
Qed.

Lemma append_cons (c : ascii) (s r : string) :
  String c s +:+ r = String c (s +:+ r).
Proof. reflexivity. Qed.

Lemma append_empty (r : string) : EmptyString +:+ r = r.
Proof. reflexivity. Qed.

Lemma spanDigits_of_uint (d : Decimal.uint) (rest : string) :
  noDigitAhead rest ->
  spanDigits (NilEmpty.string_of_uint d +:+ rest) =
  (NilEmpty.string_of_uint d, rest).
Proof.
  intros Hrest.
  induction d as [|d IH|d IH|d IH|d IH|d IH|d IH|d IH|d IH|d IH|d IH];
    cbn [NilEmpty.string_of_uint]; rewrite ?append_cons, ?append_empty;
    cbn [spanDigits];
    try (change (isDigit _) with true; cbv iota; by rewrite IH).
  destruct rest as [|c r]; [done|]. cbn [spanDigits].
  unfold noDigitAhead in Hrest. by rewrite Hrest.
Qed.

Lemma spanDigits_showZ (z : Z) (rest : string) :
  0 <= z -> noDigitAhead rest -> spanDigits (showZ z +:+ rest) = (showZ z, rest).
Proof.
  intros Hz Hrest. destruct (showZ_nonneg z Hz) as (d & _ & -> & _).
  by apply spanDigits_of_uint.
Qed.

Lemma showZ_nonempty (z : Z) : 0 <= z -> String.eqb (showZ z) EmptyString = false.
Proof.
  intros Hz. destruct (showZ_nonneg z Hz) as (d & Hd & -> & _).
  by destruct d.
Qed.

Lemma append_nil_r (s : string) : s +:+ EmptyString = s.
Proof. induction s as [|c s IH]; [done|]. by rewrite append_cons, IH. Qed.

Lemma matchModifier_signed (m : Z) : matchModifier (signed m) = m.
Proof.
  unfold signed. destruct (Z.geb_spec m 0) as [Hge|Hlt].
  - rewrite append_cons, append_empty. cbn [matchModifier].
    change (Ascii.eqb "+" "+") with true. cbv iota.
    rewrite <- (append_nil_r (showZ m)) at 1.
    rewrite spanDigits_showZ by (done || lia).
    rewrite showZ_nonempty by lia. by apply parseDigits_showZ.
  - rewrite append_empty. destruct m as [|p|p]; [lia|lia|].
    unfold showZ. cbn [Z.to_int NilZero.string_of_int matchModifier].
    change (Ascii.eqb "-" "+") with false.
    change (Ascii.eqb "-" "-") with true. cbv iota.
    change (NilZero.string_of_uint (Pos.to_uint p)) with (showZ (Z.pos p)).
    rewrite <- (append_nil_r (showZ (Z.pos p))) at 1.
    rewrite spanDigits_showZ by (done || lia).
    rewrite showZ_nonempty by lia. by rewrite parseDigits_showZ by lia.
Qed.

Lemma signed_noDigitAhead (m : Z) : noDigitAhead (signed m).
Proof.
  unfold signed. destruct (m >=? 0) eqn:E.
  - by rewrite append_cons.
  - rewrite append_empty. destruct m as [|p|p]; [done|done|].
    by unfold showZ.
Qed.

Lemma matchDamage_here (s : string) (m : Z * Z * Z) :
  matchHere s = Some m -> matchDamage s = Some m.
Proof. intros H. destruct s; cbn [matchDamage]; by rewrite H. Qed.

(** The pattern reads a damage expression printed in the usual way back
    into its three numbers. *)
Lemma matchDamage_printed (n k : Z) (tail : string) :
  0 <= n -> 0 <= k -> noDigitAhead tail ->
  matchDamage (showZ n +:+ "d" +:+ showZ k +:+ tail) =
  Some (n, k, matchModifier tail).
Proof.
  intros Hn Hk Htail. apply matchDamage_here. unfold matchHere.
  rewrite spanDigits_showZ by (done || lia).
  rewrite showZ_nonempty by lia. rewrite append_cons, append_empty.
  change (Ascii.eqb "d" "d") with true. cbv iota.
  rewrite spanDigits_showZ by done.
  rewrite showZ_nonempty by lia. by rewrite !parseDigits_showZ by lia.
Qed.

Lemma rollDamageLoop_range (n : nat) (sides total : Z) (w : World) :
  1 <= sides ->
  exists t,
    rollDamageLoop n sides total w = Ok (t, advanceN n w) /\
    total + Z.of_nat n <= t <= total + Z.of_nat n * sides.
Proof.
  intros Hs. revert total w. induction n as [|n IH]; intros total w;
    cbn [rollDamageLoop advanceN].
  - exists total. split; [done|lia].
  - rewrite (bind_Ok _ _ w (advance w) _ (rollDice_eq sides w Hs)).
    destruct (IH (total + (floorDraw sides w + 1)) (advance w))
      as (t & Hrun & Ht).
    exists t. split; [exact Hrun|].
    pose proof (floorDraw_range sides w Hs). nia.
Qed.

Lemma rollDamage_of_match (s : string) (n k m : Z) (w : World) :
  matchDamage s = Some (n, k, m) -> 0 <= n -> 1 <= k ->
  exists d,
    rollDamage s w = Ok (d, advanceN (Z.to_nat n) w) /\
    Z.max 0 (n + m) <= d <= Z.max 0 (n * k + m).
Proof.
  intros Hmatch Hn Hk. unfold rollDamage. rewrite Hmatch.
  destruct (rollDamageLoop_range (Z.to_nat n) k m w Hk) as (t & Hrun & Ht).
  unfold bind. rewrite Hrun. unfold ret. exists (Z.max 0 t).
  split; [done|]. rewrite Z2Nat.id in Ht by done. lia.
Qed.

(** X15. [rollDamage] on an expression written as count, [d], sides and a
    signed modifier (such as 2d4+2 or 1d6-1), or without the modifier, with
    at least one side, never throws, draws one random number per die, and
    returns a value between [max(0, count + modifier)] and
    [max(0, count * sides + modifier)]: never a negative damage. *)
Theorem rollDamage_stays_in_range (n k m : Z) (w : World) :
  0 <= n -> 1 <= k ->
  (exists d,
     rollDamage (showZ n +:+ "d" +:+ showZ k +:+ signed m) w =
       Ok (d, advanceN (Z.to_nat n) w) /\
     Z.max 0 (n + m) <= d <= Z.max 0 (n * k + m)) /\
  (exists d,
     rollDamage (showZ n +:+ "d" +:+ showZ k) w =
       Ok (d, advanceN (Z.to_nat n) w) /\
     n <= d <= n * k).
Proof.
  intros Hn Hk. split.
  - apply rollDamage_of_match; [|done|done].
    rewrite matchDamage_printed by (lia || apply signed_noDigitAhead).
    by rewrite matchModifier_signed.
  - destruct (rollDamage_of_match (showZ n +:+ "d" +:+ showZ k) n k 0 w)
      as (d & Hrun & Hd); [|done|done|].
    + rewrite <- (append_nil_r (showZ k)) at 1.
      by rewrite matchDamage_printed by (lia || done).
    + exists d. split; [done|]. lia.
Qed.

Lemma rollDamage_stays_in_range_witness :
  (exists d,
     rollDamage "2d4+2" (Sample.worldOf [Sample.cellFor 3 4; Sample.cellFor 4 4])
       = Ok (d, advanceN 2
                  (Sample.worldOf [Sample.cellFor 3 4; Sample.cellFor 4 4])) /\
     4 <= d <= 10) /\
  (exists d,
     rollDamage "2d4" (Sample.worldOf [Sample.cellFor 3 4; Sample.cellFor 4 4])
       = Ok (d, advanceN 2
                  (Sample.worldOf [Sample.cellFor 3 4; Sample.cellFor 4 4])) /\
     2 <= d <= 8).
Proof.
  apply (rollDamage_stays_in_range 2 4 2); lia.
Defined.

(* ================================================================== *)
(** ** The player's attack *)
(* ================================================================== *)

Lemma append_assoc (a b x : string) : (a +:+ b) +:+ x = a +:+ b +:+ x.
Proof.
  induction a as [|ch a IH]; [reflexivity|].
  change (String ch ((a +:+ b) +:+ x) = String ch (a +:+ b +:+ x)).
  by rewrite IH.
Qed.

Lemma getWeaponDamage_matches (c : Character) :
  objectPrototypeText (char_class c) = None ->
  matchDamage (getWeaponDamage c false) =
  Some (1, weaponDie (char_class c), strength (abilityModifiers c)).
Proof.
  intros Hown. unfold getWeaponDamage.
  assert (Hmod : forall m, (if m >=? 0 then "+" +:+ showZ m else showZ m)
                           = signed m)
    by (intros m; unfold signed; by destruct (m >=? 0)).
  rewrite Hmod.
  assert (Hbase : default "1d6" (baseDamage false (char_class c))
                  = showZ 1 +:+ "d" +:+ showZ (weaponDie (char_class c))).
  { unfold baseDamage, baseDamageTable, weaponDie.
    revert Hown. generalize (char_class c). intros cls Hown.
    repeat match goal with
           | |- context [String.eqb cls ?k] =>
               destruct (String.eqb_spec cls k) as [->|?]; [reflexivity|]
           end.
    by rewrite Hown. }
  rewrite Hbase.
  rewrite !append_assoc.
  rewrite matchDamage_printed; [by rewrite matchModifier_signed|lia| |].
  - unfold weaponDie. repeat (destruct (String.eqb _ _); [lia|]). lia.
  - apply signed_noDigitAhead.
Qed.

Lemma weaponDie_positive (cls : string) : 1 <= weaponDie cls.
Proof. unfold weaponDie. repeat (destruct (String.eqb _ _); [lia|]). lia. Qed.

(** X16. An attack of the character on an enemy that has stats does not
    throw, provided the class of the character is not the name of a property
    that every object inherits (such as constructor, for which the lookup in
    the table of base damages finds the inherited property instead of
    falling back on 1d6): the weapon expression that [getWeaponDamage]
    builds then matches the pattern of [rollDamage].  With [die] the d8 of
    fighters and paladins, the d4 of wizards and the d6 of everyone else,
    and [str] the strength modifier: a natural 20 deals twice a roll between
    [max(0, 1 + str)] and [max(0, die + str)], whatever the armor class; any
    other roll whose total reaches the armor class deals one such roll (a
    natural 1 included); every other roll deals no damage. *)
Theorem characterAttack_lands_within_the_weapon_die
    (c : Character) (e : NPC) (st : Stats) (w : World) :
  stats e = Some st ->
  objectPrototypeText (char_class c) = None ->
  exists r w',
    characterAttack c e w = Ok (r, w') /\
    ar_roll (attackRoll r) = floorDraw 20 w + 1 /\
    1 <= ar_roll (attackRoll r) <= 20 /\
    ar_total (attackRoll r) = ar_roll (attackRoll r) + getAttackBonus c false /\
    let str := strength (abilityModifiers c) in
    let die := weaponDie (char_class c) in
    if ar_roll (attackRoll r) =? 20 then
      exists d, damage r = 2 * d /\
                Z.max 0 (1 + str) <= d <= Z.max 0 (die + str)
    else if ar_total (attackRoll r) >=? stat_armorClass st then
      Z.max 0 (1 + str) <= damage r <= Z.max 0 (die + str)
    else damage r = 0.
Proof.
  intros Hst Hown. unfold characterAttack. rewrite Hst.
  unfold makeAttackRoll, bind, recordAttackCall.
  match goal with |- context [rollDice 20 ?w0] => set (w1 := w0) end.
  rewrite rollDice_eq by lia. unfold ret.
  change (floorDraw 20 w1) with (floorDraw 20 w).
  cbn [critical hits criticalFail ar_total ar_roll].
  pose proof (floorDraw_range 20 w ltac:(lia)) as Hroll.
  set (roll := floorDraw 20 w + 1) in *.
  pose proof (weaponDie_positive (char_class c)) as Hdie.
  destruct (rollDamage_of_match _ _ _ _ (advance w1)
              (getWeaponDamage_matches c Hown) ltac:(lia) Hdie)
    as (d & Hrun & Hd).
  destruct (roll =? 20) eqn:Hcrit.
  - rewrite Hrun. eexists _, _. split; [reflexivity|].
    cbn [attackRoll ar_roll ar_total damage]. rewrite Hcrit.
    split; [done|]. split; [lia|]. split; [done|].
    exists d. split; lia.
  - rewrite orb_false_r.
    destruct (roll + getAttackBonus c false >=? stat_armorClass st) eqn:Hhit.
    + rewrite Hrun. eexists _, _. split; [reflexivity|].
      cbn [attackRoll ar_roll ar_total damage]. rewrite Hcrit, Hhit.
      split; [done|]. split; [lia|]. split; [done|]. lia.
    + destruct (roll =? 1); eexists _, _; (split; [reflexivity|]);
        cbn [attackRoll ar_roll ar_total damage]; rewrite Hcrit, Hhit;
        (split; [done|]); (split; [lia|]); done.
Qed.

Lemma characterAttack_lands_within_the_weapon_die_witness :
  exists r w',
    characterAttack Sample.hero Sample.goblin
      (Sample.worldOf [Sample.cellFor 20 20; Sample.cellFor 8 8])
      = Ok (r, w') /\
    ar_roll (attackRoll r) = 20 /\ damage r = 22.
Proof.
  destruct (characterAttack_lands_within_the_weapon_die
              Sample.hero Sample.goblin (mkStats 15 13 4 "1d6+2")
              (Sample.worldOf [Sample.cellFor 20 20; Sample.cellFor 8 8])
              eq_refl eq_refl) as (r & w' & Hrun & Hroll & _).
  exists r, w'. split; [exact Hrun|]. split; [exact Hroll|].
  vm_compute in Hrun. by simplify_eq.
Defined.

(** With the class constructor the lookup in the table of base damages
    finds the property that objects inherit: the expression is no damage
    expression, and the blow that lands throws. *)
Example characterAttack_with_an_inherited_class :
  characterAttack
    (mkCharacter "hero" "Aldric" "Human" "constructor" 1 0 (mkHitPoints 5 12)
       (mkAbilities 16 14 13 10 8 12) (mkAbilities 3 2 1 0 (-1) 1)
       (mkInventory [] 150 0) 100 12)
    Sample.goblin (Sample.worldOf [Sample.cellFor 20 20; Sample.cellFor 8 8])
  = Throw "Invalid damage string: function Object() { [native code] }+3".
Proof. by vm_compute. Qed.

(* ================================================================== *)
(** ** Items change hands, they are not made or lost *)
(* ================================================================== *)

(** The state after a hand-over, read field by field; the item that moved,
    [x], found at index [i] of the list [l] it left. *)
Ltac settle_hand_over :=
  unfold itemsAround, floorItems, stockOf, shopOf;
  cbn [addLog setGameLog setLocations setNpcs setCharacter setInventory setGold
       character currentLocationId locations npcs inventory inv_items];
  rewrite ?lookup_insert_eq;
  cbn [shop shop_items setShopItems setLocationItems loc_items];
  repeat match goal with
         | H : @lookup string _ _ _ _ _ = Some _ |- _ => rewrite H
         | H : shop _ = Some _ |- _ => rewrite H
         end;
  match goal with
  | H : @lookup nat _ _ _ ?i ?l = Some ?x |- _ =>
      let d := fresh "d" in
      pose proof (delete_Permutation l i x H) as HP;
      set (d := delete i l) in *;
      rewrite HP
  end;
  rewrite <- ?Permutation_cons_append; rewrite <- ?app_assoc; cbn [app];
  rewrite <- ?Permutation_middle; reflexivity.

(** X17. TAKE, DROP, BUY and SELL neither make nor lose an item: the items
    carried, lying where the character stands and in the stock of the
    merchant dealt with are, taken together, the same before and after, up
    to their order.  (A refused command moves nothing.) *)
Theorem items_change_hands
    (h : Host) (fuel : nat) (s s' : GameState) (a : GameAction) (w w' : World)
    (npcId : string) :
  movesItems a npcId = true ->
  processAction h fuel s a w = Ok (s', w') ->
  itemsAround s' npcId ≡ₚ itemsAround s npcId.
Proof.
  intros Hmv H. unfold processAction in H.
  destruct (negb (isAlive (character s)) && negb (isLoadGame a))%bool;
    [by crack H|].
  destruct a; try discriminate Hmv; cbn [movesItems] in Hmv.
  - unfold handleTake in H. crack H; try reflexivity. settle_hand_over.
  - unfold handleDrop in H. crack H; try reflexivity. settle_hand_over.
  - apply String.eqb_eq in Hmv as ->.
    unfold handleBuy, shopOf in H. crack H; try reflexivity. settle_hand_over.
  - apply String.eqb_eq in Hmv as ->.
    unfold handleSell, shopOf in H. crack H; try reflexivity. settle_hand_over.
Qed.

Lemma items_change_hands_witness :
  exists s' w',
    processAction Scene.host 0 Sample.armed (SELL "shop-longsword" "shopkeeper")
      (Sample.worldOf []) = Ok (s', w') /\
    length (stockOf s' "shopkeeper") =
      S (length (stockOf Sample.armed "shopkeeper")) /\
    itemsAround s' "shopkeeper" ≡ₚ itemsAround Sample.armed "shopkeeper".
Proof.
  destruct (processAction Scene.host 0 Sample.armed _ _)
    as [[s' w']| |] eqn:E;
    [|vm_compute in E; discriminate|vm_compute in E; discriminate].
  exists s', w'. split; [reflexivity|]. split.
  - vm_compute in E. by simplify_eq.
  - apply (fun Hmv => items_change_hands _ _ _ _ _ _ _ "shopkeeper" Hmv E).
    reflexivity.
Defined.

(* ================================================================== *)
(** ** Where the character stands *)
(* ================================================================== *)

Lemma runEnemyTurns_frame (fuel : nat) (s s' : GameState) (w w' : World) :
  runEnemyTurns fuel s w = Ok (s', w') -> sameButWounds s s'.
Proof.
  revert s w. induction fuel as [|fuel IH]; intros s w H;
    cbn [runEnemyTurns] in H; crack H; try (by repeat split).
  all: match goal with
       | H : runEnemyTurns _ _ _ = Ok _ |- _ => apply IH in H; exact H
       end.
Qed.

Lemma handleCombatVictory_place (s s' : GameState) (w w' : World) :
  handleCombatVictory s w = Ok (s', w') ->
  currentLocationId s' = currentLocationId s /\
  activeDialogue s' = activeDialogue s /\ npcs s' = npcs s.
Proof.
  unfold handleCombatVictory, bind, ret. intros H.
  destruct (endCombat (combat s) w) as [[[xp gp] w1]| |]; [|done|done].
  destruct (awardExperience (character s) xp w1) as [[[c' up] w2]| |];
    [|done|done].
  simplify_eq. by destruct up.
Qed.

(** Replace what is known of the loop and of the settlement by what they do
    to the place. *)
Ltac place_of_loops :=
  repeat match goal with
         | H : runEnemyTurns _ _ _ = Ok _ |- _ =>
             apply runEnemyTurns_frame in H; destruct H as (H & _); cbn in H
         | H : handleCombatVictory _ _ = Ok _ |- _ =>
             apply handleCombatVictory_place in H; destruct H as (H & _);
             cbn in H
         end.

Lemma processPlayerAttack_place (fuel : nat) (s s' : GameState)
    (targetId : string) (w w' : World) :
  processPlayerAttack fuel s targetId w = Ok (s', w') ->
  currentLocationId s' = currentLocationId s.
Proof.
  unfold processPlayerAttack. intros H. crack H; place_of_loops;
    first [reflexivity|congruence].
Qed.

Lemma followOption_place (h : Host) (npcId : string) (npc : NPC)
    (option : DialogueOption) (s : GameState) :
  callbacksStay h ->
  currentLocationId (followOption h npcId npc option s) = currentLocationId s.
Proof.
  intros Hcb. unfold followOption.
  destruct (opt_action option) as [f|].
  - repeat case_match; cbn; by rewrite ?Hcb.
  - repeat case_match; by cbn.
Qed.

Lemma processAction_place
    (h : Host) (fuel : nat) (s s' : GameState) (a : GameAction) (w w' : World) :
  callbacksStay h ->
  processAction h fuel s a w = Ok (s', w') ->
  currentLocationId s' = currentLocationId s \/
  exists direction here,
    a = MOVE direction /\
    locations s !! currentLocationId s = Some here /\
    getConnectedLocation here direction = Some (currentLocationId s') /\
    is_Some (locations s !! currentLocationId s').
Proof.
  intros Hcb H. unfold processAction in H.
  destruct (negb (isAlive (character s)) && negb (isLoadGame a))%bool;
    [crack H; by left|].
  destruct a.
  - unfold handleMove, truthyString in H. crack H; place_of_loops;
      try (by left); right; eexists _, _; (split; [reflexivity|]);
      cbn in *; (split; [eassumption|]); (split; [congruence|]);
      rewrite ?H; by eexists.
  - unfold handleTalk in H. left. by crack H.
  - unfold handleDialogueSelect in H. left. crack H; try reflexivity.
    all: by rewrite followOption_place.
  - unfold handleTake in H. left. by crack H.
  - unfold handleUse in H. left. by crack H.
  - unfold handleDrop in H. left. by crack H.
  - unfold handleAttack in H. left. crack H;
      repeat match goal with
             | H : processPlayerAttack _ _ _ _ = Ok _ |- _ =>
                 apply processPlayerAttack_place in H; cbn in H
             end; try first [reflexivity|congruence].
  - unfold handleDefend in H. left. crack H; place_of_loops;
      cbn; first [reflexivity|assumption].
  - unfold handleFlee in H. left. crack H; place_of_loops;
      first [reflexivity|congruence].
  - unfold handleBuy, shopOf in H. left. by crack H.
  - unfold handleSell, shopOf in H. left. by crack H.
  - unfold handleRest in H. left. by crack H.
  - unfold handleLook in H. left. by crack H.
  - unfold handleInventory in H. rewrite foldl_addLog_eq in H. left. by crack H.
  - unfold handleStats in H. left. by crack H.
  - left. by crack H.
  - left. by crack H.
Qed.

Lemma worldHost_stays (showNum fixed1 : Q -> string) :
  callbacksStay (worldHost showNum fixed1).
Proof.
  intros f s. cbn [callbacks worldHost].
  destruct f as [|[|[|f]]]; cbn [worldCallbacks]; try reflexivity.
  - unfold listForSale. destruct (shopOf s "shopkeeper") as [[npc sh]|];
      [|reflexivity].
    destruct (Nat.eqb _ _); [reflexivity|].
    cbv zeta. by rewrite foldl_addShopLog_eq.
  - unfold listSellable. destruct (shopOf s "shopkeeper") as [[npc sh]|];
      [|reflexivity].
    destruct (Nat.eqb _ _); [reflexivity|].
    cbv zeta. by rewrite foldl_addShopLog_eq.
Qed.

(** X18. The character changes place only by a MOVE along an exit of the
    location it stands in, to a location of the map: every other action,
    fleeing included, and every refused MOVE leave it where it is.  So a
    character that stands on the map stays on the map. *)
Theorem character_moves_only_along_exits
    (h : Host) (fuel : nat) (s s' : GameState) (a : GameAction) (w w' : World) :
  callbacksEvolve h ->
  callbacksStay h ->
  processAction h fuel s a w = Ok (s', w') ->
  (currentLocationId s' = currentLocationId s \/
   exists direction here,
     a = MOVE direction /\
     locations s !! currentLocationId s = Some here /\
     getConnectedLocation here direction = Some (currentLocationId s')) /\
  (is_Some (locations s !! currentLocationId s) ->
   is_Some (locations s' !! currentLocationId s')).
Proof.
  intros Hev Hstay H.
  pose proof (processAction_evolves _ _ _ _ _ _ _ Hev H) as [_ _ _ _ Hloc _].
  assert (Hkeep : forall k, is_Some (locations s !! k) ->
                            is_Some (locations s' !! k)).
  { intros k [l Hl]. specialize (Hloc k). rewrite Hl in Hloc.
    inversion Hloc. by eexists. }
  destruct (processAction_place _ _ _ _ _ _ _ Hstay H)
    as [Hsame|(direction & here & -> & Hhere & Hto & Hon)].
  - split; [by left|]. rewrite Hsame. apply Hkeep.
  - split; [right; by exists direction, here|]. intros _. by apply Hkeep.
Qed.

Lemma character_moves_only_along_exits_witness :
  exists s' w',
    processAction Scene.host 5 Sample.world (MOVE "north")
      (Sample.worldOf
         [Sample.cellFor 20 20; Sample.cellFor 1 20; Sample.cellFor 1 20])
      = Ok (s', w') /\
    getConnectedLocation Sample.square "north" = Some (currentLocationId s') /\
    is_Some (locations s' !! currentLocationId s').
Proof.
  destruct (processAction Scene.host 5 Sample.world _ _)
    as [[s' w']| |] eqn:E;
    [|vm_compute in E; discriminate|vm_compute in E; discriminate].
  destruct (character_moves_only_along_exits _ _ _ _ _ _ _
              (worldHost_evolves _ _) (worldHost_stays _ _) E)
    as [_ Hon].
  exists s', w'. split; [reflexivity|]. split.
  - vm_compute in E. by simplify_eq.
  - apply Hon. vm_compute. by eexists.
Defined.

(* ================================================================== *)
(** ** Progress *)
(* ================================================================== *)

Lemma callbacksOnlyLog_evolves (h : Host) :
  callbacksOnlyLog h -> callbacksEvolve h.
Proof.
  intros Hlog f s. destruct (Hlog f s) as [lines ->].
  split; [apply setGameLog_evolves|done].
Qed.

Lemma worldHost_only_logs (showNum fixed1 : Q -> string) :
  callbacksOnlyLog (worldHost showNum fixed1).
Proof.
  intros f s. cbn [callbacks worldHost].
  assert (Hnone : exists lines, s = setGameLog s (gameLog s ++ lines))
    by (exists []; rewrite app_nil_r; by destruct s).
  destruct f as [|[|[|f]]]; cbn [worldCallbacks]; try exact Hnone.
  - unfold listForSale. destruct (shopOf s "shopkeeper") as [[npc sh]|];
      [|by eexists [_]].
    destruct (Nat.eqb _ _); [by eexists [_]|].
    cbv zeta. rewrite foldl_addShopLog_eq. unfold addShopLog.
    cbn [gameLog setGameLog character currentLocationId locations npcs quests
         combat activeDialogue].
    rewrite <- !app_assoc. by eexists.
  - unfold listSellable. destruct (shopOf s "shopkeeper") as [[npc sh]|];
      [|exact Hnone].
    destruct (Nat.eqb _ _); [by eexists [_]|].
    cbv zeta. rewrite foldl_addShopLog_eq. unfold addShopLog.
    cbn [gameLog setGameLog character currentLocationId locations npcs quests
         combat activeDialogue].
    rewrite <- !app_assoc. by eexists.
Qed.

Lemma runEnemyTurns_count (fuel : nat) (s s' : GameState) (w w' : World) :
  runEnemyTurns fuel s w = Ok (s', w') ->
  totalEnemyCount (combat s') = totalEnemyCount (combat s) \/
  totalEnemyCount (combat s') = 0.
Proof.
  revert s w. induction fuel as [|fuel IH]; intros s w H;
    cbn [runEnemyTurns] in H; crack H; try (by left); try (by right).
  all: match goal with
       | H : runEnemyTurns _ _ _ = Ok _ |- _ => apply IH in H
       end.
  all: unfold nextTurn in *; cbn in *; by case_match.
Qed.

Lemma handleCombatVictory_progress (s s' : GameState) (w w' : World) :
  handleCombatVictory s w = Ok (s', w') ->
  0 <= totalEnemyCount (combat s) ->
  keepsProgress s s' /\ totalEnemyCount (combat s') = 0.
Proof.
  unfold handleCombatVictory, bind, ret. intros H Hcount.
  destruct (endCombat (combat s) w) as [[[xp gp] w1]| |] eqn:Hend;
    [|done|done].
  destruct (awardExperience (character s) xp w1) as [[[c' up] w2]| |] eqn:Ha;
    [|done|done].
  simplify_eq.
  destruct (awardExperience_grows _ _ _ _ _ _ Ha)
    as (Hxp & Hlev & _ & (bonus & Hb & _ & Hmax) & _).
  assert (0 <= xp).
  { unfold endCombat, bind in Hend. rewrite goldLoop_eq in Hend.
    unfold ret in Hend. simplify_eq. unfold orElseZ, lengthZ.
    destruct (_ =? 0); lia. }
  unfold keepsProgress. destruct up; cbn; (split; [|done]); lia.
Qed.
Lemma nextTurn_count (cb : CombatState) :
  totalEnemyCount (nextTurn cb) = totalEnemyCount cb.
Proof. unfold nextTurn. by destruct (_ >=? _). Qed.

Lemma updateEnemyHP_count (cb : CombatState) (enemyId : string) (dmg : Z) :
  totalEnemyCount (upd_combat (updateEnemyHP cb enemyId dmg))
    = totalEnemyCount cb.
Proof. reflexivity. Qed.

Lemma initiateCombat_count (c : Character) (es : list NPC) (cs : CombatState)
    (w w' : World) :
  initiateCombat c es w = Ok (cs, w') -> 0 <= totalEnemyCount cs.
Proof.
  unfold initiateCombat, bind, ret. intros H.
  destruct (determineTurnOrder c es w) as [[o w1]| |]; simplify_eq.
  cbn. unfold lengthZ. lia.
Qed.

(** The fields of the states built by the handlers, read off. *)
Ltac read_fields :=
  cbn [character combat experience level hitPoints hp_max hp_current
       totalEnemyCount addLog setGameLog setCombat setCharacter setLocations
       setNpcs setActiveDialogue setGold setInventory setHitPoints
       setArmorClass damageCharacter healCharacter noCombat gameLog
       currentLocationId locations npcs quests activeDialogue].

Ltac read_fields_in H :=
  cbn [character combat experience level hitPoints hp_max hp_current
       totalEnemyCount addLog setGameLog setCombat setCharacter setLocations
       setNpcs setActiveDialogue setGold setInventory setHitPoints
       setArmorClass damageCharacter healCharacter noCombat gameLog
       currentLocationId locations npcs quests activeDialogue] in H.

Ltac progress_of_loops :=
  repeat match goal with
         | H : runEnemyTurns _ _ _ = Ok _ |- _ =>
             let Hc := fresh "Hc" in
             let Hf := fresh "Hf" in
             pose proof (runEnemyTurns_count _ _ _ _ _ H) as Hc;
             pose proof (runEnemyTurns_frame _ _ _ _ _ H) as Hf;
             clear H;
             destruct Hf as (_ & _ & _ & _ & _ & _ & Hf);
             read_fields_in Hc; read_fields_in Hf;
             rewrite ?nextTurn_count, ?updateEnemyHP_count in Hc
         | H : handleCombatVictory _ _ = Ok _ |- _ =>
             apply handleCombatVictory_progress in H;
             [unfold keepsProgress in H; read_fields_in H|
              clear H; read_fields;
              rewrite ?nextTurn_count, ?updateEnemyHP_count]
         | H : initiateCombat _ _ _ = Ok _ |- _ =>
             apply initiateCombat_count in H
         end.

Ltac progress_done :=
  unfold keepsProgress; read_fields;
  rewrite ?nextTurn_count, ?updateEnemyHP_count; read_fields;
  first [lia | intuition lia].

Lemma processPlayerAttack_progress (fuel : nat) (s s' : GameState)
    (targetId : string) (w w' : World) :
  0 <= totalEnemyCount (combat s) ->
  processPlayerAttack fuel s targetId w = Ok (s', w') ->
  keepsProgress s s' /\ 0 <= totalEnemyCount (combat s').
Proof.
  unfold processPlayerAttack. intros Hcount H.
  crack H; progress_of_loops; progress_done.
Qed.

Lemma followOption_progress (h : Host) (npcId : string) (npc : NPC)
    (option : DialogueOption) (s : GameState) :
  callbacksOnlyLog h ->
  character (followOption h npcId npc option s) = character s /\
  combat (followOption h npcId npc option s) = combat s.
Proof.
  intros Hcb. unfold followOption.
  destruct (opt_action option) as [f|].
  - destruct (Hcb f s) as [lines ->]. by repeat case_match.
  - by repeat case_match.
Qed.

Lemma processAction_progress
    (h : Host) (fuel : nat) (s s' : GameState) (a : GameAction) (w w' : World) :
  callbacksOnlyLog h ->
  0 <= totalEnemyCount (combat s) ->
  processAction h fuel s a w = Ok (s', w') ->
  keepsProgress s s' /\ 0 <= totalEnemyCount (combat s').
Proof.
  intros Hcb Hcount H. unfold processAction in H.
  destruct (negb (isAlive (character s)) && negb (isLoadGame a))%bool;
    [crack H; progress_done|].
  destruct a.
  - unfold handleMove in H. crack H; progress_of_loops; progress_done.
  - unfold handleTalk in H. crack H; progress_of_loops; progress_done.
  - unfold handleDialogueSelect in H. crack H;
      try match goal with
          | |- context [followOption ?h0 ?i ?n ?o ?s0] =>
              destruct (followOption_progress h0 i n o s0 Hcb) as (Hch & Hco);
              unfold keepsProgress; rewrite Hch, Hco
          end; progress_done.
  - unfold handleTake in H. crack H; progress_of_loops; progress_done.
  - unfold handleUse in H. crack H; progress_of_loops; progress_done.
  - unfold handleDrop in H. crack H; progress_of_loops; progress_done.
  - unfold handleAttack in H. crack H;
      try match goal with
          | H : processPlayerAttack _ _ _ _ = Ok _ |- _ =>
              apply processPlayerAttack_progress in H;
              [unfold keepsProgress in H; read_fields_in H|
               clear H; read_fields]
          end; progress_of_loops; progress_done.
  - unfold handleDefend in H. crack H; progress_of_loops; progress_done.
  - unfold handleFlee in H. crack H; progress_of_loops; progress_done.
  - unfold handleBuy, shopOf in H. crack H; progress_of_loops; progress_done.
  - unfold handleSell, shopOf in H. crack H; progress_of_loops; progress_done.
  - unfold handleRest in H. crack H; progress_of_loops; progress_done.
  - unfold handleLook in H. crack H; progress_of_loops; progress_done.
  - unfold handleInventory in H. rewrite foldl_addLog_eq in H.
    crack H; progress_of_loops; progress_done.
  - unfold handleStats in H. crack H; progress_of_loops; progress_done.
  - crack H; progress_of_loops; progress_done.
  - crack H; progress_of_loops; progress_done.
Qed.

(** X19. Nothing earned is ever lost: as long as the reward count of the
    fight is not negative (it never is in a fight the engine set up, and
    stays so), no action lowers the experience, the level or the maximum hit
    points of the character. *)
Theorem progress_is_never_lost
    (h : Host) (fuel : nat) (s s' : GameState) (a : GameAction) (w w' : World) :
  callbacksOnlyLog h ->
  0 <= totalEnemyCount (combat s) ->
  processAction h fuel s a w = Ok (s', w') ->
  experience (character s) <= experience (character s') /\
  level (character s) <= level (character s') /\
  hp_max (hitPoints (character s)) <= hp_max (hitPoints (character s')) /\
  0 <= totalEnemyCount (combat s').
Proof.
  intros Hcb Hcount H.
  destruct (processAction_progress _ _ _ _ _ _ _ Hcb Hcount H)
    as ((? & ? & ?) & ?). done.
Qed.

Lemma progress_is_never_lost_witness :
  exists s' w',
    processAction Scene.host 2 Sample.inCave (ATTACK "goblin-1")
      (Sample.worldOf
         [Sample.cellFor 10 20; Sample.cellFor 5 20; Sample.cellFor 20 20;
          Sample.cellFor 8 8; Sample.cellFor 41 41]) = Ok (s', w') /\
    experience (character s') = 100 /\
    level (character Sample.inCave) <= level (character s') /\
    hp_max (hitPoints (character Sample.inCave))
      <= hp_max (hitPoints (character s')).
Proof.
  destruct (processAction Scene.host 2 Sample.inCave _ _)
    as [[s' w']| |] eqn:E;
    [|vm_compute in E; discriminate|vm_compute in E; discriminate].
  assert (Hcount : 0 <= totalEnemyCount (combat Sample.inCave))
    by (by vm_compute).
  destruct (progress_is_never_lost _ _ _ _ _ _ _
              (worldHost_only_logs _ _) Hcount E)
    as (_ & Hlev & Hmax & _).
  exists s', w'. split; [reflexivity|]. split; [|split; [exact Hlev|exact Hmax]].
  vm_compute in E. by simplify_eq.
Defined.

(* ================================================================== *)
(** ** The fallen *)
(* ================================================================== *)

Lemma runEnemyTurns_fallen (fuel : nat) (s s' : GameState) (w w' : World) :
  isAlive (character s) = true ->
  runEnemyTurns fuel s w = Ok (s', w') ->
  fightNeedsTheLiving s'.
Proof.
  revert s w. induction fuel as [|fuel IH]; intros s w Halive H;
    cbn [runEnemyTurns] in H; crack H; try (by right); try (by left).
  all: match goal with
       | H : runEnemyTurns _ _ _ = Ok _ |- _ => apply IH in H; [exact H|]
       end.
  all: cbn; first [assumption|by apply negb_false_iff].
Qed.

Ltac fallen_of_loops :=
  unfold fightNeedsTheLiving in *;
  first
    [ match goal with
      | H : handleCombatVictory _ _ = Ok _ |- _ =>
          left; exact (handleCombatVictory_ends _ _ _ _ H)
      | H : runEnemyTurns _ _ _ = Ok _ |- _ =>
          apply runEnemyTurns_fallen in H; [exact H|cbn; assumption]
      end
    | left; cbn; first [assumption|reflexivity|by apply negb_true_iff]
    | right; cbn; assumption ].

Lemma processPlayerAttack_fallen (fuel : nat) (s s' : GameState)
    (targetId : string) (w w' : World) :
  isAlive (character s) = true ->
  processPlayerAttack fuel s targetId w = Ok (s', w') ->
  fightNeedsTheLiving s'.
Proof.
  unfold processPlayerAttack. intros Halive H. crack H; fallen_of_loops.
Qed.

Lemma processAction_fallen
    (h : Host) (fuel : nat) (s s' : GameState) (a : GameAction) (w w' : World) :
  callbacksOnlyLog h ->
  hpWithinBounds (character s) ->
  fightNeedsTheLiving s ->
  processAction h fuel s a w = Ok (s', w') ->
  fightNeedsTheLiving s'.
Proof.
  intros Hcb Hhp Hs H. unfold processAction in H.
  destruct (negb (isAlive (character s)) && negb (isLoadGame a))%bool eqn:Hdead.
  { crack H. exact Hs. }
  assert (Hkept : forall m t, fightNeedsTheLiving (addLog s m t)) by (intros; exact Hs).
  destruct (isAlive (character s)) eqn:Halive.
  2: { destruct a; try discriminate Hdead. crack H. exact Hs. }
  clear Hdead.
  destruct a.
  - unfold handleMove in H. crack H; fallen_of_loops.
  - unfold handleTalk in H. crack H; fallen_of_loops.
  - unfold handleDialogueSelect in H. crack H;
      try match goal with
          | |- context [followOption ?h0 ?i ?n ?o ?s0] =>
              destruct (followOption_progress h0 i n o s0 Hcb) as (Hch & Hco);
              unfold fightNeedsTheLiving; rewrite Hch, Hco
          end; fallen_of_loops.
  - unfold handleTake in H. crack H; fallen_of_loops.
  - unfold handleUse in H. crack H; try fallen_of_loops.
    right. unfold isAlive in *.
    read_fields. cbn [healCharacter setInventory hitPoints hp_current].
    repeat match goal with
           | Hr : rollDice 4 ?w1 = Ok _ |- _ =>
               rewrite rollDice_eq in Hr by lia;
               pose proof (floorDraw_range 4 w1 ltac:(lia));
               simplify_eq
           end.
    apply Z.ltb_lt in Halive. apply Z.ltb_lt. destruct Hhp. lia.
  - unfold handleDrop in H. crack H; fallen_of_loops.
  - unfold handleAttack in H. crack H;
      try match goal with
          | H : processPlayerAttack _ _ _ _ = Ok _ |- _ =>
              apply processPlayerAttack_fallen in H; [exact H|cbn; assumption]
          end; fallen_of_loops.
  - unfold handleDefend in H. crack H; fallen_of_loops.
  - unfold handleFlee in H. crack H; fallen_of_loops.
  - unfold handleBuy, shopOf in H. crack H; fallen_of_loops.
  - unfold handleSell, shopOf in H. crack H; fallen_of_loops.
  - unfold handleRest in H. crack H; fallen_of_loops.
  - unfold handleLook in H. crack H; fallen_of_loops.
  - unfold handleInventory in H. rewrite foldl_addLog_eq in H.
    crack H; fallen_of_loops.
  - unfold handleStats in H. crack H; fallen_of_loops.
  - crack H; fallen_of_loops.
  - crack H; fallen_of_loops.
Qed.

(** X20. No fight goes on over a fallen character: if the hit points are
    within bounds and the input state is not a fight with a dead character,
    then after any action either no fight is on or the character is alive.
    The blow that takes the last hit point ends the fight in the same
    action. *)
Theorem no_fight_over_the_fallen
    (h : Host) (fuel : nat) (s s' : GameState) (a : GameAction) (w w' : World) :
  callbacksOnlyLog h ->
  hpWithinBounds (character s) ->
  active (combat s) = false \/ isAlive (character s) = true ->
  processAction h fuel s a w = Ok (s', w') ->
  active (combat s') = false \/ isAlive (character s') = true.
Proof. apply processAction_fallen. Qed.

Lemma no_fight_over_the_fallen_witness :
  exists s' w',
    processAction Scene.host 2 Sample.fighting DEFEND
      (Sample.worldOf
         [Sample.cellFor 20 20; Sample.cellFor 1 8; Sample.cellFor 1 8;
          Sample.cellFor 1 8]) = Ok (s', w') /\
    isAlive (character s') = false /\
    (active (combat s') = false \/ isAlive (character s') = true).
Proof.
  destruct (processAction Scene.host 2 Sample.fighting DEFEND _)
    as [[s' w']| |] eqn:E;
    [|vm_compute in E; discriminate|vm_compute in E; discriminate].
  exists s', w'. split; [reflexivity|]. split.
  - vm_compute in E. by simplify_eq.
  - apply (fun Hhp Hs => no_fight_over_the_fallen _ _ _ _ _ _ _
                           (worldHost_only_logs _ _) Hhp Hs E).
    + split; by vm_compute.
    + right. reflexivity.
Defined.

(* ================================================================== *)
(** ** The recorded weight follows the items *)
(* ================================================================== *)

Lemma burdenMoves_same (inv inv' : Inventory) :
  inv' = inv -> burdenMoves inv inv'.
Proof. intros ->. split; [reflexivity|]. by left. Qed.

Lemma handleCombatVictory_inventory (s s' : GameState) (w w' : World) :
  handleCombatVictory s w = Ok (s', w') ->
  inventory (character s') = inventory (character s).
Proof.
  unfold handleCombatVictory, bind, ret. intros H.
  destruct (endCombat (combat s) w) as [[[xp gp] w1]| |]; [|done|done].
  destruct (awardExperience (character s) xp w1) as [[[c' up] w2]| |] eqn:Ha;
    [|done|done].
  apply awardExperience_grows in Ha.
  destruct Ha as (_ & _ & _ & _ & _ & _ & Hinv & _).
  simplify_eq. by destruct up.
Qed.

Ltac read_burden :=
  cbn [character inventory inv_items maxWeight currentWeight
       addLog setGameLog setCombat setCharacter setLocations
       setNpcs setActiveDialogue setGold setInventory setHitPoints
       setArmorClass damageCharacter healCharacter].

Ltac read_burden_in H :=
  cbn [character inventory inv_items maxWeight currentWeight
       addLog setGameLog setCombat setCharacter setLocations
       setNpcs setActiveDialogue setGold setInventory setHitPoints
       setArmorClass damageCharacter healCharacter] in H.

(** Replace what is known of the loop and of the settlement by what they do
    to the inventory: nothing. *)
Ltac burden_of_loops :=
  repeat match goal with
         | H : runEnemyTurns _ _ _ = Ok _ |- _ =>
             apply runEnemyTurns_frame in H;
             destruct H as (_ & _ & _ & _ & H & _); read_burden_in H
         | H : handleCombatVictory _ _ = Ok _ |- _ =>
             apply handleCombatVictory_inventory in H; read_burden_in H
         end.

Ltac burden_kept :=
  apply burdenMoves_same; read_burden;
  first [reflexivity|congruence].

Lemma processPlayerAttack_inventory (fuel : nat) (s s' : GameState)
    (targetId : string) (w w' : World) :
  processPlayerAttack fuel s targetId w = Ok (s', w') ->
  inventory (character s') = inventory (character s).
Proof.
  unfold processPlayerAttack. intros H.
  crack H; burden_of_loops; read_burden; first [reflexivity|congruence].
Qed.

Lemma processAction_burden
    (h : Host) (fuel : nat) (s s' : GameState) (a : GameAction) (w w' : World) :
  callbacksOnlyLog h ->
  processAction h fuel s a w = Ok (s', w') ->
  burdenMoves (inventory (character s)) (inventory (character s')).
Proof.
  intros Hcb H. unfold processAction in H.
  destruct (negb (isAlive (character s)) && negb (isLoadGame a))%bool;
    [crack H; burden_kept|].
  destruct a.
  - unfold handleMove in H. crack H; burden_of_loops; burden_kept.
  - unfold handleTalk in H. crack H; burden_kept.
  - unfold handleDialogueSelect in H. crack H;
      try match goal with
          | |- context [followOption ?h0 ?i ?n ?o ?s0] =>
              destruct (followOption_progress h0 i n o s0 Hcb) as (Hch & _);
              apply burdenMoves_same; read_burden; rewrite Hch
          end; first [reflexivity|burden_kept].
  - unfold handleTake in H. crack H; try burden_kept.
    split; [reflexivity|]. right. left. by eexists.
  - unfold handleUse in H. crack H; try burden_kept.
    split; [reflexivity|]. right. right. read_burden. by eexists _, _.
  - unfold handleDrop in H. crack H; try burden_kept.
    split; [reflexivity|]. right. right. by eexists _, _.
  - unfold handleAttack in H. crack H;
      repeat match goal with
             | H : processPlayerAttack _ _ _ _ = Ok _ |- _ =>
                 apply processPlayerAttack_inventory in H; read_burden_in H
             end; burden_kept.
  - unfold handleDefend in H. crack H; burden_of_loops; burden_kept.
  - unfold handleFlee in H. crack H; burden_of_loops; burden_kept.
  - unfold handleBuy, shopOf in H. crack H; try burden_kept.
    split; [reflexivity|]. right. left. by eexists.
  - unfold handleSell, shopOf in H. crack H; try burden_kept.
    split; [reflexivity|]. right. right. by eexists _, _.
  - unfold handleRest in H. crack H; burden_kept.
  - unfold handleLook in H. crack H; burden_kept.
  - unfold handleInventory in H. rewrite foldl_addLog_eq in H.
    crack H; burden_kept.
  - unfold handleStats in H. crack H; burden_kept.
  - crack H; burden_kept.
  - crack H; burden_kept.
Qed.

(** X5. The recorded weight follows the items.  An action leaves the items
    carried and the recorded weight as they are, or appends one item and
    adds its weight to the recorded weight (TAKE, BUY), or removes one item
    and takes its weight off (DROP, SELL, a potion used).  The sum and the
    difference are rounded to a double each time, so that the recorded
    weight is the result of these roundings in turn, which need not be the
    sum of the weights carried.  The capacity never changes. *)
Theorem weight_follows_the_items
    (h : Host) (fuel : nat) (s s' : GameState) (a : GameAction) (w w' : World) :
  callbacksOnlyLog h ->
  processAction h fuel s a w = Ok (s', w') ->
  burdenMoves (inventory (character s)) (inventory (character s')).
Proof. apply processAction_burden. Qed.

Lemma weight_follows_the_items_witness :
  exists s' w',
    processAction Scene.host 0 Sample.armed (SELL "shop-longsword" "shopkeeper")
      (Sample.worldOf []) = Ok (s', w') /\
    inv_items (inventory (character s')) = [Sample.healingPotion] /\
    currentWeight (inventory (character s')) = (1 # 2)%Q /\
    burdenMoves (inventory (character Sample.armed)) (inventory (character s')).
Proof.
  destruct (processAction Scene.host 0 Sample.armed _ _)
    as [[s' w']| |] eqn:E;
    [|vm_compute in E; discriminate|vm_compute in E; discriminate].
  pose proof (weight_follows_the_items _ _ _ _ _ _ _
                (worldHost_only_logs _ _) E) as Hmoves.
  exists s', w'. split; [reflexivity|].
  split; [|split; [|exact Hmoves]]; vm_compute in E; by simplify_eq.
Defined.

(** The recorded weight need not be the sum of the weights carried.  With
    64.5 carried, the chain mail of 55 among it, the key of weight 0.2 is
    picked up and the chain mail dropped: what is left weighs 9.5 and 0.2,
    which add up to the double 9.7, but the weight recorded is a little
    more. *)
Example recorded_weight_drifts :
  exists s1 w1 s2 w2,
    processAction Sample.host 0 Ledger.laden (TAKE "ancient-key")
      (Sample.worldOf []) = Ok (s1, w1) /\
    processAction Sample.host 0 s1 (DROP "chain-mail") w1 = Ok (s2, w2) /\
    inv_items (inventory (character s2)) = [Ledger.pack; Ledger.ancientKey] /\
    fadd (item_weight Ledger.pack) (item_weight Ledger.ancientKey)
      = fl (97 # 10) /\
    (fl (97 # 10) < currentWeight (inventory (character s2)))%Q /\
    ~ (currentWeight (inventory (character s2)) ==
       item_weight Ledger.pack + item_weight Ledger.ancientKey)%Q.
Proof.
  eexists _, _, _, _. split; [vm_compute; reflexivity|].
  split; [vm_compute; reflexivity|].
  split; [reflexivity|]. split; [by vm_compute|].
  split; [by vm_compute|]. vm_compute. discriminate.
Qed.

